(** * Village backend: ward-scoped problem tracking and notification fan-out

    A shallow embedding of the request handlers of [src/routes/problems.js]
    and [src/routes/wards.js], of the socket handlers and the start-up seeding
    of [src/index.js], and of the [Problem] and [Ward] schemas, together with
    the properties of the written specification that concern them.

    Conventions of the embedding:
    - a JavaScript string is the [string] of its UTF-8 bytes, which is what
      the literals of this file are; [s.length] and the length the
      validation chain measures are computed from these bytes;
    - a JavaScript number that holds a ward number, a count or a page index
      is a [Z]; [NaN] (the result of a failed [parseInt]) is [None] in an
      [option Z];
    - a [Date] is a [Z] (milliseconds), a nullable field is an [option];
    - an ObjectId is an [N]; a value of a request that stands where the
      store expects an ObjectId is an [IdParam], which casts to one or not;
    - a collection is a [list] of documents in insertion order;
    - the rooms of the socket server are a [gmap] from room name to the
      [gset] of joined session ids;
    - an [async] handler is a function from the world before the request to
      the response and the world after it, written in a small state monad
      with early return ([reply]) and exceptions ([throw], caught by the
      handler's [try]/[catch]). *)

From stdpp Require Import gmap strings list pretty sorting.
From Stdlib Require Import ZArith Ascii String.

Open Scope string_scope.
Open Scope list_scope.
Open Scope Z_scope.

(** ** JavaScript helpers *)

Module Js.

Definition byte (c : ascii) : N := N_of_ascii c.

(** White space as [String.prototype.trim], the [\s] of a regular
    expression and [parseInt] know it: U+0009 to U+000D, U+0020, U+00A0,
    U+1680, U+2000 to U+200A, U+2028, U+2029, U+202F, U+205F, U+3000 and
    U+FEFF, each by the one, two or three bytes of its encoding. *)
Definition is_ws (c : ascii) : bool :=
  let n := byte c in
  ((n =? 32) || (n =? 9) || (n =? 10) || (n =? 11) || (n =? 12) || (n =? 13))%N.

Definition is_ws2 (a b : ascii) : bool :=
  ((byte a =? 194) && (byte b =? 160))%N.

Definition is_ws3 (a b c : ascii) : bool :=
  (((byte a =? 225) && (byte b =? 154) && (byte c =? 128))
   || ((byte a =? 226) && (byte b =? 128)
       && (((128 <=? byte c) && (byte c <=? 138))
           || (byte c =? 168) || (byte c =? 169) || (byte c =? 175)))
   || ((byte a =? 226) && (byte b =? 129) && (byte c =? 159))
   || ((byte a =? 227) && (byte b =? 128) && (byte c =? 128))
   || ((byte a =? 239) && (byte b =? 187) && (byte c =? 191)))%N.

Fixpoint ltrim (s : string) : string :=
  match s with
  | String a s1 =>
      if is_ws a then ltrim s1 else
      match s1 with
      | String b s2 =>
          if is_ws2 a b then ltrim s2 else
          match s2 with
          | String c s3 => if is_ws3 a b c then ltrim s3 else s
          | EmptyString => s
          end
      | EmptyString => s
      end
  | EmptyString => EmptyString
  end.

(** The string is white space throughout. *)
Definition blank (s : string) : bool := String.eqb (ltrim s) "".

Fixpoint rtrim (s : string) : string :=
  match s with
  | String c s' => if blank s then EmptyString else String c (rtrim s')
  | EmptyString => EmptyString
  end.

Definition trim (s : string) : string := rtrim (ltrim s).

(** [s.length], the number of UTF-16 code units: a code point counts at the
    first byte of its encoding (the bytes 128 to 191 continue one), and for
    two when it lies beyond U+FFFF (first byte from 240, a surrogate
    pair). *)
Definition units (c : ascii) : Z :=
  let n := byte c in
  if ((128 <=? n) && (n <? 192))%N then 0 else if (240 <=? n)%N then 2 else 1.

Fixpoint length (s : string) : Z :=
  match s with
  | String c s' => units c + length s'
  | EmptyString => 0
  end.

(** The matches of [/[\uD800-\uDBFF][\uDC00-\uDFFF]/g]: one for each code
    point beyond U+FFFF. *)
Fixpoint surrogate_pairs (s : string) : Z :=
  match s with
  | String c s' => (if (240 <=? byte c)%N then 1 else 0) + surrogate_pairs s'
  | EmptyString => 0
  end.

(** The matches of [/(\uFE0F|\uFE0E)/g], the two variation selectors. *)
Fixpoint presentation_sequences (s : string) : Z :=
  match s with
  | String a s1 =>
      match s1 with
      | String b (String c _) =>
          if ((byte a =? 239) && (byte b =? 184)
              && ((byte c =? 142) || (byte c =? 143)))%N
          then 1 else 0
      | _ => 0
      end + presentation_sequences s1
  | EmptyString => 0
  end.

(** Value of a digit character, for radix up to 16. *)
Definition digit_val (c : ascii) : option Z :=
  let n := Z.of_N (N_of_ascii c) in
  if (48 <=? n) && (n <=? 57) then Some (n - 48)
  else if (97 <=? n) && (n <=? 102) then Some (n - 87)
  else if (65 <=? n) && (n <=? 70) then Some (n - 55)
  else None.

(** Longest prefix of digits of the radix; [acc] is [None] until the first
    digit has been read. *)
Fixpoint parse_digits (radix : Z) (s : string) (acc : option Z) : option Z :=
  match s with
  | EmptyString => acc
  | String c s' =>
      match digit_val c with
      | Some d =>
          if d <? radix
          then parse_digits radix s' (Some (radix * default 0 acc + d))
          else acc
      | None => acc
      end
  end.

Definition strip_sign (s : string) : bool * string :=
  match s with
  | String "-" s' => (true, s')
  | String "+" s' => (false, s')
  | _ => (false, s)
  end.

Definition strip_radix (s : string) : Z * string :=
  match s with
  | String "0" (String "x" s') => (16, s')
  | String "0" (String "X" s') => (16, s')
  | _ => (10, s)
  end.

(** [parseInt(s)] without a radix argument; [None] is [NaN]. *)
Definition parseInt (s : string) : option Z :=
  let '(neg, s1) := strip_sign (ltrim s) in
  let '(radix, s2) := strip_radix s1 in
  match parse_digits radix s2 None with
  | Some v => Some (if neg then - v else v)
  | None => None
  end.

(** The values a client can pass where the code expects a ward number. *)
Inductive value : Type :=
| VUndefined
| VNum (z : Z)
| VStr (s : string).

(** Conversion performed by a template literal [`${v}`]. *)
Definition template (v : value) : string :=
  match v with
  | VUndefined => "undefined"
  | VNum z => pretty z
  | VStr s => s
  end.

(** Truthiness of an optional string ([undefined] and [""] are falsy). *)
Definition truthy (o : option string) : bool :=
  match o with
  | Some s => negb (String.eqb s "")
  | None => false
  end.

(** [Math.ceil(a / b)] on integers; [None] when the quotient is not finite
    ([b = 0]), which [JSON.stringify] renders as [null]. *)
Definition ceil_div (a b : Z) : option Z :=
  if b =? 0 then None else Some (- ((- a) / b)).

End Js.

(** ** Data model *)

Abbreviation ObjectId := N (only parsing).
Definition Date := Z.

(** A route parameter or a body value that the store is to read as an
    ObjectId: either it casts to one, or it does not (as ["7"] does not) and
    the operation that casts it fails with a CastError.  An ObjectId stands
    for the parameter that casts to it. *)
Inductive IdParam : Type :=
| IdOf (id : ObjectId)
| NotAnId.
Coercion IdOf : N >-> IdParam.

(** An actor, as the authentication middleware attaches it to the request
    ([req.user]).

    Modelled from the spec: the [User] model ([models/User]) is not among the
    sources; an actor "has [role] in {resident, admin} and [wardNumber]
    affinity", and the seeding routine of [index.js] gives the other fields. *)
Record User : Type := mkUser {
  user_id : ObjectId;
  user_name : string;
  user_email : string;
  user_password : string;
  user_wardNumber : Z;
  user_phone : string;
  user_address : string;
  user_role : string
}.

Definition is_admin (u : User) : bool := String.eqb (user_role u) "admin".

(** [problemSchema] of the Problem model, with the two store-managed fields
    that [timestamps: true] adds. *)
Record Problem : Type := mkProblem {
  _id : ObjectId;
  title : string;
  description : string;
  category : string;
  priority : string;
  status : string;
  reportedBy : ObjectId;
  wardNumber : Z;
  location : string;
  images : list string;
  assignedTo : option ObjectId;
  adminNotes : option string;
  resolvedAt : option Date;
  estimatedResolutionDate : option Date;
  isPublic : bool;
  createdAt : Date;
  updatedAt : Date
}.

Definition set_status (v : string) (p : Problem) : Problem :=
  mkProblem (_id p) (title p) (description p) (category p) (priority p) v
    (reportedBy p) (wardNumber p) (location p) (images p) (assignedTo p)
    (adminNotes p) (resolvedAt p) (estimatedResolutionDate p) (isPublic p)
    (createdAt p) (updatedAt p).

Definition set_adminNotes (v : option string) (p : Problem) : Problem :=
  mkProblem (_id p) (title p) (description p) (category p) (priority p)
    (status p) (reportedBy p) (wardNumber p) (location p) (images p)
    (assignedTo p) v (resolvedAt p) (estimatedResolutionDate p) (isPublic p)
    (createdAt p) (updatedAt p).

Definition set_resolvedAt (v : option Date) (p : Problem) : Problem :=
  mkProblem (_id p) (title p) (description p) (category p) (priority p)
    (status p) (reportedBy p) (wardNumber p) (location p) (images p)
    (assignedTo p) (adminNotes p) v (estimatedResolutionDate p) (isPublic p)
    (createdAt p) (updatedAt p).

Definition set_assignedTo (v : option ObjectId) (p : Problem) : Problem :=
  mkProblem (_id p) (title p) (description p) (category p) (priority p)
    (status p) (reportedBy p) (wardNumber p) (location p) (images p) v
    (adminNotes p) (resolvedAt p) (estimatedResolutionDate p) (isPublic p)
    (createdAt p) (updatedAt p).

Definition set_updatedAt (v : Date) (p : Problem) : Problem :=
  mkProblem (_id p) (title p) (description p) (category p) (priority p)
    (status p) (reportedBy p) (wardNumber p) (location p) (images p)
    (assignedTo p) (adminNotes p) (resolvedAt p) (estimatedResolutionDate p)
    (isPublic p) (createdAt p) v.

Record Representative : Type := mkRepresentative {
  rep_name : option string;
  rep_contact : option string
}.

(** [wardSchema] of the Ward model, with its two timestamps. *)
Record Ward : Type := mkWard {
  ward_wardNumber : Z;
  ward_name : string;
  ward_description : option string;
  ward_population : Z;
  ward_area : option string;
  ward_representative : Representative;
  ward_isActive : bool;
  ward_createdAt : Date;
  ward_updatedAt : Date
}.

Definition categories : list string :=
  [ "Water Supply"; "Electricity"; "Roads & Transportation";
    "Waste Management"; "Healthcare"; "Education"; "Security";
    "Environment"; "Infrastructure"; "Other" ].
Definition priorities : list string := [ "Low"; "Medium"; "High"; "Critical" ].
Definition statuses : list string := [ "Open"; "In Progress"; "Resolved"; "Closed" ].

(** [isIn] of the validator and [enum] of the schema. *)
Definition isIn (s : string) (l : list string) : bool :=
  existsb (String.eqb s) l.

(** [isLength({ min, max })] of the validator: the length it compares is
    [str.length] less the surrogate pairs and the variation selectors, so a
    character beyond U+FFFF counts for one; [max] may be absent. *)
Definition isLength (min : Z) (max : option Z) (s : string) : bool :=
  let len := Js.length s - Js.presentation_sequences s - Js.surrogate_pairs s in
  (min <=? len) && match max with Some m => len <=? m | None => true end.

(** ** The persistent store *)

Record Store : Type := mkStore {
  problems : list Problem;
  wards : list Ward;
  users : list User
}.

(** ** The notification bus *)

Inductive Payload : Type :=
| NewProblem (id : ObjectId) (ttl : string) (problem_ward : Z) (ward : Z)
| ProblemUpdated (id : ObjectId) (ttl : string) (st : string) (ward : Z)
| ClientData (ward : Js.value) (rest : string).

Record Event : Type := mkEvent {
  ev_name : string;
  ev_payload : Payload
}.

Definition SessionId := nat.

(** Room membership of the socket server and, per session, the events that
    were written to its connection, oldest first. *)
Record Bus : Type := mkBus {
  rooms : gmap string (gset SessionId);
  delivered : list (SessionId * Event)
}.

Definition members (b : Bus) (room : string) : gset SessionId :=
  default ∅ (rooms b !! room).

(** [socket.join(room)] *)
Definition socket_join (sid : SessionId) (room : string) (b : Bus) : Bus :=
  mkBus (<[room := {[sid]} ∪ members b room]> (rooms b)) (delivered b).

(** What [io.to(room).emit(name, payload)] writes: one copy for each session
    in the room at that moment. *)
Definition emit_deliveries (b : Bus) (room : string) (ev : Event)
  : list (SessionId * Event) :=
  (λ sid, (sid, ev)) <$> elements (members b room).

(** [io.to(room).emit(name, payload)] *)
Definition io_to_emit (room : string) (ev : Event) (b : Bus) : Bus :=
  mkBus (rooms b) (delivered b ++ emit_deliveries b room ev).

(** A closed connection leaves every room it had joined. *)
Definition socket_leave_all (sid : SessionId) (b : Bus) : Bus :=
  mkBus ((λ s, s ∖ {[sid]}) <$> rooms b) (delivered b).

(** The events session [sid] has received. *)
Definition inbox (b : Bus) (sid : SessionId) : list Event :=
  snd <$> filter (λ d, d.1 = sid) (delivered b).

(** The name of the room of a ward: [`ward-${wardNumber}`]. *)
Definition ward_room_of (v : Js.value) : string := "ward-" +:+ Js.template v.
Definition ward_room (n : Z) : string := ward_room_of (Js.VNum n).

(** The argument a client sends with [problem-status-update]: none (or
    [null]), or a value, of which the listener reads the property
    [wardNumber], [undefined] when the value has none. *)
Inductive UpdateArg : Type :=
| NoData
| Data (wardNumber : Js.value) (rest : string).

(** The messages of a connection that the listeners of
    [io.on('connection', ...)] receive. *)
Inductive SocketMsg : Type :=
| JoinWard (wardNumber : Js.value)
| ProblemStatusUpdate (data : UpdateArg)
| Disconnect.

(** What the listeners do to the bus.  Without data, reading
    [data.wardNumber] raises a TypeError before [io.to] is reached, and the
    bus is as it was. *)
Definition on_socket (sid : SessionId) (m : SocketMsg) (b : Bus) : Bus :=
  match m with
  | JoinWard wardNumber => socket_join sid (ward_room_of wardNumber) b
  | ProblemStatusUpdate (Data w rest) =>
      io_to_emit (ward_room_of w) (mkEvent "problem-updated" (ClientData w rest)) b
  | ProblemStatusUpdate NoData => b
  | Disconnect => socket_leave_all sid b
  end.

(** Socket messages that publish nothing. *)
Definition is_membership_msg (m : SocketMsg) : bool :=
  match m with
  | ProblemStatusUpdate _ => false
  | _ => true
  end.

Definition run_socket (ms : list (SessionId * SocketMsg)) (b : Bus) : Bus :=
  foldl (λ b m, on_socket m.1 m.2 b) b ms.

(** ** Responses *)

(** The two fields that [populate(path, 'name email')] keeps of a referenced
    user, next to its id. *)
Record UserRef : Type := mkUserRef {
  ref_id : ObjectId;
  ref_name : string;
  ref_email : string
}.

(** A problem document as a response carries it, references resolved. *)
Record ProblemView : Type := mkProblemView {
  doc : Problem;
  reportedBy_ref : option UserRef;
  assignedTo_ref : option UserRef
}.

(** A ward as [GET /api/wards] lists it: the document with the two counts
    read from the Problem collection. *)
Record WardWithStats : Type := mkWardWithStats {
  ws_ward : Ward;
  activeProblems : Z;
  totalProblems : Z
}.

Inductive Json : Type :=
| Errors (errs : list string)
| Message (msg : string)
| MessageProblem (msg : string) (p : ProblemView)
| OneProblem (p : ProblemView)
| ProblemPage (ps : list ProblemView) (totalPages : option Z)
    (currentPage : Z) (total : Z)
| WardDetail (w : Ward) (recentProblems : list ProblemView)
    (stats : list (string * Z))
| MessageWard (msg : string) (w : Ward)
| WardList (ws : list WardWithStats).

Record Response : Type := mkResponse {
  code : Z;
  body : Json
}.

(** The problem documents a response discloses. *)
Definition disclosed (r : Response) : list Problem :=
  match body r with
  | MessageProblem _ v | OneProblem v => [doc v]
  | ProblemPage vs _ _ _ | WardDetail _ vs _ => doc <$> vs
  | _ => []
  end.

(** The wards a listing shows. *)
Definition listed_wards (r : Response) : list Ward :=
  match body r with
  | WardList ws => ws_ward <$> ws
  | _ => []
  end.

(** ** The world a handler runs in *)

Inductive Effect : Type :=
| EffSave (p : Problem)
| EffEmit (room : string) (ev : Event).

(** [trace] lists, oldest first, the completed saves of problem documents
    and the publications on the bus, each with the Problem collection as the
    effect found it. *)
Record World : Type := mkWorld {
  store : Store;
  bus : Bus;
  now : Date;
  next_id : ObjectId;
  trace : list (Effect * list Problem)
}.

Definition with_store (s : Store) (w : World) : World :=
  mkWorld s (bus w) (now w) (next_id w) (trace w).
Definition with_bus (b : Bus) (w : World) : World :=
  mkWorld (store w) b (now w) (next_id w) (trace w).
Definition with_next_id (i : ObjectId) (w : World) : World :=
  mkWorld (store w) (bus w) (now w) i (trace w).
Definition log (e : Effect) (w : World) : World :=
  mkWorld (store w) (bus w) (now w) (next_id w)
    (trace w ++ [(e, problems (store w))]).
Definition with_problems (ps : list Problem) (s : Store) : Store :=
  mkStore ps (wards s) (users s).
Definition with_wards (ws : list Ward) (s : Store) : Store :=
  mkStore (problems s) ws (users s).
Definition with_users (us : list User) (s : Store) : Store :=
  mkStore (problems s) (wards s) us.

(** Time passes between requests. *)
Definition tick (d : Z) (w : World) : World :=
  mkWorld (store w) (bus w) (now w + Z.max 0 d) (next_id w) (trace w).

(** Result of a step of a handler: a value, a response already sent
    ([return res.json(...)]), or an exception on its way to [catch]. *)
Inductive Res (A : Type) : Type :=
| Val (a : A)
| Replied (r : Response)
| Thrown.
Arguments Val {A} a.
Arguments Replied {A} r.
Arguments Thrown {A}.

Definition M (A : Type) : Type := World → Res A * World.

Definition ret {A} (a : A) : M A := λ w, (Val a, w).
Definition bind {A B} (m : M A) (k : A → M B) : M B :=
  λ w, match m w with
       | (Val a, w') => k a w'
       | (Replied r, w') => (Replied r, w')
       | (Thrown, w') => (Thrown, w')
       end.
Definition reply {A} (r : Response) : M A := λ w, (Replied r, w).
Definition throw {A} : M A := λ w, (Thrown, w).
Definition get_world : M World := λ w, (Val w, w).
Definition modify (f : World → World) : M unit := λ w, (Val tt, f w).

Notation "'do' x <- m ; k" := (bind m (λ x, k))
  (at level 10, x name, m at level 100, k at level 200).
Notation "'do_' m ; k" := (bind m (λ _, k))
  (at level 10, m at level 100, k at level 200).

(** [try { ... } catch (error) { res.status(500).json({ message }) }] *)
Definition try_catch (m : M Response) (message : string)
  : World → Response * World :=
  λ w, match m w with
       | (Val r, w') | (Replied r, w') => (r, w')
       | (Thrown, w') => (mkResponse 500 (Message message), w')
       end.

(** ** Operations of the Problem model *)

Global Instance Problem_eq_dec : EqDecision Problem.
Proof. solve_decision. Defined.

(** Schema validation of a problem document: [required], [maxlength],
    [enum], [min] and [max]. *)
Definition validate_problem (p : Problem) : bool :=
  negb (String.eqb (title p) "") && (Js.length (title p) <=? 200)
  && negb (String.eqb (description p) "") && (Js.length (description p) <=? 1000)
  && isIn (category p) categories
  && isIn (priority p) priorities
  && isIn (status p) statuses
  && (1 <=? wardNumber p) && (wardNumber p <=? 50)
  && negb (String.eqb (location p) "")
  && (Js.length (default "" (adminNotes p)) <=? 500).

Definition findById (id : ObjectId) (ps : list Problem) : option Problem :=
  List.find (λ p, (_id p =? id)%N) ps.

(** Replace the stored document that has the id of [p]. *)
Definition replace_problem (p : Problem) (ps : list Problem) : list Problem :=
  (λ q, if (_id q =? _id p)%N then p else q) <$> ps.

(** [document.save()].  The document is validated.  A new document
    ([isNew]) is inserted with both timestamps set, and a duplicate [_id]
    is an error.  A loaded document must still be stored; it is written
    back, with [updatedAt] renewed, when a path was modified, and left alone
    otherwise.  The completed call is logged. *)
Definition save (isNew : bool) (p : Problem) : M Problem :=
  do w <- get_world;
  if negb (validate_problem p) then throw else
  match findById (_id p) (problems (store w)), isNew with
  | None, true =>
      let p' := mkProblem (_id p) (title p) (description p) (category p)
                  (priority p) (status p) (reportedBy p) (wardNumber p)
                  (location p) (images p) (assignedTo p) (adminNotes p)
                  (resolvedAt p) (estimatedResolutionDate p) (isPublic p)
                  (now w) (now w) in
      do_ modify (log (EffSave p'));
      do_ modify (λ w, with_store (with_problems (problems (store w) ++ [p']) (store w)) w);
      ret p'
  | Some old, false =>
      let p' := if bool_decide (p = old) then p else set_updatedAt (now w) p in
      do_ modify (log (EffSave p'));
      do_ modify (λ w, with_store (with_problems (replace_problem p' (problems (store w))) (store w)) w);
      ret p'
  | _, _ => throw
  end.

(** [new Problem({ title, description, category, location, priority,
    reportedBy, wardNumber, images })]: a fresh id, the schema's setters
    ([trim]) and defaults; the timestamps are unset (0) until the first
    save. *)
Definition new_Problem (ttl descr cat loc prio : string) (by_ : ObjectId)
    (ward : Z) (imgs : list string) : M Problem :=
  do w <- get_world;
  do_ modify (with_next_id (N.succ (next_id w)));
  ret (mkProblem (next_id w) (Js.trim ttl) (Js.trim descr) cat prio "Open"
         by_ ward (Js.trim loc) imgs None None None None true 0 0).

(** The assignments of [problemSchema.methods.updateStatus], before its
    [this.save()]; [date] is the value of [new Date()]. *)
Definition updateStatus_assign (newStatus : string) (notes : option string)
    (date : Date) (this : Problem) : Problem :=
  let this := set_status newStatus this in
  let this := if Js.truthy notes
              then set_adminNotes (Js.trim <$> notes) this else this in
  if String.eqb newStatus "Resolved" || String.eqb newStatus "Closed"
  then set_resolvedAt (Some date) this
  else this.

(** [problemSchema.methods.updateStatus] *)
Definition updateStatus (newStatus : string) (notes : option string)
    (this : Problem) : M Problem :=
  do w <- get_world;
  save false (updateStatus_assign newStatus notes (now w) this).

Definition user_ref (us : list User) (id : ObjectId) : option UserRef :=
  match List.find (λ u, (user_id u =? id)%N) us with
  | Some u => Some (mkUserRef (user_id u) (user_name u) (user_email u))
  | None => None
  end.

(** [populate('reportedBy', 'name email')] and
    [populate('assignedTo', 'name email')]; a path that is not populated
    stays [None]. *)
Definition populate (reported assigned : bool) (us : list User) (p : Problem)
  : ProblemView :=
  mkProblemView p
    (if reported then user_ref us (reportedBy p) else None)
    (if assigned then match assignedTo p with
                      | Some a => user_ref us a
                      | None => None
                      end
     else None).

(** [io.to(room).emit(name, payload)] as a step of a handler. *)
Definition emit (room : string) (ev : Event) : M unit :=
  do_ modify (log (EffEmit room ev));
  modify (λ w, with_bus (io_to_emit room ev (bus w)) w).

(** A listener of [io.on('connection', ...)] as it runs: none of them has a
    [try], so the TypeError of [problem-status-update] without data leaves
    the listener as an exception nothing catches, on which Node ends the
    process. *)
Definition socket_listener (sid : SessionId) (m : SocketMsg) : M unit :=
  match m with
  | ProblemStatusUpdate NoData => throw
  | _ => modify (λ w, with_bus (on_socket sid m (bus w)) w)
  end.

(** [Problem.findById(id)]: the value is cast first, and one that is no
    ObjectId makes the query reject with a CastError. *)
Definition Problem_findById (id : IdParam) : M (option Problem) :=
  match id with
  | NotAnId => throw
  | IdOf i => do w <- get_world; ret (findById i (problems (store w)))
  end.

(** ** Queries on the Problem collection *)

(** A query document [{ wardNumber?, status?, category? }]. *)
Record Query : Type := mkQuery {
  q_wardNumber : option Z;
  q_status : option string;
  q_category : option string
}.

Definition matches (q : Query) (p : Problem) : bool :=
  match q_wardNumber q with Some n => wardNumber p =? n | None => true end
  && match q_status q with Some s => String.eqb (status p) s | None => true end
  && match q_category q with Some c => String.eqb (category p) c | None => true end.

(** [sort({ createdAt: -1 })] *)
Definition newer_first (p q : Problem) : Prop := createdAt q ≤ createdAt p.
Global Instance newer_first_dec : RelDecision newer_first.
Proof. intros p q. unfold newer_first. apply _. Defined.

Definition sort_newest (ps : list Problem) : list Problem :=
  merge_sort newer_first ps.

(** [skip(s)] then [limit(l)] on a cursor: the store rejects a negative
    skip, reads a limit of 0 as no limit and a negative limit as its
    absolute value. *)
Definition cursor {A} (s l : Z) (xs : list A) : option (list A) :=
  if s <? 0 then None
  else let rest := drop (Z.to_nat s) xs in
       Some (if l =? 0 then rest else take (Z.to_nat (Z.abs l)) rest).

(** [Problem.countDocuments(query)] *)
Definition countDocuments (q : Query) (ps : list Problem) : Z :=
  Z.of_nat (List.length (filter (λ p, matches q p = true) ps)).

(** [Problem.find(query).sort({ createdAt: -1 }).limit(l).skip(s)] *)
Definition find_page (q : Query) (s l : Z) : M (list Problem) :=
  do w <- get_world;
  match cursor s l (sort_newest (filter (λ p, matches q p = true) (problems (store w)))) with
  | Some ps => ret ps
  | None => throw
  end.

(** [$match] on a ward, then [$group] by status with [$sum: 1]. *)
Definition group_by_status (ps : list Problem) : list (string * Z) :=
  (λ s, (s, Z.of_nat (List.length (filter (λ p, status p = s) ps))))
    <$> remove_dups (status <$> ps).

(** ** Handlers of [routes/problems.js] *)

(** Body of [POST /api/problems].  A client can send more than the handler
    reads; [pb_wardNumber], [pb_reportedBy] and [pb_status] stand for that. *)
Record ProblemBody : Type := mkProblemBody {
  pb_title : string;
  pb_description : string;
  pb_category : string;
  pb_location : string;
  pb_priority : option string;
  pb_images : option (list string);
  pb_wardNumber : option Js.value;
  pb_reportedBy : option ObjectId;
  pb_status : option string
}.

Definition check (ok : bool) (msg : string) : list string :=
  if ok then [] else [msg].

(** The validation chain of [POST /api/problems]. *)
Definition validate_post_problem (b : ProblemBody) : list string :=
  check (isLength 5 (Some 200) (Js.trim (pb_title b)))
    "Title must be between 5 and 200 characters"
  ++ check (isLength 10 (Some 1000) (Js.trim (pb_description b)))
    "Description must be between 10 and 1000 characters"
  ++ check (isIn (pb_category b) categories) "Invalid category"
  ++ check (isLength 5 None (Js.trim (pb_location b)))
    "Location must be at least 5 characters"
  ++ check (match pb_priority b with Some p => isIn p priorities | None => true end)
    "Invalid priority".

Definition is_nil {A} (l : list A) : bool :=
  match l with [] => true | _ => false end.

(** [router.post('/', auth, [...], async (req, res) => ...)] *)
Definition post_problem (user : User) (b : ProblemBody)
  : World → Response * World :=
  try_catch (
    let errors := validate_post_problem b in
    if negb (is_nil errors) then reply (mkResponse 400 (Errors errors)) else
    let title' := Js.trim (pb_title b) in
    let description' := Js.trim (pb_description b) in
    let category' := pb_category b in
    let location' := Js.trim (pb_location b) in
    let priority' := pb_priority b in
    let images' := pb_images b in
    do problem <- new_Problem title' description' category' location'
                    (if Js.truthy priority' then default "" priority' else "Medium")
                    (user_id user) (user_wardNumber user) (default [] images');
    do problem <- save true problem;
    do w <- get_world;
    let view := populate true false (users (store w)) problem in
    do_ emit (ward_room (wardNumber problem))
          (mkEvent "new-problem"
             (NewProblem (_id problem) (title problem) (wardNumber problem)
                (wardNumber problem)));
    ret (mkResponse 201 (MessageProblem "Problem reported successfully" view))
  ) "Server error while reporting problem".

(** Query string of the two listing routes.  [lq_page] and [lq_limit] hold
    the numeric value of the parameter when it is given. *)
Record ListQuery : Type := mkListQuery {
  lq_status : option string;
  lq_category : option string;
  lq_wardNumber : option string;
  lq_page : option Z;
  lq_limit : option Z
}.

Definition if_truthy (o : option string) : option string :=
  if Js.truthy o then o else None.

(** The paginated answer both listing routes build from [query]. *)
Definition list_page (query : Query) (page limit : Z) : M Response :=
  do found <- find_page query ((page - 1) * limit) (limit * 1);
  do w <- get_world;
  let total := countDocuments query (problems (store w)) in
  ret (mkResponse 200
         (ProblemPage (populate true true (users (store w)) <$> found)
            (Js.ceil_div total limit) page total)).

(** [router.get('/', auth, async (req, res) => ...)] *)
Definition get_problems (user : User) (q : ListQuery)
  : World → Response * World :=
  try_catch (
    let page := default 1 (lq_page q) in
    let limit := default 10 (lq_limit q) in
    do ward <- (if negb (is_admin user) then ret (Some (user_wardNumber user))
                else if Js.truthy (lq_wardNumber q)
                     then match Js.parseInt (default "" (lq_wardNumber q)) with
                          | Some n => ret (Some n)
                          | None => throw
                          end
                     else ret None);
    let query := mkQuery ward (if_truthy (lq_status q)) (if_truthy (lq_category q)) in
    list_page query page limit
  ) "Server error while fetching problems".

(** [router.get('/:id', auth, async (req, res) => ...)] *)
Definition get_problem (user : User) (id : IdParam)
  : World → Response * World :=
  try_catch (
    do found <- Problem_findById id;
    do w <- get_world;
    match found with
    | None => reply (mkResponse 404 (Message "Problem not found"))
    | Some problem =>
        if negb (is_admin user) && negb (wardNumber problem =? user_wardNumber user)
        then reply (mkResponse 403 (Message "Access denied"))
        else ret (mkResponse 200
                    (OneProblem (populate true true (users (store w)) problem)))
    end
  ) "Server error while fetching problem".
Arguments get_problem user id%_N w.

(** Modelled from the spec: the [adminAuth] middleware ([middleware/auth]) is
    not among the sources; "[canMutateStatus]: true iff [actor.role ==
    admin]", a false result being "an access-denied failure". *)
Definition adminAuth (user : User) (h : World → Response * World)
  : World → Response * World :=
  λ w, if is_admin user then h w
       else (mkResponse 403 (Message "Access denied"), w).

(** Body of [PUT /api/problems/:id/status]; [sb_assignedTo] is [None] when
    the field is absent or falsy. *)
Record StatusBody : Type := mkStatusBody {
  sb_status : string;
  sb_adminNotes : option string;
  sb_assignedTo : option IdParam
}.

Definition validate_put_status (b : StatusBody) : list string :=
  check (isIn (sb_status b) statuses) "Invalid status"
  ++ check (match sb_adminNotes b with
            | Some n => isLength 0 (Some 500) n
            | None => true
            end)
    "Admin notes must be less than 500 characters".

(** [router.put('/:id/status', adminAuth, [...], async (req, res) => ...)],
    after the middleware.  The body's [assignedTo] is assigned as it came:
    when it is no ObjectId the assignment records the failed cast and the
    [save] that follows rejects. *)
Definition put_problem_status (id : IdParam) (b : StatusBody)
  : World → Response * World :=
  try_catch (
    let errors := validate_put_status b in
    if negb (is_nil errors) then reply (mkResponse 400 (Errors errors)) else
    let status' := sb_status b in
    let adminNotes' := sb_adminNotes b in
    let assignedTo' := sb_assignedTo b in
    do found <- Problem_findById id;
    match found with
    | None => reply (mkResponse 404 (Message "Problem not found"))
    | Some problem =>
        do problem <- updateStatus status' adminNotes' problem;
        do problem <- match assignedTo' with
                      | Some (IdOf a) => save false (set_assignedTo (Some a) problem)
                      | Some NotAnId => throw
                      | None => ret problem
                      end;
        do w <- get_world;
        let view := populate true true (users (store w)) problem in
        do_ emit (ward_room (wardNumber problem))
              (mkEvent "problem-updated"
                 (ProblemUpdated (_id problem) (title problem) (status problem)
                    (wardNumber problem)));
        ret (mkResponse 200
               (MessageProblem "Problem status updated successfully" view))
    end
  ) "Server error while updating problem".
Arguments put_problem_status id%_N b w.

(** ** Handlers of [routes/wards.js] *)

(** [Ward.findOne({ wardNumber, isActive: true })] *)
Definition find_active_ward (n : Z) (ws : list Ward) : option Ward :=
  List.find (λ w, (ward_wardNumber w =? n) && ward_isActive w) ws.

(** [Ward.findOne({ wardNumber })] *)
Definition find_ward (n : Z) (ws : list Ward) : option Ward :=
  List.find (λ w, ward_wardNumber w =? n) ws.

(** [sort({ wardNumber: 1 })] *)
Definition by_wardNumber (a b : Ward) : Prop :=
  ward_wardNumber a ≤ ward_wardNumber b.
Global Instance by_wardNumber_dec : RelDecision by_wardNumber.
Proof. intros a b. unfold by_wardNumber. apply _. Defined.

(** [router.get('/', auth, async (req, res) => ...)] of the wards. *)
Definition get_wards (user : User) : World → Response * World :=
  try_catch (
    do w <- get_world;
    let wards' := merge_sort by_wardNumber
                    (filter (λ x, ward_isActive x = true) (wards (store w))) in
    let wardsWithStats :=
      (λ ward,
         mkWardWithStats ward
           (Z.of_nat (List.length
              (filter (λ p, wardNumber p = ward_wardNumber ward
                            ∧ (status p = "Open" ∨ status p = "In Progress"))
                 (problems (store w)))))
           (Z.of_nat (List.length
              (filter (λ p, wardNumber p = ward_wardNumber ward)
                 (problems (store w)))))) <$> wards' in
    ret (mkResponse 200 (WardList wardsWithStats))
  ) "Server error while fetching wards".

(** A number in a query document is cast by the model; [NaN] fails the
    cast, which throws. *)
Definition cast_number (n : option Z) : M Z :=
  match n with
  | Some z => ret z
  | None => throw
  end.

(** [router.get('/:wardNumber', auth, async (req, res) => ...)] *)
Definition get_ward (user : User) (param : string)
  : World → Response * World :=
  try_catch (
    let wardNumber' := Js.parseInt param in
    do n <- cast_number wardNumber';
    do w <- get_world;
    match find_active_ward n (wards (store w)) with
    | None => reply (mkResponse 404 (Message "Ward not found"))
    | Some ward =>
        do recentProblems <- find_page (mkQuery (Some n) None None) 0 5;
        let stats := group_by_status
                       (filter (λ p, wardNumber p = n) (problems (store w))) in
        ret (mkResponse 200
               (WardDetail ward
                  (populate true false (users (store w)) <$> recentProblems)
                  stats))
    end
  ) "Server error while fetching ward details".

(** Body of [POST /api/wards]; [wb_wardNumber] and [wb_population] hold the
    integer the field denotes, or nothing when the field is absent. *)
Record WardBody : Type := mkWardBody {
  wb_wardNumber : option Z;
  wb_name : string;
  wb_description : option string;
  wb_population : option Z;
  wb_area : option string;
  wb_representative : option Representative
}.

Definition validate_post_ward (b : WardBody) : list string :=
  check (match wb_wardNumber b with
         | Some n => (1 <=? n) && (n <=? 50)
         | None => false
         end) "Ward number must be between 1 and 50"
  ++ check (isLength 2 None (Js.trim (wb_name b)))
    "Ward name must be at least 2 characters"
  ++ check (match wb_description b with
            | Some d => isLength 0 (Some 500) (Js.trim d)
            | None => true
            end) "Description must be less than 500 characters"
  ++ check (match wb_population b with
            | Some n => 0 <=? n
            | None => true
            end) "Population must be a positive number".

Definition trim_representative (r : Representative) : Representative :=
  mkRepresentative (Js.trim <$> rep_name r) (Js.trim <$> rep_contact r).

(** [new Ward({ ... })] followed by [ward.save()]: setters, defaults
    ([population: 0], [isActive: true]) and timestamps. *)
Definition new_Ward (n : Z) (name : string) (descr : option string)
    (pop : option Z) (area : option string) (rep : option Representative)
    (date : Date) : Ward :=
  mkWard n (Js.trim name) (Js.trim <$> descr) (default 0 pop)
    (Js.trim <$> area)
    (trim_representative (default (mkRepresentative None None) rep))
    true date date.

(** Schema validation of a ward document. *)
Definition validate_ward (w : Ward) : bool :=
  (1 <=? ward_wardNumber w) && (ward_wardNumber w <=? 50)
  && negb (String.eqb (ward_name w) "")
  && (Js.length (default "" (ward_description w)) <=? 500).

(** [ward.save()] of a new document; the unique index on [wardNumber]
    rejects a second document with the same number. *)
Definition insert_ward (ward : Ward) : M unit :=
  do w <- get_world;
  if negb (validate_ward ward) then throw else
  match find_ward (ward_wardNumber ward) (wards (store w)) with
  | Some _ => throw
  | None => modify (with_store (with_wards (wards (store w) ++ [ward]) (store w)))
  end.

(** [router.post('/', adminAuth, [...], async (req, res) => ...)], after the
    middleware. *)
Definition post_ward (b : WardBody) : World → Response * World :=
  try_catch (
    let errors := validate_post_ward b in
    if negb (is_nil errors) then reply (mkResponse 400 (Errors errors)) else
    do wardNumber' <- cast_number (wb_wardNumber b);
    do w <- get_world;
    match find_ward wardNumber' (wards (store w)) with
    | Some existingWard =>
        reply (mkResponse 400 (Message "Ward with this number already exists"))
    | None =>
        let ward := new_Ward wardNumber' (Js.trim (wb_name b))
                      (Js.trim <$> wb_description b) (wb_population b)
                      (wb_area b) (wb_representative b) (now w) in
        do_ insert_ward ward;
        ret (mkResponse 201 (MessageWard "Ward created successfully" ward))
    end
  ) "Server error while creating ward".

(** Body of [PUT /api/wards/:wardNumber]: the paths of the schema it sets. *)
Record WardPatch : Type := mkWardPatch {
  wp_wardNumber : option Z;
  wp_name : option string;
  wp_description : option string;
  wp_population : option Z;
  wp_area : option string;
  wp_representative : option Representative;
  wp_isActive : option bool
}.

Definition validate_put_ward (b : WardPatch) : list string :=
  check (match wp_name b with
         | Some n => isLength 2 None (Js.trim n)
         | None => true
         end) "Ward name must be at least 2 characters"
  ++ check (match wp_description b with
            | Some d => isLength 0 (Some 500) (Js.trim d)
            | None => true
            end) "Description must be less than 500 characters"
  ++ check (match wp_population b with
            | Some n => 0 <=? n
            | None => true
            end) "Population must be a positive number".

(** [{ $set: updates }] on one ward document, with the renewed [updatedAt]. *)
Definition apply_patch (b : WardPatch) (date : Date) (w : Ward) : Ward :=
  mkWard (default (ward_wardNumber w) (wp_wardNumber b))
    (default (ward_name w) (Js.trim <$> wp_name b))
    (match wp_description b with
     | Some d => Some (Js.trim d)
     | None => ward_description w
     end)
    (default (ward_population w) (wp_population b))
    (match wp_area b with
     | Some a => Some (Js.trim a)
     | None => ward_area w
     end)
    (default (ward_representative w) (trim_representative <$> wp_representative b))
    (default (ward_isActive w) (wp_isActive b))
    (ward_createdAt w) date.

(** [runValidators: true]: the validators of the paths that are set. *)
Definition validate_patch (b : WardPatch) : bool :=
  match wp_wardNumber b with Some n => (1 <=? n) && (n <=? 50) | None => true end
  && match wp_name b with Some n => negb (String.eqb (Js.trim n) "") | None => true end
  && match wp_description b with
     | Some d => Js.length (Js.trim d) <=? 500
     | None => true
     end.

(** Write [w'] over the first document with ward number [n]. *)
Fixpoint replace_first_ward (n : Z) (w' : Ward) (ws : list Ward) : list Ward :=
  match ws with
  | [] => []
  | w :: rest =>
      if ward_wardNumber w =? n then w' :: rest
      else w :: replace_first_ward n w' rest
  end.

(** [Ward.findOneAndUpdate({ wardNumber }, { $set: updates },
    { new: true, runValidators: true })]: the filter has no [isActive]. *)
Definition findOneAndUpdate (n : Z) (b : WardPatch) : M (option Ward) :=
  do w <- get_world;
  if negb (validate_patch b) then throw else
  match find_ward n (wards (store w)) with
  | None => ret None
  | Some old =>
      let ward := apply_patch b (now w) old in
      if negb (ward_wardNumber ward =? n)
         && bool_decide (is_Some (find_ward (ward_wardNumber ward) (wards (store w))))
      then throw
      else
        do_ modify (with_store (with_wards (replace_first_ward n ward (wards (store w)))
                                  (store w)));
        ret (Some ward)
  end.

(** [router.put('/:wardNumber', adminAuth, [...], async (req, res) => ...)],
    after the middleware. *)
Definition put_ward (param : string) (b : WardPatch)
  : World → Response * World :=
  try_catch (
    let errors := validate_put_ward b in
    if negb (is_nil errors) then reply (mkResponse 400 (Errors errors)) else
    let wardNumber' := Js.parseInt param in
    do n <- cast_number wardNumber';
    do ward <- findOneAndUpdate n b;
    match ward with
    | None => reply (mkResponse 404 (Message "Ward not found"))
    | Some ward => ret (mkResponse 200 (MessageWard "Ward updated successfully" ward))
    end
  ) "Server error while updating ward".

(** [router.get('/:wardNumber/problems', auth, async (req, res) => ...)] *)
Definition get_ward_problems (user : User) (param : string) (q : ListQuery)
  : World → Response * World :=
  try_catch (
    let wardNumber' := Js.parseInt param in
    if negb (is_admin user)
       && negb (bool_decide (wardNumber' = Some (user_wardNumber user)))
    then reply (mkResponse 403 (Message "Access denied")) else
    let page := default 1 (lq_page q) in
    let limit := default 10 (lq_limit q) in
    do n <- cast_number wardNumber';
    let query := mkQuery (Some n) (if_truthy (lq_status q)) (if_truthy (lq_category q)) in
    list_page query page limit
  ) "Server error while fetching ward problems".

(** ** Start-up seeding of [index.js] *)

(** [Math.floor(Math.random() * m)], the [k]-th draw of the start-up; the
    source of randomness [rnd] is a parameter. *)
Definition random_below (rnd : nat → Z) (k : nat) (m : Z) : Z := rnd k `mod` m.

(** The [i]-th element pushed on [defaultWards], as [insertMany] stores it. *)
Definition default_ward (rnd : nat → Z) (date : Date) (i : Z) : Ward :=
  let k := (3 * Z.to_nat (i - 1))%nat in
  mkWard i ("Ward " +:+ pretty i)
    (Some ("Area " +:+ pretty i +:+ " of Swatch Village"))
    (random_below rnd k 1000 + 500)
    (Some (pretty (random_below rnd (k + 1) 5 + 2) +:+ " sq km"))
    (mkRepresentative
       (Some ("Representative " +:+ pretty i))
       (Some ("+91" +:+ pretty (random_below rnd (k + 2) 9000000000 + 1000000000))))
    true date date.

(** [Ward.insertMany(docs)]: every document is validated first, then they
    are inserted in order. *)
Definition insertMany (docs : list Ward) : M unit :=
  if negb (forallb validate_ward docs) then throw
  else foldr (λ d k, do_ insert_ward d; k) (ret tt) docs.

(** [new User({ ... }).save()]; [hash] is the password hashing of the
    model's save hook. *)
Definition save_user (hash : string → string) (name email password : string)
    (ward : Z) (phone address role : string) : M unit :=
  do w <- get_world;
  do_ modify (with_next_id (N.succ (next_id w)));
  modify (λ w', with_store
                  (with_users (users (store w') ++
                     [mkUser (next_id w) name email (hash password) ward phone
                        address role]) (store w')) w').

(** [async function initializeDefaultData()]; its [catch] only logs. *)
Definition initializeDefaultData (rnd : nat → Z) (hash : string → string)
  : World → World :=
  λ w0, snd ((
    do w <- get_world;
    let wardCount := Z.of_nat (List.length (wards (store w))) in
    do_ (if wardCount =? 0
         then insertMany (default_ward rnd (now w) <$> seqZ 1 10)
         else ret tt);
    do w <- get_world;
    let adminExists := List.find (λ u, String.eqb (user_role u) "admin")
                         (users (store w)) in
    match adminExists with
    | None =>
        save_user hash "Admin User" "admin@swatchvillage.com" "admin123" 1
          "9999999999" "Administrative Office" "admin"
    | Some _ => ret tt
    end) w0).

Definition admins (s : Store) : list User :=
  filter (λ u, user_role u = "admin") (users s).

Definition empty_store : Store := mkStore [] [] [].

(** ** Vocabulary of the properties *)

(** The event describes the problem document: id, title, ward (and status
    for an update) are those of the document. *)
Definition describes (ev : Event) (p : Problem) : Prop :=
  match ev_payload ev with
  | NewProblem id ttl pw w =>
      ev_name ev = "new-problem" ∧ id = _id p ∧ ttl = title p
      ∧ pw = wardNumber p ∧ w = wardNumber p
  | ProblemUpdated id ttl st w =>
      ev_name ev = "problem-updated" ∧ id = _id p ∧ ttl = title p
      ∧ st = status p ∧ w = wardNumber p
  | ClientData _ _ => False
  end.

(** In a sequence of effects, every publication comes after a completed
    save of the problem it describes, goes to the room of that problem's
    ward, and finds that very document in the collection. *)
Definition save_before_emit (efs : list (Effect * list Problem)) : Prop :=
  ∀ i room ev snapshot,
    efs !! i = Some (EffEmit room ev, snapshot) →
    ∃ j p before,
      (j < i)%nat ∧ efs !! j = Some (EffSave p, before)
      ∧ describes ev p
      ∧ room = ward_room (wardNumber p)
      ∧ findById (_id p) snapshot = Some p.

(** The two documents agree on every field but [status], [adminNotes],
    [resolvedAt] and the store-managed [updatedAt]. *)
Definition same_but_update_fields (p q : Problem) : Prop :=
  _id p = _id q ∧ title p = title q ∧ description p = description q
  ∧ category p = category q ∧ priority p = priority q
  ∧ reportedBy p = reportedBy q ∧ wardNumber p = wardNumber q
  ∧ location p = location q ∧ images p = images q
  ∧ assignedTo p = assignedTo q
  ∧ estimatedResolutionDate p = estimatedResolutionDate q
  ∧ isPublic p = isPublic q ∧ createdAt p = createdAt q.

(** The two documents agree on every field but [status], [adminNotes] and
    [resolvedAt]. *)
Definition same_but_status_notes_resolvedAt (p q : Problem) : Prop :=
  same_but_update_fields p q ∧ updatedAt p = updatedAt q.

(** No stored problem was created after the current reading of the clock. *)
Definition clock_ahead (w : World) : Prop :=
  ∀ p, p ∈ problems (store w) → createdAt p ≤ now w.

(** One change of the world: time passing, a request that writes, a socket
    message, the end of the process (as on the exception of a listener)
    with a new start, which loses the rooms and keeps the store, or the
    start-up routine. *)
Inductive step : World → World → Prop :=
| step_tick w d : step w (tick d w)
| step_post_problem w user b : step w (post_problem user b w).2
| step_put_problem_status w id sb : step w (put_problem_status id sb w).2
| step_post_ward w b : step w (post_ward b w).2
| step_put_ward w param patch : step w (put_ward param patch w).2
| step_socket w sid m : step w (with_bus (on_socket sid m (bus w)) w)
| step_restart w : step w (with_bus (mkBus ∅ (delivered (bus w))) w)
| step_initialize w rnd hash : step w (initializeDefaultData rnd hash w).

(** The worlds the server can be in, started on a store without problems. *)
Inductive reachable : World → Prop :=
| reachable_start w : problems (store w) = [] → reachable w
| reachable_step w w' : reachable w → step w w' → reachable w'.

(** The effect is a completed save. *)
Definition is_save (e : Effect * list Problem) : Prop :=
  match e.1 with EffSave _ => True | EffEmit _ _ => False end.

(** The event [POST /api/problems] publishes for a stored problem. *)
Definition new_problem_event (p : Problem) : Event :=
  mkEvent "new-problem"
    (NewProblem (_id p) (title p) (wardNumber p) (wardNumber p)).

(** The event [PUT /api/problems/:id/status] publishes. *)
Definition problem_updated_event (p : Problem) : Event :=
  mkEvent "problem-updated"
    (ProblemUpdated (_id p) (title p) (status p) (wardNumber p)).

(** The same request body with other values in the fields the handler of
    [POST /api/problems] does not read. *)
Definition with_extras (ward : option Js.value) (by_ : option ObjectId)
    (st : option string) (b : ProblemBody) : ProblemBody :=
  mkProblemBody (pb_title b) (pb_description b) (pb_category b)
    (pb_location b) (pb_priority b) (pb_images b) ward by_ st.

(** ** A small world to run the handlers on *)

Definition admin1 : User :=
  mkUser 100 "Admin User" "admin@swatchvillage.com" "secret" 1 "9999999999"
    "Administrative Office" "admin".
Definition resident3 : User :=
  mkUser 101 "Asha" "asha@example.org" "secret" 3 "9000000001" "Lane 1"
    "resident".

Definition problem_a : Problem :=
  mkProblem 1 "Broken street light" "The light at the corner is out"
    "Electricity" "Medium" "Open" 101 3 "Main road" [] None None None None
    true 1000 1000.
Definition problem_b : Problem :=
  mkProblem 2 "Overflowing drain" "The drain floods the lane when it rains"
    "Waste Management" "High" "Resolved" 100 4 "Mill lane" [] None
    (Some "cleared") (Some 3000) None true 2000 3000.

Definition ward_3 : Ward :=
  mkWard 3 "Ward 3" (Some "Area 3 of Swatch Village") 800 (Some "3 sq km")
    (mkRepresentative (Some "Representative 3") (Some "+911000000003"))
    true 10 10.
Definition ward_4 : Ward :=
  mkWard 4 "Ward 4" (Some "Area 4 of Swatch Village") 900 (Some "4 sq km")
    (mkRepresentative (Some "Representative 4") (Some "+911000000004"))
    true 10 10.
Definition ward_5 : Ward :=
  mkWard 5 "Ward 5" (Some "Area 5 of Swatch Village") 700 (Some "5 sq km")
    (mkRepresentative (Some "Representative 5") (Some "+911000000005"))
    false 10 20.

Definition sample_store : Store :=
  mkStore [problem_a; problem_b] [ward_3; ward_4; ward_5] [admin1; resident3].
Definition sample_world : World :=
  mkWorld sample_store (mkBus ∅ []) 5000 10 [].

Definition no_query : ListQuery := mkListQuery None None None None None.

Definition rename_patch : WardPatch :=
  mkWardPatch None (Some "Old mill") None None None None None.
Definition ward_body_3 : WardBody :=
  mkWardBody (Some 3) "Another ward 3" None (Some 10) None None.
Definition ward_body_3_short : WardBody :=
  mkWardBody (Some 3) "A" None None None None.

Definition sample_body : ProblemBody :=
  mkProblemBody "  Pot hole on Mill lane" "A deep pot hole near the school gate"
    "Roads & Transportation" "Mill lane, by the school" None None
    (Some (Js.VNum 7)) (Some 100%N) (Some "Closed").

(** Session 1 joined ward 3 (sending the number as a string), session 2
    joined ward 4, session 5 joined both and then disconnected. *)
Definition sample_bus : Bus :=
  run_socket
    [ (1%nat, JoinWard (Js.VStr "3")); (2%nat, JoinWard (Js.VNum 4));
      (5%nat, JoinWard (Js.VNum 3)); (5%nat, JoinWard (Js.VNum 4));
      (5%nat, Disconnect) ]
    (mkBus ∅ []).

(** ** Further vocabulary *)

(** The event the server forwards for a client's [problem-status-update]. *)
Definition client_event (wardNumber : Js.value) (rest : string) : Event :=
  mkEvent "problem-updated" (ClientData wardNumber rest).

(** A query string with the given page and limit. *)
Definition at_page (q : ListQuery) (page limit : Z) : ListQuery :=
  mkListQuery (lq_status q) (lq_category q) (lq_wardNumber q) (Some page)
    (Some limit).

(** What no route changes in a stored problem: every field but [status],
    [adminNotes], [resolvedAt], [assignedTo] and [updatedAt]. *)
Definition kept_by_update (p p' : Problem) : Prop :=
  _id p' = _id p ∧ title p' = title p ∧ description p' = description p
  ∧ category p' = category p ∧ priority p' = priority p
  ∧ reportedBy p' = reportedBy p ∧ wardNumber p' = wardNumber p
  ∧ location p' = location p ∧ images p' = images p
  ∧ estimatedResolutionDate p' = estimatedResolutionDate p
  ∧ isPublic p' = isPublic p ∧ createdAt p' = createdAt p.

(** What the schema still asks of a request that passed the validation
    chain of [POST /api/problems]: a ward within 1..50 for the actor, and a
    title and a description within their [maxlength], which counts UTF-16
    code units where the chain counted characters. *)
Definition within_problem_schema (user : User) (b : ProblemBody) : bool :=
  (1 <=? user_wardNumber user) && (user_wardNumber user <=? 50)
  && (Js.length (Js.trim (pb_title b)) <=? 200)
  && (Js.length (Js.trim (pb_description b)) <=? 1000).

(** The patch moves ward [n] onto a number that a ward document has. *)
Definition renumbers_onto_taken (n : Z) (patch : WardPatch) (ws : list Ward)
  : bool :=
  match wp_wardNumber patch with
  | Some m => negb (m =? n) && bool_decide (is_Some (find_ward m ws))
  | None => false
  end.

(** The description of a ward is within the [maxlength] of the schema, once
    trimmed. *)
Definition description_fits (d : option string) : bool :=
  match d with
  | Some d => Js.length (Js.trim d) <=? 500
  | None => true
  end.

(** The world a completed [save] of the loaded document [p] leaves. *)
Definition saved (p : Problem) (w : World) : World :=
  mkWorld (with_problems (replace_problem p (problems (store w))) (store w))
    (bus w) (now w) (next_id w) (trace w ++ [(EffSave p, problems (store w))]).

(** The world a publication leaves. *)
Definition published (room : string) (ev : Event) (w : World) : World :=
  with_bus (io_to_emit room ev (bus w)) (log (EffEmit room ev) w).

(** The document the [save] of [updateStatus] writes over the stored
    [problem]: the assignments, with [updatedAt] renewed when they changed a
    field. *)
Definition status_saved (sb : StatusBody) (date : Date) (problem : Problem)
  : Problem :=
  let p0 := updateStatus_assign (sb_status sb) (sb_adminNotes sb) date problem in
  if bool_decide (p0 = problem) then p0 else set_updatedAt date p0.

(** The document the second [save] writes, when the body names an
    assignee. *)
Definition assignee_saved (a : ObjectId) (date : Date) (p1 : Problem) : Problem :=
  if bool_decide (set_assignedTo (Some a) p1 = p1) then set_assignedTo (Some a) p1
  else set_updatedAt date (set_assignedTo (Some a) p1).

(** A title of 150 characters beyond U+FFFF: 150 for the validation chain,
    300 code units for the schema. *)
Definition faces_body : ProblemBody :=
  mkProblemBody
    (String.concat ""
       (replicate 150 (String (ascii_of_N 240) (String (ascii_of_N 159)
                         (String (ascii_of_N 152) (String (ascii_of_N 128) ""))))))
    "A deep pot hole near the school gate" "Roads & Transportation"
    "Mill lane, by the school" None None None None None.

(** The notes of a status update are within the [maxlength] of the schema,
    once trimmed; notes that are absent or empty are not assigned. *)
Definition notes_fit (notes : option string) : bool :=
  if Js.truthy notes then Js.length (Js.trim (default "" notes)) <=? 500
  else true.

(** The stored problems have distinct ids, all below the id counter. *)
Definition ids_ok (w : World) : Prop :=
  NoDup (_id <$> problems (store w))
  ∧ ∀ p, p ∈ problems (store w) → (_id p < next_id w)%N.

(** Every stored problem passes the schema. *)
Definition stored_valid (w : World) : Prop :=
  ∀ p, p ∈ problems (store w) → validate_problem p = true.

(** The document [POST /api/problems] stores for a body that passes
    validation: trimmed texts, the priority or its default, status [Open],
    nothing assigned or resolved, both timestamps at the time of the save. *)
Definition reported_problem (user : User) (b : ProblemBody) (w : World) : Problem :=
  mkProblem (next_id w) (Js.trim (pb_title b)) (Js.trim (pb_description b))
    (pb_category b) (default "Medium" (pb_priority b)) "Open" (user_id user)
    (user_wardNumber user) (Js.trim (pb_location b)) (default [] (pb_images b))
    None None None None true (now w) (now w).

(** A world the server reaches: on an empty store a resident of ward 3
    reports a problem, and time passes. *)
Definition fresh_world : World := mkWorld empty_store (mkBus ∅ []) 0 0 [].
Definition world_with_report : World :=
  tick 7 (post_problem resident3 sample_body fresh_world).2.
Definition reported_sample : Problem :=
  reported_problem resident3 sample_body fresh_world.

(** Notes of 501 characters. *)
Definition long_notes : string := String.concat "" (replicate 501 "x").

Definition out_of_range_user : User :=
  mkUser 102 "Bela" "bela@example.org" "secret" 51 "9000000002" "Lane 2"
    "resident".

(** No two ward documents have the same number. *)
Definition wards_unique (w : World) : Prop :=
  NoDup (ward_wardNumber <$> wards (store w)).

Definition reopen_body : StatusBody := mkStatusBody "Open" None None.
Definition resolve_body : StatusBody := mkStatusBody "Resolved" (Some "done") None.
Definition ward_body_7 : WardBody :=
  mkWardBody (Some 7) " Hill side " None None (Some "7 sq km") None.

(** The entries of a ward listing. *)
Definition listed_stats (r : Response) : list WardWithStats :=
  match body r with
  | WardList ws => ws
  | _ => []
  end.

Definition renumber_patch : WardPatch :=
  mkWardPatch (Some 4) None None None None None None.
Definition own_number_patch : WardPatch :=
  mkWardPatch (Some 5) None (Some "Kept for the record") None None None None.

(** ** [GET /api/problems/stats/summary] *)

(** One group of the third aggregate: a ward with its number of problems and
    those [Open], [In Progress] and [Resolved] among them. *)
Record WardStat : Type := mkWardStat {
  wst_id : Z;
  wst_count : Z;
  wst_open : Z;
  wst_inProgress : Z;
  wst_resolved : Z
}.

Record StatsSummary : Type := mkStatsSummary {
  statusStats : list (string * Z);
  categoryStats : list (string * Z);
  wardStats : list WardStat
}.

(** [$group] by category with [$sum: 1]. *)
Definition group_by_category (ps : list Problem) : list (string * Z) :=
  (λ c, (c, Z.of_nat (List.length (filter (λ p, category p = c) ps))))
    <$> remove_dups (category <$> ps).

(** [$sum: { $cond: [{ $eq: ['$status', s] }, 1, 0] }] *)
Definition count_status (s : string) (ps : list Problem) : Z :=
  Z.of_nat (List.length (filter (λ p, status p = s) ps)).

(** [$group] by ward number with the four sums. *)
Definition group_by_ward (ps : list Problem) : list WardStat :=
  (λ n, let g := filter (λ p, wardNumber p = n) ps in
        mkWardStat n (Z.of_nat (List.length g)) (count_status "Open" g)
          (count_status "In Progress" g) (count_status "Resolved" g))
    <$> remove_dups (wardNumber <$> ps).

(** [$sort: { count: -1 }] *)
Definition more_first (a b : string * Z) : Prop := b.2 ≤ a.2.
Global Instance more_first_dec : RelDecision more_first.
Proof. intros a b. unfold more_first. apply _. Defined.

(** [$sort: { _id: 1 }] *)
Definition by_id (a b : WardStat) : Prop := wst_id a ≤ wst_id b.
Global Instance by_id_dec : RelDecision by_id.
Proof. intros a b. unfold by_id. apply _. Defined.

(** What the statistics route answers: the three aggregates, or an error. *)
Inductive StatsReply : Type :=
| StatsOk (s : StatsSummary)
| StatsFailed (r : Response).

(** The problems the three aggregates of the statistics route [$match]. *)
Definition stats_scope (user : User) (w : World) : list Problem :=
  filter (λ p, matches (mkQuery (if negb (is_admin user)
                                 then Some (user_wardNumber user) else None)
                          None None) p = true)
    (problems (store w)).

(** [router.get('/stats/summary', auth, async (req, res) => ...)] *)
Definition get_stats_summary (user : User) : World → StatsReply * World :=
  λ w0,
    match (do w <- get_world;
           let matchQuery :=
             mkQuery (if negb (is_admin user)
                      then Some (user_wardNumber user) else None) None None in
           let matched := filter (λ p, matches matchQuery p = true)
                            (problems (store w)) in
           let stats := group_by_status matched in
           let categoryStats' := merge_sort more_first (group_by_category matched) in
           let wardStats' := merge_sort by_id (group_by_ward matched) in
           ret (mkStatsSummary stats categoryStats' wardStats')) w0 with
    | (Val s, w') => (StatsOk s, w')
    | (Replied r, w') => (StatsFailed r, w')
    | (Thrown, w') =>
        (StatsFailed (mkResponse 500
                        (Message "Server error while fetching statistics")), w')
    end.

(** Sum of a list of counts. *)
Definition sumZ (l : list Z) : Z := foldr Z.add 0 l.

(** The first guard of the start-up routine, as a function of the world. *)
Definition seed_wards (rnd : nat → Z) (w : World) : World :=
  match wards (store w) with
  | [] => with_store (with_wards (default_ward rnd (now w) <$> seqZ 1 10) (store w)) w
  | _ => w
  end.

(** The second guard. *)
Definition seed_admin (hash : string → string) (w : World) : World :=
  match List.find (λ u, String.eqb (user_role u) "admin") (users (store w)) with
  | Some _ => w
  | None =>
      mkWorld
        (with_users (users (store w) ++
           [mkUser (next_id w) "Admin User" "admin@swatchvillage.com"
              (hash "admin123") 1 "9999999999" "Administrative Office" "admin"])
           (store w))
        (bus w) (now w) (N.succ (next_id w)) (trace w)
  end.

Definition resident4 : User :=
  mkUser 103 "Chitra" "chitra@example.org" "secret" 4 "9000000003" "Lane 3"
    "resident".

(** * Properties *)

(** ** The helpers on concrete inputs *)

Example parseInt_plain : Js.parseInt "12" = Some 12.
Proof. reflexivity. Qed.
Example parseInt_suffix : Js.parseInt "  -7px" = Some (-7).
Proof. reflexivity. Qed.
Example parseInt_hex : Js.parseInt "0x1f" = Some 31.
Proof. reflexivity. Qed.
Example parseInt_nan : Js.parseInt "ward" = None.
Proof. reflexivity. Qed.
Example trim_both : Js.trim "  pot hole " = "pot hole".
Proof. reflexivity. Qed.
Example ceil_div_15_10 : Js.ceil_div 15 10 = Some 2.
Proof. reflexivity. Qed.
Example ward_room_3 : ward_room 3 = "ward-3".
Proof. reflexivity. Qed.

(** ** The notification bus *)

Section bus.
Implicit Types (b : Bus) (sid : SessionId) (ev : Event) (room : string).

Lemma ward_room_inj (m n : Z) : ward_room m = ward_room n → m = n.
Proof.
  unfold ward_room, ward_room_of. simpl. intros H.
  injection H as H. by apply (inj pretty).
Qed.

(** The deliveries of one publication to one session, over a duplicate-free
    list of receivers. *)
Lemma deliveries_to_session ev sid (l : list SessionId) :
  NoDup l →
  (filter (λ d : SessionId * Event, d.1 = sid) ((λ s, (s, ev)) <$> l)).*2
  = if bool_decide (sid ∈ l) then [ev] else [].
Proof.
  induction 1 as [|x l Hx Hl IH]; [done|].
  rewrite fmap_cons, filter_cons. simpl.
  destruct (decide (x = sid)) as [->|Hne].
  - rewrite fmap_cons, IH. simpl.
    rewrite (bool_decide_eq_false_2 _ Hx).
    by rewrite bool_decide_eq_true_2 by (apply list_elem_of_here).
  - rewrite IH. apply (f_equal (λ c : bool, if c then [ev] else [])).
    apply bool_decide_ext. rewrite elem_of_cons.
    split; [by right|]. intros [E|E]; [by subst|done].
Qed.

Lemma inbox_io_to_emit b room ev sid :
  inbox (io_to_emit room ev b) sid
  = inbox b sid ++ (if bool_decide (sid ∈ members b room) then [ev] else []).
Proof.
  unfold inbox, io_to_emit, emit_deliveries. simpl.
  rewrite filter_app, fmap_app. f_equal.
  rewrite deliveries_to_session by apply NoDup_elements.
  apply (f_equal (λ c : bool, if c then [ev] else [])).
  apply bool_decide_ext. apply elem_of_elements.
Qed.

Lemma on_socket_membership_delivered sid m b :
  is_membership_msg m = true → delivered (on_socket sid m b) = delivered b.
Proof. by destruct m. Qed.

Lemma run_socket_membership_delivered (ms : list (SessionId * SocketMsg)) b :
  delivered (run_socket (filter (λ m, is_membership_msg m.2 = true) ms) b)
  = delivered b.
Proof.
  revert b. induction ms as [|[s m] ms IH]; intros b; [done|].
  rewrite filter_cons. case_decide as Hm; [|apply IH].
  unfold run_socket in *. simpl. rewrite IH.
  by apply on_socket_membership_delivered.
Qed.

Lemma members_join sid room room' b :
  members (socket_join sid room b) room'
  = if bool_decide (room = room') then {[sid]} ∪ members b room' else members b room'.
Proof.
  unfold members, socket_join. simpl. case_bool_decide as H.
  - subst. by rewrite lookup_insert_eq.
  - by rewrite lookup_insert_ne.
Qed.

End bus.

(** ** Unfolding the monad *)

Ltac run_handler :=
  unfold try_catch, bind, ret, reply, throw, get_world, modify; simpl.

(** ** [POST /api/problems] *)

Lemma check_nil ok msg : check ok msg = [] ↔ ok = true.
Proof. destruct ok; simpl; split; congruence. Qed.

Lemma is_nil_true {A} (l : list A) : is_nil l = true ↔ l = [].
Proof. destruct l; simpl; split; congruence. Qed.

(** Whatever the request, [POST /api/problems] either changes nothing, or
    stores one document made from the actor, publishes its event to the
    room of its ward, and answers 201. *)
Lemma post_problem_cases user b w :
  ∀ r w', post_problem user b w = (r, w') →
  (code r ≠ 201 ∧ store w' = store w ∧ bus w' = bus w ∧ trace w' = trace w
   ∧ now w' = now w)
  ∨ (∃ p,
       r = mkResponse 201 (MessageProblem "Problem reported successfully"
                             (populate true false (users (store w)) p))
       ∧ now w' = now w
       ∧ validate_post_problem b = []
       ∧ wardNumber p = user_wardNumber user
       ∧ reportedBy p = user_id user
       ∧ _id p = next_id w
       ∧ createdAt p = now w
       ∧ status p = "Open"
       ∧ findById (_id p) (problems (store w)) = None
       ∧ store w' = with_problems (problems (store w) ++ [p]) (store w)
       ∧ bus w' = io_to_emit (ward_room (wardNumber p)) (new_problem_event p) (bus w)
       ∧ trace w' = trace w ++
           [ (EffSave p, problems (store w));
             (EffEmit (ward_room (wardNumber p)) (new_problem_event p),
              problems (store w) ++ [p]) ]).
Proof.
  intros r w'. unfold post_problem.
  destruct (is_nil (validate_post_problem b)) eqn:Hv; run_handler.
  2:{ intros [= <- <-]. left. by repeat split. }
  unfold new_Problem, save. run_handler.
  match goal with |- context [validate_problem ?d] =>
    destruct (validate_problem d) eqn:Hs end; simpl.
  2:{ intros [= <- <-]. left. by repeat split. }
  destruct (findById (next_id w) (problems (store w))) eqn:Hf; simpl.
  { intros [= <- <-]. left. by repeat split. }
  intros [= <- <-]. right. eexists. split; [reflexivity|].
  apply is_nil_true in Hv. simpl.
  repeat split; try done.
  unfold log; simpl. by rewrite <- app_assoc.
Qed.

(** C1. Publishing [new-problem] on the topic of ward [n] writes exactly one
    copy to every session that is in room [ward-n] at that moment and
    nothing to any other session; a session that joined other wards only is
    not in the room; the publication leaves no trace in the bus beyond the
    copies written, so no later join or disconnect brings the event to a
    session that missed it.  [POST /api/problems] makes this publication
    exactly when it answers 201: the event of the problem it stored goes to
    the room of the actor's ward, so that a session receives one copy of it
    if it is in that room and nothing otherwise; a request answered
    otherwise leaves the bus as it was. *)
Theorem new_problem_fanout (b : Bus) (n : Z) (pl : Payload) (sid : SessionId) :
  let ev := mkEvent "new-problem" pl in
  let b' := io_to_emit (ward_room n) ev b in
  inbox b' sid
  = inbox b sid ++ (if bool_decide (sid ∈ members b (ward_room n)) then [ev] else [])
  ∧ (∀ m : Z,
       members (on_socket sid (JoinWard (Js.VNum m)) b) (ward_room n)
       = if bool_decide (m = n) then {[sid]} ∪ members b (ward_room n)
         else members b (ward_room n))
  ∧ rooms b' = rooms b
  ∧ (∀ ms : list (SessionId * SocketMsg),
       inbox (run_socket (filter (λ m, is_membership_msg m.2 = true) ms) b') sid
       = inbox b' sid)
  ∧ (∀ user body w,
       (code (post_problem user body w).1 ≠ 201 →
        bus (post_problem user body w).2 = bus w)
       ∧ (code (post_problem user body w).1 = 201 →
          ∃ p,
            (post_problem user body w).1
            = mkResponse 201 (MessageProblem "Problem reported successfully"
                                (populate true false (users (store w)) p))
            ∧ problems (store (post_problem user body w).2)
              = problems (store w) ++ [p]
            ∧ wardNumber p = user_wardNumber user
            ∧ bus (post_problem user body w).2
              = io_to_emit (ward_room (user_wardNumber user))
                  (new_problem_event p) (bus w)
            ∧ inbox (bus (post_problem user body w).2) sid
              = inbox (bus w) sid
                ++ (if bool_decide (sid ∈ members (bus w)
                                            (ward_room (user_wardNumber user)))
                    then [new_problem_event p] else []))).
Proof.
  intros ev b'. split; [apply inbox_io_to_emit|].
  split.
  { intros m. simpl. rewrite members_join.
    apply (f_equal (λ c : bool, if c then _ else _)).
    apply bool_decide_ext. split; [apply ward_room_inj | by intros ->]. }
  split; [done|]. split.
  { intros ms. unfold inbox. by rewrite run_socket_membership_delivered. }
  intros user body w.
  destruct (post_problem user body w) as [r w'] eqn:E.
  apply post_problem_cases in E
    as [(Hn & _ & Hb & _)
       |(p & -> & _ & _ & Hw & _ & _ & _ & _ & _ & Hs & Hb & _)]; simpl.
  - split; [done|]. intros H201. done.
  - split; [done|]. intros _. exists p.
    split; [done|]. split; [by rewrite Hs|]. split; [done|].
    rewrite Hb, Hw. split; [done|]. apply inbox_io_to_emit.
Qed.

(** A report from a resident of ward 3, with session 1 in the room of that
    ward and session 2 in that of ward 4. *)
Lemma new_problem_fanout_witness :
  ∃ p,
    wardNumber p = 3
    ∧ inbox (bus (post_problem resident3 sample_body
                    (with_bus sample_bus sample_world)).2) 1%nat
      = [new_problem_event p]
    ∧ inbox (bus (post_problem resident3 sample_body
                    (with_bus sample_bus sample_world)).2) 2%nat = [].
Proof.
  destruct (proj2 (proj2 (proj2 (proj2
              (new_problem_fanout sample_bus 3 (NewProblem 10 "" 3 3) 1%nat))))
              resident3 sample_body (with_bus sample_bus sample_world))
    as [_ H1].
  destruct (proj2 (proj2 (proj2 (proj2
              (new_problem_fanout sample_bus 3 (NewProblem 10 "" 3 3) 2%nat))))
              resident3 sample_body (with_bus sample_bus sample_world))
    as [_ H2].
  destruct H1 as (p1 & _ & _ & Hw1 & _ & Hi1); [vm_compute; reflexivity|].
  destruct H2 as (p2 & _ & _ & _ & _ & Hi2); [vm_compute; reflexivity|].
  exists p1. split; [exact Hw1|]. split.
  - rewrite Hi1.
    rewrite bool_decide_eq_true_2
      by (apply (bool_decide_unpack _); vm_compute; exact I).
    reflexivity.
  - rewrite Hi2.
    rewrite bool_decide_eq_false_2
      by (apply (bool_decide_unpack _); vm_compute; exact I).
    reflexivity.
Defined.

(** A report from a resident of ward 3 reaches session 1 and nobody else;
    session 2, joining ward 3 afterwards, finds nothing. *)
Example post_problem_reaches_ward_3 :
  let w' := (post_problem resident3 sample_body
               (with_bus sample_bus sample_world)).2 in
  code (post_problem resident3 sample_body (with_bus sample_bus sample_world)).1 = 201
  ∧ delivered (bus w')
    = [(1%nat, mkEvent "new-problem" (NewProblem 10 "Pot hole on Mill lane" 3 3))]
  ∧ inbox (on_socket 2%nat (JoinWard (Js.VNum 3)) (bus w')) 2%nat = [].
Proof. vm_compute. repeat split; reflexivity. Qed.

(** ** The listing routes *)

Lemma doc_populate r a us (ps : list Problem) :
  doc <$> (populate r a us <$> ps) = ps.
Proof.
  rewrite <- list_fmap_compose. rewrite <- (list_fmap_id ps) at 2.
  by apply list_fmap_ext.
Qed.

Lemma cursor_subseteq {A} (s l : Z) (xs ys : list A) :
  cursor s l xs = Some ys → ys ⊆ xs.
Proof.
  unfold cursor. destruct (s <? 0); [done|]. intros [= <-].
  destruct (l =? 0).
  - apply subseteq_drop.
  - etrans; [apply subseteq_take | apply subseteq_drop].
Qed.

Lemma cursor_is_Some {A} (s l : Z) (xs : list A) :
  0 ≤ s → is_Some (cursor s l xs).
Proof.
  intros Hs. unfold cursor. destruct (Z.ltb_spec s 0); [lia|]. by eexists.
Qed.

Lemma elem_of_sort_newest p ps : p ∈ sort_newest ps ↔ p ∈ ps.
Proof. unfold sort_newest. by rewrite merge_sort_Permutation. Qed.

(** The records a query selects, as a page of the listing shows them. *)
Lemma page_selected q s l ps found p :
  cursor s l (sort_newest (filter (λ p, matches q p = true) ps)) = Some found →
  p ∈ found → matches q p = true ∧ p ∈ ps.
Proof.
  intros Hc Hp. apply cursor_subseteq in Hc. apply Hc in Hp.
  apply (proj1 (elem_of_sort_newest _ _)) in Hp.
  by apply (proj1 (list_elem_of_filter _ _ _)) in Hp.
Qed.

Lemma matches_ward n st c p :
  matches (mkQuery (Some n) st c) p = true → wardNumber p = n.
Proof.
  unfold matches. simpl. intros H.
  apply andb_prop in H as [H _]. apply andb_prop in H as [H _]. lia.
Qed.

(** [list_page] reads and never writes; it fails only on a rejected cursor. *)
Lemma list_page_spec query page limit w :
  match cursor ((page - 1) * limit) (limit * 1)
          (sort_newest (filter (λ p, matches query p = true) (problems (store w)))) with
  | Some found =>
      list_page query page limit w
      = (Val (mkResponse 200
                (ProblemPage (populate true true (users (store w)) <$> found)
                   (Js.ceil_div (countDocuments query (problems (store w))) limit)
                   page (countDocuments query (problems (store w))))), w)
  | None => list_page query page limit w = (Thrown, w)
  end.
Proof.
  unfold list_page, find_page. run_handler.
  by destruct (cursor _ _ _).
Qed.

(** A ward-scoped listing answers 200 with a page of that ward's records, or
    500 when the store rejects the cursor; it never answers 403. *)
Lemma ward_scoped_listing n st c page limit msg w :
  let r := (try_catch (list_page (mkQuery (Some n) st c) page limit) msg w).1 in
  (try_catch (list_page (mkQuery (Some n) st c) page limit) msg w).2 = w
  ∧ code r ≠ 403
  ∧ (∀ p, p ∈ disclosed r → wardNumber p = n ∧ p ∈ problems (store w))
  ∧ (0 ≤ (page - 1) * limit →
     ∃ found,
       cursor ((page - 1) * limit) (limit * 1)
         (sort_newest (filter (λ p, matches (mkQuery (Some n) st c) p = true)
                         (problems (store w)))) = Some found
       ∧ r = mkResponse 200
               (ProblemPage (populate true true (users (store w)) <$> found)
                  (Js.ceil_div (countDocuments (mkQuery (Some n) st c) (problems (store w))) limit)
                  page (countDocuments (mkQuery (Some n) st c) (problems (store w))))).
Proof.
  pose proof (list_page_spec (mkQuery (Some n) st c) page limit w) as H.
  unfold try_catch.
  destruct (cursor _ _ _) as [found|] eqn:Hc; rewrite H; simpl.
  - split; [done|]. split; [done|]. split.
    + unfold disclosed. simpl. rewrite doc_populate. intros p Hp.
      destruct (page_selected _ _ _ _ _ _ Hc Hp) as [Hm Hin].
      split; [by eapply matches_ward | done].
    + intros _. by exists found.
  - split; [done|]. split; [done|]. split.
    + unfold disclosed. simpl. intros p Hp. by apply elem_of_nil in Hp.
    + intros Hs. destruct (cursor_is_Some ((page - 1) * limit) (limit * 1)
        (sort_newest (filter (λ p, matches (mkQuery (Some n) st c) p = true)
                        (problems (store w)))) Hs) as [x Hx].
      congruence.
Qed.

Lemma get_problems_resident user q w :
  is_admin user = false →
  get_problems user q w
  = try_catch (list_page (mkQuery (Some (user_wardNumber user))
                            (if_truthy (lq_status q)) (if_truthy (lq_category q)))
                 (default 1 (lq_page q)) (default 10 (lq_limit q)))
      "Server error while fetching problems" w.
Proof.
  intros Ha. unfold get_problems, try_catch, bind. rewrite Ha. simpl.
  done.
Qed.

(** C2. For an actor that is not an admin, [GET /api/problems] never answers
    403 and discloses only stored records of the actor's own ward, whatever
    the [wardNumber] of the query; with a cursor the store accepts (as with
    the default page and limit) it answers 200.  [GET /api/problems/:id] of
    a stored problem of another ward answers 403 and discloses nothing. *)
Theorem listing_filters_single_fetch_denies (user : User) (q : ListQuery)
    (id : ObjectId) (w : World) :
  is_admin user = false →
  (let r := (get_problems user q w).1 in
   code r ≠ 403
   ∧ (∀ p, p ∈ disclosed r →
           wardNumber p = user_wardNumber user ∧ p ∈ problems (store w))
   ∧ (0 ≤ (default 1 (lq_page q) - 1) * default 10 (lq_limit q) → code r = 200))
  ∧ (∀ problem,
       findById id (problems (store w)) = Some problem →
       wardNumber problem ≠ user_wardNumber user →
       get_problem user id w = (mkResponse 403 (Message "Access denied"), w)
       ∧ disclosed (get_problem user id w).1 = []).
Proof.
  intros Ha. split.
  - rewrite get_problems_resident by done.
    destruct (ward_scoped_listing (user_wardNumber user) (if_truthy (lq_status q))
                (if_truthy (lq_category q)) (default 1 (lq_page q))
                (default 10 (lq_limit q)) "Server error while fetching problems" w)
      as (_ & H403 & Hd & Hok).
    split; [done|]. split; [done|].
    intros Hs. destruct (Hok Hs) as (found & _ & ->). done.
  - intros problem Hf Hw.
    assert (get_problem user id w = (mkResponse 403 (Message "Access denied"), w)) as E.
    { unfold get_problem. run_handler. rewrite Hf, Ha. simpl.
      destruct (Z.eqb_spec (wardNumber problem) (user_wardNumber user)); done. }
    by rewrite E.
Qed.

Lemma listing_filters_single_fetch_denies_witness :
  is_admin resident3 = false
  ∧ (get_problems resident3 (mkListQuery None None (Some "4") None None) sample_world).1
    = mkResponse 200
        (ProblemPage [populate true true (users sample_store) problem_a]
           (Some 1) 1 1)
  ∧ get_problem resident3 2 sample_world
    = (mkResponse 403 (Message "Access denied"), sample_world).
Proof.
  split; [reflexivity|]. split; [vm_compute; reflexivity|].
  refine (proj1 (proj2 (listing_filters_single_fetch_denies resident3 no_query 2
                          sample_world eq_refl) problem_b _ _)).
  - reflexivity.
  - simpl. lia.
Defined.

(** ** [GET /api/wards/:wardNumber/problems] *)

Lemma get_ward_problems_own user param q w :
  Js.parseInt param = Some (user_wardNumber user) →
  get_ward_problems user param q w
  = try_catch (list_page (mkQuery (Some (user_wardNumber user))
                            (if_truthy (lq_status q)) (if_truthy (lq_category q)))
                 (default 1 (lq_page q)) (default 10 (lq_limit q)))
      "Server error while fetching ward problems" w.
Proof.
  intros Hp. unfold get_ward_problems. rewrite Hp.
  rewrite bool_decide_eq_true_2 by done.
  rewrite andb_false_r. unfold try_catch, bind, cast_number. done.
Qed.

(** C6. For an actor that is not an admin, [GET /api/wards/:n/problems]
    answers 403 "Access denied", discloses no record and changes nothing when
    [n] (what [parseInt] makes of the path parameter) is not the actor's own
    ward; when it is, the answer is never 403, it discloses records of that
    ward only, and with a cursor the store accepts it is 200 with the page of
    the ward's matching problems, newest first, and their count. *)
Theorem ward_problems_access (user : User) (param : string) (q : ListQuery)
    (w : World) :
  is_admin user = false →
  (Js.parseInt param ≠ Some (user_wardNumber user) →
   get_ward_problems user param q w
   = (mkResponse 403 (Message "Access denied"), w)
   ∧ disclosed (get_ward_problems user param q w).1 = [])
  ∧ (Js.parseInt param = Some (user_wardNumber user) →
     let r := (get_ward_problems user param q w).1 in
     let query := mkQuery (Some (user_wardNumber user))
                    (if_truthy (lq_status q)) (if_truthy (lq_category q)) in
     code r ≠ 403
     ∧ (∀ p, p ∈ disclosed r →
             wardNumber p = user_wardNumber user ∧ p ∈ problems (store w))
     ∧ (0 ≤ (default 1 (lq_page q) - 1) * default 10 (lq_limit q) →
        ∃ found,
          cursor ((default 1 (lq_page q) - 1) * default 10 (lq_limit q))
            (default 10 (lq_limit q) * 1)
            (sort_newest (filter (λ p, matches query p = true)
                            (problems (store w)))) = Some found
          ∧ r = mkResponse 200
                  (ProblemPage (populate true true (users (store w)) <$> found)
                     (Js.ceil_div (countDocuments query (problems (store w)))
                        (default 10 (lq_limit q)))
                     (default 1 (lq_page q))
                     (countDocuments query (problems (store w)))))).
Proof.
  intros Ha. split.
  - intros Hne.
    assert (get_ward_problems user param q w
            = (mkResponse 403 (Message "Access denied"), w)) as E.
    { unfold get_ward_problems. rewrite Ha.
      rewrite bool_decide_eq_false_2 by done. done. }
    by rewrite E.
  - intros Hp r query. subst r. rewrite get_ward_problems_own by done.
    destruct (ward_scoped_listing (user_wardNumber user) (if_truthy (lq_status q))
                (if_truthy (lq_category q)) (default 1 (lq_page q))
                (default 10 (lq_limit q))
                "Server error while fetching ward problems" w)
      as (_ & H403 & Hd & Hok).
    done.
Qed.

Lemma ward_problems_access_witness :
  get_ward_problems resident3 "4" no_query sample_world
  = (mkResponse 403 (Message "Access denied"), sample_world)
  ∧ (get_ward_problems resident3 "3" no_query sample_world).1
    = mkResponse 200
        (ProblemPage [populate true true (users sample_store) problem_a]
           (Some 1) 1 1).
Proof.
  split.
  - refine (proj1 (proj1 (ward_problems_access resident3 "4" no_query
                            sample_world eq_refl) _)).
    vm_compute. discriminate.
  - destruct (proj2 (ward_problems_access resident3 "3" no_query sample_world
                       eq_refl) eq_refl) as (_ & _ & H).
    destruct H as (found & Hc & ->); [vm_compute; discriminate|].
    vm_compute in Hc. injection Hc as <-. vm_compute. reflexivity.
Defined.

(** ** [trim] and the lengths *)

Lemma string_length_ind (P : string → Prop) :
  (∀ s, (∀ t, (String.length t < String.length s)%nat → P t) → P s) →
  ∀ s, P s.
Proof.
  intros H s.
  induction s as [s IH]
    using (well_founded_induction (well_founded_ltof _ String.length)).
  apply H. intros t Ht. by apply IH.
Qed.

Lemma ltrim_eq a s1 :
  Js.ltrim (String a s1)
  = if Js.is_ws a then Js.ltrim s1 else
    match s1 with
    | String b s2 =>
        if Js.is_ws2 a b then Js.ltrim s2 else
        match s2 with
        | String c s3 => if Js.is_ws3 a b c then Js.ltrim s3 else String a s1
        | EmptyString => String a s1
        end
    | EmptyString => String a s1
    end.
Proof. reflexivity. Qed.

(** The cases of [ltrim] on a string that is not empty: a white space
    character of one, two or three bytes in front, or none. *)
Lemma ltrim_cases s :
  s = "" ∨ Js.ltrim s = s ∧ s ≠ ""
  ∨ ∃ pre r, s = pre +:+ r ∧ (String.length r < String.length s)%nat
             ∧ Js.ltrim pre = "" ∧ Js.ltrim s = Js.ltrim r.
Proof.
  destruct s as [|a s1]; [by left|]. right. rewrite ltrim_eq.
  destruct (Js.is_ws a) eqn:Ea.
  { right. exists (String a ""), s1. simpl. rewrite Ea. repeat split; lia || done. }
  destruct s1 as [|b s2]; [by left|].
  destruct (Js.is_ws2 a b) eqn:Eb.
  { right. exists (String a (String b "")), s2. rewrite ltrim_eq, Ea, Eb. simpl.
    repeat split; lia || done. }
  destruct s2 as [|c s3]; [by left|].
  destruct (Js.is_ws3 a b c) eqn:Ec; [|by left].
  right. exists (String a (String b (String c ""))), s3.
  rewrite ltrim_eq, Ea, Eb, Ec. simpl. repeat split; lia || done.
Qed.

Lemma append_cons a x y : String a x +:+ y = String a (x +:+ y).
Proof. reflexivity. Qed.

Lemma ltrim_length s : (String.length (Js.ltrim s) ≤ String.length s)%nat.
Proof.
  induction s as [s IH] using string_length_ind.
  destruct (ltrim_cases s) as [->|[[-> _]|(pre & r & _ & Hlt & _ & ->)]];
    [done|done|].
  etrans; [by apply IH|lia].
Qed.

Lemma ltrim_idem s : Js.ltrim (Js.ltrim s) = Js.ltrim s.
Proof.
  induction s as [s IH] using string_length_ind.
  destruct (ltrim_cases s) as [->|[[E _]|(pre & r & _ & Hlt & _ & ->)]];
    [done|by rewrite !E|by apply IH].
Qed.

(** White space in front of a string does not count. *)
Lemma ltrim_blank_app x y :
  Js.ltrim x = "" → Js.ltrim (x +:+ y) = Js.ltrim y.
Proof.
  induction x as [x IH] using string_length_ind.
  destruct x as [|a x1]; [done|]. rewrite ltrim_eq.
  change (String a x1 +:+ y) with (String a (x1 +:+ y)). rewrite ltrim_eq.
  destruct (Js.is_ws a) eqn:Ea; [apply IH; simpl; lia|].
  destruct x1 as [|b x2]; [done|].
  change (String b x2 +:+ y) with (String b (x2 +:+ y)). cbv beta iota.
  destruct (Js.is_ws2 a b) eqn:Eb; [apply IH; simpl; lia|].
  destruct x2 as [|c x3]; [done|].
  change (String c x3 +:+ y) with (String c (x3 +:+ y)). cbv beta iota.
  destruct (Js.is_ws3 a b c) eqn:Ec; [apply IH; simpl; lia|done].
Qed.

Lemma blank_app x y :
  Js.blank x = true → Js.blank y = true → Js.blank (x +:+ y) = true.
Proof.
  unfold Js.blank. intros Hx Hy. apply String.eqb_eq in Hx.
  by rewrite ltrim_blank_app.
Qed.

(** [rtrim] cuts a blank end off. *)
Lemma rtrim_split s : ∃ z, s = Js.rtrim s +:+ z ∧ Js.blank z = true.
Proof.
  induction s as [|c s (z & Hs & Hz)]; [by exists ""|].
  cbn [Js.rtrim]. destruct (Js.blank (String c s)) eqn:E.
  - by exists (String c s).
  - exists z. by rewrite append_cons, <- Hs.
Qed.

Lemma rtrim_idem s : Js.rtrim (Js.rtrim s) = Js.rtrim s.
Proof.
  induction s as [|c s IH]; [done|].
  cbn [Js.rtrim]. destruct (Js.blank (String c s)) eqn:E; [done|].
  cbn [Js.rtrim]. rewrite IH.
  destruct (Js.blank (String c (Js.rtrim s))) eqn:E'; [|done].
  destruct (rtrim_split s) as (z & Hs & Hz).
  pose proof (blank_app _ _ E' Hz) as H. rewrite append_cons, <- Hs in H.
  congruence.
Qed.

(** The beginning of a string that starts with no white space starts with
    none. *)
Lemma ltrim_prefix t z : Js.ltrim (t +:+ z) = t +:+ z → Js.ltrim t = t.
Proof.
  intros H.
  assert (∀ r, Js.ltrim (t +:+ z) = Js.ltrim r →
               (String.length r < String.length (t +:+ z))%nat → False) as Hno.
  { intros r Hr Hlt. pose proof (ltrim_length r) as Hlen.
    rewrite <- Hr, H in Hlen. lia. }
  destruct t as [|a t1]; [done|]. rewrite ltrim_eq.
  change (String a t1 +:+ z) with (String a (t1 +:+ z)) in Hno.
  rewrite ltrim_eq in Hno.
  destruct (Js.is_ws a) eqn:Ea.
  { exfalso. apply (Hno (t1 +:+ z)); [done|simpl; lia]. }
  destruct t1 as [|b t2]; [done|].
  change (String b t2 +:+ z) with (String b (t2 +:+ z)) in Hno.
  cbv beta iota in Hno.
  destruct (Js.is_ws2 a b) eqn:Eb.
  { exfalso. apply (Hno (t2 +:+ z)); [done|simpl; lia]. }
  destruct t2 as [|c t3]; [done|].
  change (String c t3 +:+ z) with (String c (t3 +:+ z)) in Hno.
  cbv beta iota in Hno.
  destruct (Js.is_ws3 a b c) eqn:Ec; [|done].
  exfalso. apply (Hno (t3 +:+ z)); [done|simpl; lia].
Qed.

Lemma trim_idem s : Js.trim (Js.trim s) = Js.trim s.
Proof.
  unfold Js.trim.
  assert (Js.ltrim (Js.rtrim (Js.ltrim s)) = Js.rtrim (Js.ltrim s)) as ->.
  { destruct (rtrim_split (Js.ltrim s)) as (z & Hs & _).
    apply (ltrim_prefix _ z). rewrite <- Hs. apply ltrim_idem. }
  apply rtrim_idem.
Qed.

(** A string of at least one character is not empty. *)
Lemma isLength_nonempty min max s :
  1 ≤ min → isLength min max s = true → String.eqb s "" = false.
Proof.
  intros Hmin. destruct s; [|done]. unfold isLength. simpl.
  intros [H _]%andb_prop. apply Z.leb_le in H. lia.
Qed.

(** White space of more than one byte is trimmed, and a character counts
    for one in the chain whatever the number of its bytes or code units. *)
Example trim_no_break_space :
  Js.trim (String (ascii_of_N 194) (String (ascii_of_N 160) "Mill lane")
           +:+ String (ascii_of_N 227) (String (ascii_of_N 128)
                 (String (ascii_of_N 128) "")))
  = "Mill lane".
Proof. reflexivity. Qed.

(** ** Creation of a problem *)

Lemma isIn_nonempty s l : isIn s l = true → isIn "" l = false → String.eqb s "" = false.
Proof.
  intros Hs He. destruct (String.eqb_spec s ""); [|done]. subst. congruence.
Qed.

(** Of a body that passes the validation chain, the schema checks again
    the ward of the actor and the lengths of title and description. *)
Lemma valid_body_valid_document user b (id : ObjectId) :
  validate_post_problem b = [] →
  validate_problem
    (mkProblem id (Js.trim (Js.trim (pb_title b)))
       (Js.trim (Js.trim (pb_description b))) (pb_category b)
       (if Js.truthy (pb_priority b) then default "" (pb_priority b) else "Medium")
       "Open" (user_id user) (user_wardNumber user)
       (Js.trim (Js.trim (pb_location b)))
       (default [] (pb_images b)) None None None None true 0 0)
  = within_problem_schema user b.
Proof.
  unfold validate_post_problem. intros Hv.
  repeat (apply app_nil in Hv as [?%check_nil Hv]). apply check_nil in Hv.
  unfold validate_problem, within_problem_schema.
  cbn [title description category priority status wardNumber location adminNotes
       default].
  rewrite !trim_idem.
  rewrite (isLength_nonempty 5 (Some 200)) by (lia || done).
  rewrite (isLength_nonempty 10 (Some 1000)) by (lia || done).
  rewrite (isLength_nonempty 5 None) by (lia || done).
  assert (isIn (if Js.truthy (pb_priority b) then default "" (pb_priority b)
                else "Medium") priorities = true) as ->.
  { destruct (pb_priority b) as [pr|]; simpl; [|done].
    rewrite (isIn_nonempty pr priorities) by done. done. }
  match goal with H : isIn (pb_category b) _ = true |- _ => rewrite H end.
  change (isIn "Open" statuses) with true.
  change (Js.length "" <=? 500) with true.
  destruct (1 <=? user_wardNumber user), (user_wardNumber user <=? 50),
    (Js.length (Js.trim (pb_title b)) <=? 200),
    (Js.length (Js.trim (pb_description b)) <=? 1000); reflexivity.
Qed.

(** When [POST /api/problems] creates. *)
Lemma post_problem_created user b w :
  findById (next_id w) (problems (store w)) = None →
  code (post_problem user b w).1 = 201
  ↔ validate_post_problem b = [] ∧ within_problem_schema user b = true.
Proof.
  intros Hf. unfold post_problem.
  destruct (validate_post_problem b) as [|e es] eqn:Hv; run_handler.
  2:{ split; [done|]. by intros [? _]. }
  unfold new_Problem, save. run_handler.
  rewrite valid_body_valid_document by done.
  destruct (within_problem_schema user b); simpl.
  - rewrite Hf. simpl. done.
  - split; [done|]. by intros [_ ?].
Qed.

(** C4. A problem that [POST /api/problems] creates carries the ward and the
    id of the creating actor; a request that is not answered 201 creates
    nothing; the [wardNumber] (and [reportedBy], [status]) a client puts in
    the body changes neither the response nor the world; and the problem is
    created exactly for a valid input: a body that passes the validation
    chain, with title and description within the lengths of the schema,
    from an actor whose ward is within the 1..50 of the schema. *)
Theorem created_problem_ward (user : User) (b : ProblemBody) (w : World) :
  (code (post_problem user b w).1 = 201 →
   ∃ p,
     (post_problem user b w).1
     = mkResponse 201 (MessageProblem "Problem reported successfully"
                         (populate true false (users (store w)) p))
     ∧ problems (store (post_problem user b w).2) = problems (store w) ++ [p]
     ∧ wardNumber p = user_wardNumber user
     ∧ reportedBy p = user_id user)
  ∧ (code (post_problem user b w).1 ≠ 201 →
     store (post_problem user b w).2 = store w)
  ∧ (∀ ward by_ st,
       post_problem user (with_extras ward by_ st b) w = post_problem user b w)
  ∧ (findById (next_id w) (problems (store w)) = None →
     (code (post_problem user b w).1 = 201
      ↔ validate_post_problem b = [] ∧ within_problem_schema user b = true)).
Proof.
  pose proof (post_problem_created user b w) as Hiff.
  destruct (post_problem user b w) as [r w'] eqn:E.
  pose proof (post_problem_cases user b w r w' E) as Hc.
  split; [|split; [|split]].
  - intros H201.
    destruct Hc as [(Hn & _)|(p & -> & _ & _ & Hw & Hr & _ & _ & _ & _ & Hs & _)].
    + done.
    + exists p. simpl. rewrite Hs. done.
  - intros Hn. destruct Hc as [(_ & Hs & _)|(p & -> & _)]; done.
  - intros ward by_ st. rewrite <- E. reflexivity.
  - exact Hiff.
Qed.

Lemma created_problem_ward_witness :
  ∃ p, problems (store (post_problem resident3 sample_body sample_world).2)
       = problems sample_store ++ [p]
       ∧ wardNumber p = 3
       ∧ reportedBy p = 101%N.
Proof.
  destruct (created_problem_ward resident3 sample_body sample_world)
    as (Hc & _ & _ & Hok).
  destruct Hc as (p & _ & Hs & Hw & Hr).
  - apply Hok; [vm_compute; reflexivity|].
    split; vm_compute; reflexivity.
  - exists p. split; [exact Hs|]. split; [exact Hw | exact Hr].
Defined.

(** A title of four characters and five bytes is turned away by the chain;
    one of 150 characters beyond U+FFFF passes the chain, which counts 150,
    and fails the schema, which counts 300. *)
Example title_lengths :
  isLength 5 (Some 200) (String (ascii_of_N 195) (String (ascii_of_N 129) "gua"))
  = false
  ∧ (let face := String (ascii_of_N 240) (String (ascii_of_N 159)
                   (String (ascii_of_N 152) (String (ascii_of_N 128) ""))) in
     let ttl := String.concat "" (replicate 150 face) in
     isLength 5 (Some 200) ttl = true ∧ (Js.length ttl <=? 200) = false).
Proof. vm_compute. repeat split; reflexivity. Qed.

(** ** Order of save and publication *)

Lemma findById_id id ps p : findById id ps = Some p → _id p = id.
Proof.
  unfold findById. intros H. apply find_some in H as [_ H].
  by apply N.eqb_eq in H.
Qed.

Lemma findById_app_new p ps :
  findById (_id p) ps = None → findById (_id p) (ps ++ [p]) = Some p.
Proof.
  unfold findById. induction ps as [|q ps IH]; simpl.
  - by rewrite N.eqb_refl.
  - destruct (_id q =? _id p)%N; [done|apply IH].
Qed.

Lemma findById_replace p ps :
  is_Some (findById (_id p) ps) →
  findById (_id p) (replace_problem p ps) = Some p.
Proof.
  unfold findById, replace_problem. induction ps as [|q ps IH]; simpl.
  - by intros [? ?].
  - destruct (_id q =? _id p)%N eqn:E; simpl.
    + by rewrite N.eqb_refl.
    + rewrite E. apply IH.
Qed.

Lemma id_set_updatedAt d p : _id (set_updatedAt d p) = _id p.
Proof. done. Qed.

Lemma id_updateStatus_assign st notes d p :
  _id (updateStatus_assign st notes d p) = _id p.
Proof.
  unfold updateStatus_assign.
  destruct (Js.truthy notes), (String.eqb st "Resolved" || String.eqb st "Closed");
    done.
Qed.

(** What a completed [save] of a loaded document leaves behind. *)
Lemma save_loaded_cases p w :
  save false p w = (Thrown, w)
  ∨ ∃ p' old,
      findById (_id p) (problems (store w)) = Some old
      ∧ p' = (if bool_decide (p = old) then p else set_updatedAt (now w) p)
      ∧ save false p w
        = (Val p',
           mkWorld (with_problems (replace_problem p' (problems (store w))) (store w))
             (bus w) (now w) (next_id w)
             (trace w ++ [(EffSave p', problems (store w))])).
Proof.
  unfold save. run_handler.
  destruct (validate_problem p); simpl; [|by left].
  destruct (findById (_id p) (problems (store w))) as [old|] eqn:Hf; simpl;
    [|by left].
  right. by exists (if bool_decide (p = old) then p else set_updatedAt (now w) p), old.
Qed.

Lemma save_loaded_stored p p' w w' :
  save false p w = (Val p', w') →
  findById (_id p') (problems (store w')) = Some p'
  ∧ _id p' = _id p ∧ users (store w') = users (store w)
  ∧ bus w' = bus w ∧ now w' = now w.
Proof.
  intros E. destruct (save_loaded_cases p w) as [E'|(q & old & Hf & Hq & E')];
    rewrite E' in E; [done|].
  injection E as <- <-. simpl.
  assert (_id q = _id p) as Hid by (subst q; by case_bool_decide).
  repeat split; try done.
  apply findById_replace. rewrite Hid. by eexists.
Qed.

Lemma put_problem_status_cases (id : IdParam) sb w r w' :
  put_problem_status id sb w = (r, w') →
  (code r ≠ 200 ∧ bus w' = bus w
   ∧ ∃ saves, trace w' = trace w ++ saves ∧ Forall is_save saves)
  ∨ (∃ i p saves before,
       id = IdOf i
       ∧ r = mkResponse 200
             (MessageProblem "Problem status updated successfully"
                (populate true true (users (store w)) p))
       ∧ _id p = i
       ∧ findById i (problems (store w')) = Some p
       ∧ Forall is_save saves
       ∧ last saves = Some (EffSave p, before)
       ∧ trace w' = trace w ++ saves ++
           [(EffEmit (ward_room (wardNumber p)) (problem_updated_event p),
             problems (store w'))]
       ∧ bus w' = io_to_emit (ward_room (wardNumber p)) (problem_updated_event p) (bus w)).
Proof.
  unfold put_problem_status, try_catch.
  destruct (is_nil (validate_put_status sb)); simpl.
  2:{ intros [= <- <-]. left. split; [done|]. split; [done|].
      exists []. by rewrite app_nil_r. }
  destruct id as [i|].
  2:{ intros [= <- <-]. left. split; [done|]. split; [done|].
      exists []. by rewrite app_nil_r. }
  unfold bind at 1. unfold Problem_findById, bind at 1, get_world at 1, ret at 1.
  destruct (findById i (problems (store w))) as [problem|] eqn:Hf.
  2:{ intros [= <- <-]. left. split; [done|]. split; [done|].
      exists []. by rewrite app_nil_r. }
  apply findById_id in Hf as Hid.
  unfold bind at 1. unfold updateStatus at 1. unfold bind at 1, get_world at 1.
  set (p0 := updateStatus_assign (sb_status sb) (sb_adminNotes sb) (now w) problem).
  destruct (save_loaded_cases p0 w) as [E1|(p1 & old & Hold & Hp1 & E1)]; rewrite E1.
  { intros [= <- <-]. left. split; [done|]. split; [done|].
    exists []. by rewrite app_nil_r. }
  set (w1 := mkWorld _ _ _ _ _) in *.
  pose proof (save_loaded_stored _ _ _ _ E1) as (Hst1 & Hid1 & Hu1 & Hb1 & _).
  unfold p0 in Hid1. rewrite id_updateStatus_assign in Hid1.
  destruct (sb_assignedTo sb) as [[a|]|].
  - unfold bind at 1.
    destruct (save_loaded_cases (set_assignedTo (Some a) p1) w1)
      as [E2|(p2 & old2 & Hold2 & Hp2 & E2)]; rewrite E2.
    { intros [= <- <-]. left. split; [done|]. split; [done|].
      exists [(EffSave p1, problems (store w))]. split; [done|].
      by repeat constructor. }
    set (w2 := mkWorld _ _ _ _ _) in *.
    pose proof (save_loaded_stored _ _ _ _ E2) as (Hst2 & Hid2 & Hu2 & Hb2 & _).
    simpl in Hid2.
    unfold bind, get_world, emit, modify, ret. simpl.
    intros [= <- <-]. right.
    exists i, p2, [(EffSave p1, problems (store w)); (EffSave p2, problems (store w1))],
      (problems (store w1)).
    simpl. rewrite <- !app_assoc. simpl.
    split; [done|]. split; [done|]. split; [congruence|]. split.
    { simpl in Hst2. rewrite <- Hid, <- Hid1, <- Hid2. exact Hst2. }
    split; [by repeat constructor|]. done.
  - unfold bind at 1, throw at 1.
    intros [= <- <-]. left. split; [done|]. split; [done|].
    exists [(EffSave p1, problems (store w))]. split; [done|].
    by repeat constructor.
  - unfold bind, get_world, emit, modify, ret. simpl.
    intros [= <- <-]. right.
    exists i, p1, [(EffSave p1, problems (store w))], (problems (store w)).
    simpl. rewrite <- !app_assoc. simpl.
    split; [done|]. split; [done|]. split; [congruence|]. split.
    { simpl in Hst1. rewrite <- Hid, <- Hid1. exact Hst1. }
    split; [by repeat constructor|]. done.
Qed.

Lemma saves_have_no_emit saves :
  Forall is_save saves → save_before_emit saves.
Proof.
  intros Hs i room ev snapshot Hi.
  by apply (Forall_lookup_1 _ _ _ _ Hs) in Hi.
Qed.

Lemma emit_after_saves saves p before ev snapshot :
  Forall is_save saves →
  last saves = Some (EffSave p, before) →
  describes ev p →
  findById (_id p) snapshot = Some p →
  save_before_emit (saves ++ [(EffEmit (ward_room (wardNumber p)) ev, snapshot)]).
Proof.
  intros Hs Hl Hd Hf i room ev' snapshot' Hi.
  destruct (decide (i < List.length saves)%nat) as [Hlt|Hge].
  - rewrite lookup_app_l in Hi by done.
    by apply (Forall_lookup_1 _ _ _ _ Hs) in Hi.
  - rewrite lookup_app_r in Hi by lia.
    destruct (i - List.length saves)%nat eqn:Ei; [|by destruct n].
    injection Hi as <- <- <-.
    rewrite last_lookup in Hl.
    assert (List.length saves ≠ 0%nat) as Hne.
    { intros H0. destruct saves; [done|]. simpl in H0. lia. }
    exists (pred (List.length saves)), p, before.
    split; [lia|]. split; [by rewrite lookup_app_l by lia|]. done.
Qed.

Lemma emit_in_saves saves room ev snapshot :
  Forall is_save saves → (EffEmit room ev, snapshot) ∈ saves → False.
Proof.
  intros Hs Hin. by apply (proj1 (Forall_forall _ _) Hs) in Hin.
Qed.

(** C3. In one invocation of [POST /api/problems] or of [PUT
    /api/problems/:id/status], the effects the handler adds to the trace are
    such that every publication comes after a completed save of the problem
    it describes and finds that document, with the published id, title, ward
    (and status), in the collection; the handler publishes exactly when it
    answers 201, respectively 200. *)
Theorem save_precedes_emit (user : User) (b : ProblemBody) (id : ObjectId)
    (sb : StatusBody) (w : World) :
  (∃ efs,
     trace (post_problem user b w).2 = trace w ++ efs
     ∧ save_before_emit efs
     ∧ (code (post_problem user b w).1 = 201
        ↔ ∃ room ev snapshot, (EffEmit room ev, snapshot) ∈ efs))
  ∧ (∃ efs,
       trace (put_problem_status id sb w).2 = trace w ++ efs
       ∧ save_before_emit efs
       ∧ (code (put_problem_status id sb w).1 = 200
          ↔ ∃ room ev snapshot, (EffEmit room ev, snapshot) ∈ efs)).
Proof.
  split.
  - destruct (post_problem user b w) as [r w'] eqn:E.
    apply post_problem_cases in E
      as [(Hn & _ & _ & Ht & _)|(p & -> & _ & _ & _ & _ & _ & _ & _ & Hf & _ & _ & Ht)].
    + exists []. simpl. rewrite app_nil_r. split; [done|]. split.
      * by apply saves_have_no_emit.
      * split; [done|]. intros (? & ? & ? & H). by apply elem_of_nil in H.
    + eexists. split; [exact Ht|]. split.
      * apply (emit_after_saves [(EffSave p, problems (store w))] p
                 (problems (store w))); try done.
        -- by repeat constructor.
        -- by apply findById_app_new.
      * split; [|done]. intros _. do 3 eexists. apply list_elem_of_further, list_elem_of_here.
  - destruct (put_problem_status id sb w) as [r w'] eqn:E.
    apply put_problem_status_cases in E
      as [(Hn & _ & saves & Ht & Hs)
         |(i & p & saves & before & _ & -> & Hid & Hf & Hs & Hl & Ht & _)].
    + exists saves. split; [done|]. split; [by apply saves_have_no_emit|].
      split; [done|]. intros (? & ? & ? & H). by apply emit_in_saves in H.
    + eexists. split; [exact Ht|]. split.
      * eapply emit_after_saves; try done. by rewrite Hid.
      * split; [|done]. intros _. do 3 eexists.
        apply elem_of_app. right. apply list_elem_of_here.
Qed.

(** An update with an assignment: two saves, then the publication. *)
Example put_problem_status_sample :
  let out := put_problem_status 1
               (mkStatusBody "Resolved" (Some "done") (Some (IdOf 100)))
               sample_world in
  code out.1 = 200
  ∧ (λ e, match e.1 with EffSave _ => "save" | EffEmit room _ => room end)
      <$> trace out.2 = ["save"; "save"; "ward-3"]
  ∧ (resolvedAt <$> findById 1 (problems (store out.2))) = Some (Some 5000)
  ∧ (assignedTo <$> findById 1 (problems (store out.2))) = Some (Some 100%N)
  ∧ (status <$> findById 2 (problems (store out.2))) = Some "Resolved".
Proof. vm_compute. repeat split; reflexivity. Qed.

(** ** [updateStatus] *)

Ltac problem_fields :=
  cbn [_id title description category priority status reportedBy wardNumber
       location images assignedTo adminNotes resolvedAt
       estimatedResolutionDate isPublic createdAt updatedAt set_status
       set_adminNotes set_resolvedAt set_assignedTo set_updatedAt] in *.

(** Of a document that passed the schema, after the assignments of
    [updateStatus] with a status of the enumeration, the schema can only
    reject the notes. *)
Lemma updateStatus_assign_valid newStatus notes date this :
  validate_problem this = true →
  isIn newStatus statuses = true →
  validate_problem (updateStatus_assign newStatus notes date this)
  = notes_fit notes.
Proof.
  unfold validate_problem, notes_fit. intros Hv Hs.
  repeat match goal with H : _ && _ = true |- _ => apply andb_prop in H as [H ?] end.
  unfold updateStatus_assign.
  destruct notes as [n|]; cbn [Js.truthy].
  - destruct (negb (String.eqb n "")),
      (String.eqb newStatus "Resolved" || String.eqb newStatus "Closed");
      problem_fields; cbn [fmap option_fmap option_map default]; rewrite Hs;
      repeat match goal with H : _ = true |- _ => rewrite H; clear H end; done.
  - destruct (String.eqb newStatus "Resolved" || String.eqb newStatus "Closed");
      problem_fields; rewrite Hs;
      repeat match goal with H : _ = true |- _ => rewrite H; clear H end; done.
Qed.

Lemma updateStatus_assign_fields newStatus notes date this :
  let q := updateStatus_assign newStatus notes date this in
  status q = newStatus
  ∧ adminNotes q = (if Js.truthy notes then Js.trim <$> notes else adminNotes this)
  ∧ resolvedAt q
    = (if String.eqb newStatus "Resolved" || String.eqb newStatus "Closed"
       then Some date else resolvedAt this)
  ∧ same_but_status_notes_resolvedAt this q.
Proof.
  unfold updateStatus_assign, same_but_status_notes_resolvedAt,
    same_but_update_fields.
  destruct (Js.truthy notes),
    (String.eqb newStatus "Resolved" || String.eqb newStatus "Closed");
    simpl; done.
Qed.

Lemma findById_elem id ps p : findById id ps = Some p → p ∈ ps.
Proof.
  unfold findById. intros H. apply find_some in H as [H _].
  by apply list_elem_of_In.
Qed.

(** ** Wards *)

Lemma find_ward_is_Some n ws ward :
  ward ∈ ws → ward_wardNumber ward = n → is_Some (find_ward n ws).
Proof.
  intros Hin Hn. unfold find_ward.
  destruct (List.find _ ws) eqn:E; [by eexists|].
  apply list_elem_of_In in Hin.
  pose proof (find_none _ _ E ward Hin) as H. simpl in H. lia.
Qed.

(** C7, as the code has it.  When the collection holds a ward with the
    number of the request, [POST /api/wards] rejects the request with 400
    and leaves the world, and so every ward record, as it was, inserting
    nothing; for a body that passes the validation chain the answer is the
    conflict "Ward with this number already exists", and for one that does
    not it is the list of validation errors. *)
Theorem create_ward_duplicate (b : WardBody) (n : Z) (existing : Ward)
    (w : World) :
  wb_wardNumber b = Some n →
  existing ∈ wards (store w) →
  ward_wardNumber existing = n →
  (post_ward b w).2 = w
  ∧ wards (store (post_ward b w).2) = wards (store w)
  ∧ code (post_ward b w).1 = 400
  ∧ (validate_post_ward b = [] →
     (post_ward b w).1
     = mkResponse 400 (Message "Ward with this number already exists"))
  ∧ (validate_post_ward b ≠ [] →
     (post_ward b w).1 = mkResponse 400 (Errors (validate_post_ward b))).
Proof.
  intros Hb Hin Hn.
  destruct (find_ward_is_Some n (wards (store w)) existing Hin Hn) as [e He].
  unfold post_ward.
  destruct (validate_post_ward b) as [|m ms] eqn:Hv.
  - run_handler. rewrite Hb. simpl. rewrite He. simpl. done.
  - run_handler. done.
Qed.

Lemma create_ward_duplicate_witness :
  post_ward ward_body_3 sample_world
  = (mkResponse 400 (Message "Ward with this number already exists"),
     sample_world).
Proof.
  destruct (create_ward_duplicate ward_body_3 3 ward_3 sample_world)
    as (Hw & _ & _ & Hr & _).
  - reflexivity.
  - apply list_elem_of_here.
  - reflexivity.
  - rewrite <- Hw at 2. rewrite <- Hr by reflexivity.
    by destruct (post_ward ward_body_3 sample_world).
Defined.

(** C7 as the specification words it fails: a body that fails the
    validation chain is turned away before the collection is read, so that
    a request with the number of the stored ward 3 is answered with the
    validation errors and not with the conflict. *)
Lemma create_ward_invalid_body :
  ward_3 ∈ wards (store sample_world)
  ∧ wb_wardNumber ward_body_3_short = Some (ward_wardNumber ward_3)
  ∧ post_ward ward_body_3_short sample_world
    = (mkResponse 400 (Errors ["Ward name must be at least 2 characters"]),
       sample_world)
  ∧ body (post_ward ward_body_3_short sample_world).1
    ≠ Message "Ward with this number already exists".
Proof.
  split; [apply list_elem_of_here|]. split; [reflexivity|].
  split; [reflexivity|]. vm_compute. discriminate.
Qed.

(** The middleware keeps an actor that is not an admin from the handler. *)
Example create_ward_resident :
  adminAuth resident3 (post_ward ward_body_3) sample_world
  = (mkResponse 403 (Message "Access denied"), sample_world).
Proof. reflexivity. Qed.

Lemma find_ward_replace_first n ward ws :
  is_Some (find_ward n ws) → ward_wardNumber ward = n →
  find_ward n (replace_first_ward n ward ws) = Some ward.
Proof.
  unfold find_ward. intros [e He] Hn.
  induction ws as [|x ws IH]; simpl in *; [done|].
  destruct (ward_wardNumber x =? n) eqn:E; simpl.
  - by rewrite Hn, Z.eqb_refl.
  - rewrite E. by apply IH.
Qed.

Lemma elem_of_replace_first_ward n x ws :
  is_Some (find_ward n ws) → x ∈ replace_first_ward n x ws.
Proof.
  unfold find_ward. intros [e He].
  induction ws as [|y ws IH]; simpl in *; [done|].
  destruct (ward_wardNumber y =? n); [apply list_elem_of_here|].
  apply list_elem_of_further. by apply IH.
Qed.

Lemma find_ward_number n ws old : find_ward n ws = Some old → ward_wardNumber old = n.
Proof. unfold find_ward. intros H. apply find_some in H as [_ H]. lia. Qed.

(** [PUT /api/wards/:n] with a patch that passes both validations, when no
    ward document has the number. *)
Lemma put_ward_missing param n patch w :
  Js.parseInt param = Some n →
  validate_put_ward patch = [] →
  validate_patch patch = true →
  find_ward n (wards (store w)) = None →
  put_ward param patch w = (mkResponse 404 (Message "Ward not found"), w).
Proof.
  intros Hp Hv Hv' Hnone. unfold put_ward. rewrite Hv, Hp. run_handler.
  unfold findOneAndUpdate. run_handler. by rewrite Hv', Hnone.
Qed.

(** The same, when a ward document has the number. *)
Lemma put_ward_found param n patch old w :
  Js.parseInt param = Some n →
  validate_put_ward patch = [] →
  validate_patch patch = true →
  find_ward n (wards (store w)) = Some old →
  put_ward param patch w
  = if renumbers_onto_taken n patch (wards (store w))
    then (mkResponse 500 (Message "Server error while updating ward"), w)
    else (mkResponse 200 (MessageWard "Ward updated successfully"
                            (apply_patch patch (now w) old)),
          with_store (with_wards (replace_first_ward n
                                    (apply_patch patch (now w) old)
                                    (wards (store w))) (store w)) w).
Proof.
  intros Hp Hv Hv' Hold. pose proof (find_ward_number _ _ _ Hold) as Hwn.
  unfold put_ward. rewrite Hv, Hp. run_handler.
  unfold findOneAndUpdate. run_handler. rewrite Hv', Hold. simpl.
  unfold renumbers_onto_taken, apply_patch.
  destruct (wp_wardNumber patch) as [m|]; simpl.
  - destruct (negb (m =? n) && _); done.
  - rewrite Hwn, Z.eqb_refl. done.
Qed.

(** C8, as the code has it.  The reads leave inactive wards out: [GET
    /api/wards] lists active wards only and [GET /api/wards/:n] answers 404
    when no active ward has the number the parameter gives.  [PUT
    /api/wards/:n] selects by number alone: for a parameter that gives a
    number and a patch that passes the validation chain and the validators
    of the schema, it answers 404, changing nothing, exactly when no ward
    record has the number; on a record that has it, also one whose
    [isActive] is false, it writes the patch in its place and answers 200
    with the updated record, unless the patch moves the ward onto the
    number of a stored record, which is answered 500 and changes nothing. *)
Theorem ward_lookup_not_found (user : User) (param : string) (n : Z)
    (patch : WardPatch) (w : World) :
  Js.parseInt param = Some n →
  validate_put_ward patch = [] →
  validate_patch patch = true →
  (∀ x, x ∈ listed_wards (get_wards user w).1 → ward_isActive x = true)
  ∧ (find_active_ward n (wards (store w)) = None →
     get_ward user param w = (mkResponse 404 (Message "Ward not found"), w))
  ∧ (find_ward n (wards (store w)) = None ↔
     put_ward param patch w = (mkResponse 404 (Message "Ward not found"), w))
  ∧ (∀ old,
       find_ward n (wards (store w)) = Some old →
       (renumbers_onto_taken n patch (wards (store w)) = true →
        put_ward param patch w
        = (mkResponse 500 (Message "Server error while updating ward"), w))
       ∧ (renumbers_onto_taken n patch (wards (store w)) = false →
          (put_ward param patch w).1
          = mkResponse 200 (MessageWard "Ward updated successfully"
                              (apply_patch patch (now w) old))
          ∧ wards (store (put_ward param patch w).2)
            = replace_first_ward n (apply_patch patch (now w) old)
                (wards (store w))
          ∧ apply_patch patch (now w) old ∈ wards (store (put_ward param patch w).2))).
Proof.
  intros Hp Hv Hv'.
  split; [|split; [|split]].
  - unfold get_wards, listed_wards. run_handler. intros x Hx.
    rewrite <- list_fmap_compose in Hx.
    apply list_elem_of_fmap in Hx as (y & -> & Hy). simpl.
    rewrite merge_sort_Permutation in Hy.
    by apply (proj1 (list_elem_of_filter _ _ _)) in Hy as [Hy _].
  - intros Hnone. unfold get_ward. rewrite Hp. run_handler. by rewrite Hnone.
  - split.
    + by apply put_ward_missing.
    + intros E. destruct (find_ward n (wards (store w))) as [old|] eqn:Hold; [|done].
      rewrite (put_ward_found param n patch old w Hp Hv Hv' Hold) in E.
      by destruct (renumbers_onto_taken _ _ _).
  - intros old Hold.
    rewrite (put_ward_found param n patch old w Hp Hv Hv' Hold).
    split; intros ->; [done|]. simpl. split; [done|]. split; [done|].
    apply elem_of_replace_first_ward. by eexists.
Qed.

Lemma ward_lookup_not_found_witness :
  get_ward resident3 "5" sample_world
  = (mkResponse 404 (Message "Ward not found"), sample_world)
  ∧ (put_ward "5" rename_patch sample_world).1
    = mkResponse 200 (MessageWard "Ward updated successfully"
                        (apply_patch rename_patch 5000 ward_5)).
Proof.
  destruct (ward_lookup_not_found resident3 "5" 5 rename_patch sample_world)
    as (_ & Hg & _ & Hp); try reflexivity.
  split.
  - apply Hg. reflexivity.
  - apply (Hp ward_5); reflexivity.
Defined.

(** C8 as the specification words it fails: [PUT /api/wards/5] on the
    inactive ward 5 answers 200 and renames the record. *)
Lemma updateWard_reaches_inactive_ward :
  ward_isActive ward_5 = false
  ∧ code (put_ward "5" rename_patch sample_world).1 = 200
  ∧ (ward_name <$> find_ward 5 (wards (store sample_world))) = Some "Ward 5"
  ∧ (ward_name <$> find_ward 5 (wards (store (put_ward "5" rename_patch sample_world).2)))
    = Some "Old mill".
Proof. repeat split; vm_compute; reflexivity. Qed.

(** ** [GET /api/wards/:wardNumber] *)

Global Instance newer_first_total : Total newer_first.
Proof. intros p q. unfold newer_first. lia. Qed.

Global Instance newer_first_trans : Transitive newer_first.
Proof. intros p q r. unfold newer_first. lia. Qed.


Lemma sort_newest_perm ps : sort_newest ps ≡ₚ ps.
Proof. apply merge_sort_Permutation. Qed.







(** ** Start-up seeding *)

Lemma find_admin_is_Some us :
  filter (λ u, user_role u = "admin") us ≠ [] →
  is_Some (List.find (λ u, String.eqb (user_role u) "admin") us).
Proof.
  induction us as [|u us IH]; [done|]. rewrite filter_cons. simpl.
  destruct (String.eqb_spec (user_role u) "admin") as [E|E].
  - intros _. by eexists.
  - rewrite decide_False by done. apply IH.
Qed.

(** On a store with a ward and an admin the routine writes nothing. *)
Lemma initializeDefaultData_populated rnd hash w :
  wards (store w) ≠ [] → admins (store w) ≠ [] →
  initializeDefaultData rnd hash w = w.
Proof.
  intros Hw Ha. unfold initializeDefaultData. run_handler.
  destruct (wards (store w)) as [|x ws] eqn:E; [done|]. simpl.
  destruct (find_admin_is_Some _ Ha) as [a ->]. done.
Qed.

(** On an empty store it writes the ten wards and the admin. *)
Lemma initializeDefaultData_empty rnd hash w :
  store w = empty_store →
  ward_wardNumber <$> wards (store (initializeDefaultData rnd hash w)) = seqZ 1 10
  ∧ Forall (λ x, ward_isActive x = true)
      (wards (store (initializeDefaultData rnd hash w)))
  ∧ user_role <$> users (store (initializeDefaultData rnd hash w)) = ["admin"]
  ∧ problems (store (initializeDefaultData rnd hash w)) = [].
Proof.
  destruct w as [s b d i t]. simpl. intros ->.
  split; [vm_compute; reflexivity|]. split; [|split; vm_compute; reflexivity].
  apply Forall_forall. intros x Hx. apply list_elem_of_In in Hx.
  repeat (destruct Hx as [<-|Hx]; [reflexivity|]). destruct Hx.
Qed.

(** C9. Run on an empty store, the start-up routine leaves exactly the ten
    wards numbered 1 to 10 and exactly one user, an admin; run on that
    result, or on any store that has a ward and an admin, it changes
    nothing, whatever the random draws. *)
Theorem seeding_idempotent (rnd rnd' : nat → Z) (hash hash' : string → string)
    (w : World) :
  (store w = empty_store →
   let w' := initializeDefaultData rnd hash w in
   ward_wardNumber <$> wards (store w') = [1; 2; 3; 4; 5; 6; 7; 8; 9; 10]
   ∧ List.length (wards (store w')) = 10%nat
   ∧ List.length (admins (store w')) = 1%nat
   ∧ List.length (users (store w')) = 1%nat
   ∧ problems (store w') = []
   ∧ initializeDefaultData rnd' hash' w' = w')
  ∧ (wards (store w) ≠ [] → admins (store w) ≠ [] →
     initializeDefaultData rnd hash w = w).
Proof.
  split; [|apply initializeDefaultData_populated].
  intros He w'.
  destruct (initializeDefaultData_empty rnd hash w He) as (Hw & _ & Hu & Hp).
  fold w' in Hw, Hu, Hp.
  assert (List.length (wards (store w')) = 10%nat) as Hlen.
  { rewrite <- (length_fmap ward_wardNumber), Hw. reflexivity. }
  assert (List.length (admins (store w')) = 1%nat) as Hadm.
  { unfold admins. destruct (users (store w')) as [|u [|u' us]]; try done.
    injection Hu as Hr. rewrite filter_cons, decide_True by done. done. }
  split; [exact Hw|]. split; [exact Hlen|]. split; [exact Hadm|].
  split; [by rewrite <- (length_fmap user_role), Hu|]. split; [exact Hp|].
  apply initializeDefaultData_populated.
  - intros E. by rewrite E in Hlen.
  - intros E. by rewrite E in Hadm.
Qed.

Lemma seeding_idempotent_witness :
  List.length (wards (store (initializeDefaultData (λ k, Z.of_nat k) id
                               (mkWorld empty_store (mkBus ∅ []) 0 0 [])))) = 10%nat
  ∧ initializeDefaultData (λ k, 7) id sample_world = sample_world.
Proof.
  destruct (seeding_idempotent (λ k, Z.of_nat k) (λ k, 7) id id
              (mkWorld empty_store (mkBus ∅ []) 0 0 [])) as (He & _).
  destruct (He eq_refl) as (_ & Hlen & _).
  split; [exact Hlen|].
  apply (seeding_idempotent (λ k, 7) (λ k, 7) id id sample_world).
  - discriminate.
  - vm_compute. discriminate.
Defined.

(** ** The clock stays ahead of the creation times *)

Lemma elem_of_replace_problem p x ps :
  x ∈ replace_problem p ps → x = p ∨ x ∈ ps.
Proof.
  unfold replace_problem. intros H.
  apply list_elem_of_fmap in H as (q & -> & Hq).
  destruct (_id q =? _id p)%N; [by left | by right].
Qed.

Lemma clock_ahead_save p p' w w' :
  clock_ahead w → createdAt p ≤ now w →
  save false p w = (Val p', w') →
  clock_ahead w' ∧ now w' = now w ∧ createdAt p' = createdAt p.
Proof.
  intros Hc Hp E.
  destruct (save_loaded_cases p w) as [E'|(q & old & _ & Hq & E')];
    rewrite E' in E; [done|].
  injection E as <- <-. simpl.
  assert (createdAt q = createdAt p) as Hcq by (subst q; by case_bool_decide).
  split; [|done]. intros x Hx. simpl in Hx.
  apply elem_of_replace_problem in Hx as [->|Hx]; simpl; [lia|by apply Hc].
Qed.

Lemma createdAt_updateStatus_assign st notes d p :
  createdAt (updateStatus_assign st notes d p) = createdAt p.
Proof.
  unfold updateStatus_assign.
  destruct (Js.truthy notes), (String.eqb st "Resolved" || String.eqb st "Closed");
    done.
Qed.

Lemma clock_ahead_put_problem_status (id : IdParam) sb w :
  clock_ahead w → clock_ahead (put_problem_status id sb w).2.
Proof.
  intros Hc. unfold put_problem_status, try_catch.
  destruct (is_nil (validate_put_status sb)); simpl; [|done].
  destruct id as [id|]; [|done].
  unfold bind at 1. unfold Problem_findById, bind at 1, get_world at 1, ret at 1.
  destruct (findById id (problems (store w))) as [problem|] eqn:Hf; [|done].
  unfold bind at 1. unfold updateStatus at 1. unfold bind at 1, get_world at 1.
  set (p0 := updateStatus_assign (sb_status sb) (sb_adminNotes sb) (now w) problem).
  destruct (save_loaded_cases p0 w) as [E1|(p1 & old & _ & _ & E1)];
    rewrite E1; [done|].
  set (w1 := mkWorld _ _ _ _ _) in *.
  apply clock_ahead_save in E1 as (Hc1 & Hn1 & Hcr1); [|done|].
  2:{ unfold p0. rewrite createdAt_updateStatus_assign.
      by apply Hc, (findById_elem id). }
  unfold p0 in Hcr1. rewrite createdAt_updateStatus_assign in Hcr1.
  assert (createdAt p1 ≤ now w1) as Hp1.
  { rewrite Hcr1, Hn1. by apply Hc, (findById_elem id). }
  destruct (sb_assignedTo sb) as [[a|]|].
  - unfold bind at 1.
    destruct (save_loaded_cases (set_assignedTo (Some a) p1) w1)
      as [E2|(p2 & old2 & _ & _ & E2)]; rewrite E2; [done|].
    apply clock_ahead_save in E2 as (Hc2 & _ & _); [|done|done].
    unfold bind, get_world, emit, modify, ret. simpl. exact Hc2.
  - unfold bind at 1, throw at 1. exact Hc1.
  - unfold bind, get_world, emit, modify, ret. simpl. exact Hc1.
Qed.

Lemma clock_ahead_post_problem user b w :
  clock_ahead w → clock_ahead (post_problem user b w).2.
Proof.
  intros Hc. destruct (post_problem user b w) as [r w'] eqn:E.
  apply post_problem_cases in E
    as [(_ & Hs & _ & _ & Hn)|(p & _ & Hn & _ & _ & _ & _ & Hcr & _ & _ & Hs & _)];
    intros x Hx; simpl in *; rewrite Hs in Hx.
  - rewrite Hn. by apply Hc.
  - simpl in Hx. rewrite Hn.
    apply elem_of_app in Hx as [Hx|Hx]; [by apply Hc|].
    apply list_elem_of_singleton in Hx as ->. lia.
Qed.

(** The routes on wards and the start-up routine leave the problems and the
    clock alone. *)
Lemma insert_ward_problems d w r w' :
  insert_ward d w = (r, w') →
  problems (store w') = problems (store w) ∧ now w' = now w.
Proof.
  unfold insert_ward. run_handler.
  destruct (validate_ward d); simpl; [|by intros [= <- <-]].
  destruct (find_ward _ _); by intros [= <- <-].
Qed.

Lemma insertMany_problems docs w r w' :
  insertMany docs w = (r, w') →
  problems (store w') = problems (store w) ∧ now w' = now w.
Proof.
  unfold insertMany.
  destruct (forallb validate_ward docs); simpl; [|by intros [= <- <-]].
  revert w. induction docs as [|d docs IH]; intros w; simpl.
  - by intros [= <- <-].
  - unfold bind at 1.
    destruct (insert_ward d w) as [[[]|r1|] w1] eqn:E1;
      apply insert_ward_problems in E1 as [Hp Hn].
    + intros E. apply IH in E as [Hp' Hn']. split; congruence.
    + by intros [= <- <-].
    + by intros [= <- <-].
Qed.

Lemma post_ward_problems b w r w' :
  post_ward b w = (r, w') →
  problems (store w') = problems (store w) ∧ now w' = now w.
Proof.
  unfold post_ward, try_catch.
  destruct (is_nil (validate_post_ward b)); simpl; [|by intros [= <- <-]].
  unfold bind at 1. destruct (wb_wardNumber b) as [n|]; simpl;
    [|by intros [= <- <-]].
  unfold bind at 1, get_world at 1.
  destruct (find_ward n (wards (store w))); [by intros [= <- <-]|].
  unfold bind at 1.
  destruct (insert_ward _ w) as [[[]|r1|] w1] eqn:E1;
    apply insert_ward_problems in E1 as [Hp Hn]; by intros [= <- <-].
Qed.

Lemma put_ward_problems param patch w r w' :
  put_ward param patch w = (r, w') →
  problems (store w') = problems (store w) ∧ now w' = now w.
Proof.
  unfold put_ward, try_catch.
  destruct (is_nil (validate_put_ward patch)); simpl; [|by intros [= <- <-]].
  unfold bind at 1. destruct (Js.parseInt param) as [n|]; simpl;
    [|by intros [= <- <-]].
  unfold bind at 1, findOneAndUpdate, bind at 1, get_world at 1.
  destruct (validate_patch patch); simpl; [|by intros [= <- <-]].
  destruct (find_ward n (wards (store w))) as [old|]; [|by intros [= <- <-]].
  destruct (negb _ && _); by intros [= <- <-].
Qed.

Lemma bind_problems {A B} (m : M A) (k : A → M B) w r w' :
  (∀ r1 w1, m w = (r1, w1) →
            problems (store w1) = problems (store w) ∧ now w1 = now w) →
  (∀ a w1 r2 w2, k a w1 = (r2, w2) →
                 problems (store w2) = problems (store w1) ∧ now w2 = now w1) →
  bind m k w = (r, w') →
  problems (store w') = problems (store w) ∧ now w' = now w.
Proof.
  intros Hm Hk. unfold bind.
  destruct (m w) as [[a|r1|] w1] eqn:E;
    destruct (Hm _ _ eq_refl) as [Hp Hn]; clear Hm E.
  - intros E. apply Hk in E as [Hp' Hn']. split; congruence.
  - by intros [= <- <-].
  - by intros [= <- <-].
Qed.

Lemma initializeDefaultData_problems rnd hash w :
  problems (store (initializeDefaultData rnd hash w)) = problems (store w)
  ∧ now (initializeDefaultData rnd hash w) = now w.
Proof.
  unfold initializeDefaultData.
  match goal with |- context [snd (?c w)] => destruct (c w) as [r w'] eqn:E end.
  simpl. revert E. apply bind_problems.
  { by intros r1 w1 [= <- <-]. }
  intros w0 w1 r2 w2. apply bind_problems.
  { intros r1 w3. destruct (_ =? 0); [apply insertMany_problems|].
    by intros [= <- <-]. }
  intros _ w3 r3 w4. apply bind_problems.
  { by intros r1 w5 [= <- <-]. }
  intros w5 w6 r4 w7.
  destruct (List.find _ _); [by intros [= <- <-]|].
  unfold save_user. run_handler. by intros [= <- <-].
Qed.

Lemma clock_ahead_step w w' : step w w' → clock_ahead w → clock_ahead w'.
Proof.
  intros Hstep Hc. destruct Hstep.
  - intros x Hx. simpl in *. apply Hc in Hx. lia.
  - by apply clock_ahead_post_problem.
  - by apply clock_ahead_put_problem_status.
  - destruct (post_ward b w) as [r w'] eqn:E.
    apply post_ward_problems in E as [Hp Hn].
    intros x Hx. simpl in *. rewrite Hp in Hx. rewrite Hn. by apply Hc.
  - destruct (put_ward param patch w) as [r w'] eqn:E.
    apply put_ward_problems in E as [Hp Hn].
    intros x Hx. simpl in *. rewrite Hp in Hx. rewrite Hn. by apply Hc.
  - exact Hc.
  - exact Hc.
  - destruct (initializeDefaultData_problems rnd hash w) as [Hp Hn].
    intros x Hx. rewrite Hp in Hx. rewrite Hn. by apply Hc.
Qed.

(** In every world the server reaches from a store without problems, no
    stored problem is dated after the clock. *)
Lemma reachable_clock_ahead w : reachable w → clock_ahead w.
Proof.
  induction 1 as [w Hempty|w w' _ IH Hstep].
  - intros x Hx. rewrite Hempty in Hx. by apply elem_of_nil in Hx.
  - by apply (clock_ahead_step w).
Qed.

(** * Further properties of the code *)

(** ** Socket handlers *)

(** X1. The listener of [problem-status-update].  Sent without data (or
    with [null]) it raises an exception that nothing catches, before
    anything is published: the bus and the store are as they were when the
    process ends.  Sent with data it returns, and the data is forwarded as
    [problem-updated], untouched, to every session in the room of the ward
    number the client put in the data, once each, and to no other session;
    the sender and its own membership play no part, the store is not
    consulted and room membership is left as it was; a session that joined
    the ward under any value that reads the same, the string ["3"] for the
    number 3, receives the event. *)
Theorem client_broadcast_forwarded (sender sid : SessionId) (data : UpdateArg)
    (w : World) :
  match data with
  | NoData => socket_listener sender (ProblemStatusUpdate NoData) w = (Thrown, w)
  | Data wardNumber rest =>
      ∃ w',
        socket_listener sender (ProblemStatusUpdate data) w = (Val tt, w')
        ∧ (∀ sender', socket_listener sender' (ProblemStatusUpdate data) w
                      = (Val tt, w'))
        ∧ store w' = store w
        ∧ trace w' = trace w
        ∧ rooms (bus w') = rooms (bus w)
        ∧ inbox (bus w') sid
          = inbox (bus w) sid
            ++ (if bool_decide (sid ∈ members (bus w) (ward_room_of wardNumber))
                then [client_event wardNumber rest] else [])
        ∧ (∀ v, Js.template v = Js.template wardNumber →
                inbox (bus (socket_listener sender (ProblemStatusUpdate data)
                              (socket_listener sid (JoinWard v) w).2).2) sid
                = inbox (bus w) sid ++ [client_event wardNumber rest])
  end.
Proof.
  destruct data as [|wardNumber rest]; [reflexivity|].
  eexists. split; [reflexivity|]. split; [reflexivity|].
  cbn [socket_listener modify snd on_socket with_bus store trace bus].
  split; [done|]. split; [done|]. split; [done|].
  split; [apply inbox_io_to_emit|].
  intros v Hv. rewrite inbox_io_to_emit.
  assert (ward_room_of v = ward_room_of wardNumber) as Hroom
    by (unfold ward_room_of; by rewrite Hv).
  rewrite Hroom.
  assert (sid ∈ members (socket_join sid (ward_room_of wardNumber) (bus w))
                  (ward_room_of wardNumber)) as Hin.
  { rewrite members_join, bool_decide_eq_true_2 by done.
    apply elem_of_union. left. by apply elem_of_singleton. }
  by rewrite (bool_decide_eq_true_2 _ Hin).
Qed.

Lemma socket_join_idem sid room b :
  socket_join sid room (socket_join sid room b) = socket_join sid room b.
Proof.
  unfold socket_join at 1.
  rewrite members_join, bool_decide_eq_true_2 by done.
  unfold socket_join. simpl. rewrite insert_insert_eq.
  f_equal. f_equal. apply set_eq. intros x.
  rewrite !elem_of_union. tauto.
Qed.

(** X2. After [join-ward] the session is in the room of that ward and the
    next publication there reaches it exactly once; joining again changes
    nothing, joining writes nothing to any connection, and the other rooms
    keep their members.  A ward number sent as the string ["3"] and as the
    number 3 name the same room. *)
Theorem join_ward_subscribes (sid : SessionId) (v : Js.value) (ev : Event)
    (b : Bus) :
  let b1 := on_socket sid (JoinWard v) b in
  sid ∈ members b1 (ward_room_of v)
  ∧ on_socket sid (JoinWard v) b1 = b1
  ∧ delivered b1 = delivered b
  ∧ inbox (io_to_emit (ward_room_of v) ev b1) sid = inbox b sid ++ [ev]
  ∧ (∀ room, room ≠ ward_room_of v → members b1 room = members b room)
  ∧ (∀ n : Z, ward_room_of (Js.VStr (pretty n)) = ward_room n).
Proof.
  intros b1. unfold b1. simpl.
  assert (sid ∈ members (socket_join sid (ward_room_of v) b) (ward_room_of v)) as Hin.
  { rewrite members_join, bool_decide_eq_true_2 by done.
    apply elem_of_union. left. by apply elem_of_singleton. }
  split; [exact Hin|]. split; [apply socket_join_idem|]. split; [done|].
  split.
  { rewrite inbox_io_to_emit, bool_decide_eq_true_2 by done. done. }
  split; [|done].
  intros room Hne. rewrite members_join, bool_decide_eq_false_2 by done. done.
Qed.

(** ** Pagination *)

Lemma chunks_concat {A} (n k : nat) (l : list A) :
  (List.length l ≤ k * n)%nat →
  List.concat ((λ i, take n (drop (i * n) l)) <$> seq 0 k) = l.
Proof.
  revert l. induction k as [|k IH]; intros l Hl.
  - destruct l; [done|]. simpl in Hl. lia.
  - simpl. rewrite <- fmap_S_seq, <- list_fmap_compose.
    rewrite (list_fmap_ext _ (λ i, take n (drop (i * n) (drop n l)))).
    + rewrite IH; [apply take_drop|]. rewrite length_drop. lia.
    + intros i x _. simpl. by rewrite drop_drop.
Qed.

Lemma cursor_page {A} (page limit : Z) (xs : list A) :
  1 ≤ page → 1 ≤ limit →
  cursor ((page - 1) * limit) (limit * 1) xs
  = Some (take (Z.to_nat limit) (drop (Z.to_nat (page - 1) * Z.to_nat limit) xs)).
Proof.
  intros Hp Hl. unfold cursor.
  destruct (Z.ltb_spec ((page - 1) * limit) 0); [nia|].
  destruct (Z.eqb_spec (limit * 1) 0); [lia|].
  do 3 f_equal; [lia|]. rewrite <- Z2Nat.inj_mul by lia. done.
Qed.

Lemma countDocuments_sorted q ps :
  countDocuments q ps
  = Z.of_nat (List.length (sort_newest (filter (λ p, matches q p = true) ps))).
Proof.
  unfold countDocuments, sort_newest. by rewrite merge_sort_Permutation.
Qed.

Lemma ceil_div_bounds (total limit : Z) :
  0 ≤ total → 1 ≤ limit →
  ∃ pages, Js.ceil_div total limit = Some pages
           ∧ 0 ≤ pages ∧ total ≤ pages * limit < total + limit.
Proof.
  intros Ht Hl. unfold Js.ceil_div.
  destruct (Z.eqb_spec limit 0); [lia|]. eexists. split; [done|].
  pose proof (Z.div_mod (- total) limit ltac:(lia)) as Hdm.
  pose proof (Z.mod_pos_bound (- total) limit ltac:(lia)) as Hmod.
  nia.
Qed.

(** X3. Paging through [GET /api/problems] as an actor that is not an admin,
    with a limit of at least 1: page [i] is the [i]-th run of [limit]
    records of the actor's ward that match the filters, newest first;
    [totalPages] is the least number of pages that holds them all; the pages
    1 to [totalPages] put end to end are exactly those records, each once;
    and every page after the last is empty. *)
Theorem listing_pages_partition (user : User) (q : ListQuery) (limit : Z)
    (w : World) :
  is_admin user = false →
  1 ≤ limit →
  let query := mkQuery (Some (user_wardNumber user)) (if_truthy (lq_status q))
                 (if_truthy (lq_category q)) in
  let selected := sort_newest (filter (λ p, matches query p = true)
                                 (problems (store w))) in
  let total := Z.of_nat (List.length selected) in
  let answer (i : Z) := (get_problems user (at_page q i limit) w).1 in
  ∃ pages : Z,
    0 ≤ pages ∧ total ≤ pages * limit < total + limit
    ∧ (∀ i, 1 ≤ i →
         answer i
         = mkResponse 200
             (ProblemPage
                (populate true true (users (store w))
                   <$> take (Z.to_nat limit)
                         (drop (Z.to_nat (i - 1) * Z.to_nat limit) selected))
                (Some pages) i total))
    ∧ List.concat ((λ i, disclosed (answer i)) <$> seqZ 1 pages) = selected
    ∧ (∀ i, pages < i → disclosed (answer i) = []).
Proof.
  intros Ha Hl query selected total answer.
  destruct (ceil_div_bounds total limit) as (pages & Hpages & H0 & Hb);
    [lia|done|].
  assert (∀ i, 1 ≤ i →
            answer i
            = mkResponse 200
                (ProblemPage
                   (populate true true (users (store w))
                      <$> take (Z.to_nat limit)
                            (drop (Z.to_nat (i - 1) * Z.to_nat limit) selected))
                   (Some pages) i total)) as Hanswer.
  { intros i Hi. unfold answer. rewrite get_problems_resident by done.
    unfold try_catch. simpl.
    pose proof (list_page_spec query i limit w) as Hspec.
    rewrite cursor_page in Hspec by done. fold query. rewrite Hspec. simpl.
    rewrite countDocuments_sorted. fold selected total. by rewrite Hpages. }
  assert (∀ i, 1 ≤ i →
            disclosed (answer i)
            = take (Z.to_nat limit)
                (drop (Z.to_nat (i - 1) * Z.to_nat limit) selected)) as Hdis.
  { intros i Hi. rewrite Hanswer by done. unfold disclosed. simpl.
    apply doc_populate. }
  exists pages. split; [done|]. split; [done|]. split; [done|]. split.
  - unfold seqZ. rewrite <- list_fmap_compose.
    rewrite (list_fmap_ext _ (λ i : nat, take (Z.to_nat limit)
               (drop (i * Z.to_nat limit) selected))).
    + apply chunks_concat. unfold total in Hb. nia.
    + intros i x _. simpl. rewrite Hdis by lia. do 2 f_equal.
      f_equal. lia.
  - intros i Hi. rewrite Hdis by lia.
    rewrite drop_ge; [by rewrite take_nil|]. unfold total in Hb. nia.
Qed.

Lemma listing_pages_partition_witness :
  (get_problems resident3 (at_page no_query 1 1) sample_world).1
  = mkResponse 200
      (ProblemPage [populate true true (users sample_store) problem_a]
         (Some 1) 1 1)
  ∧ disclosed (get_problems resident3 (at_page no_query 2 1) sample_world).1 = [].
Proof.
  destruct (listing_pages_partition resident3 no_query 1 sample_world)
    as (pages & _ & Hb & Hpage & _ & Hlast); [reflexivity|lia|].
  match type of Hb with
  | ?t ≤ _ < _ => assert (t = 1) as Ht by (vm_compute; reflexivity);
                  rewrite Ht in Hb
  end.
  assert (pages = 1) as -> by lia.
  split.
  - rewrite Hpage by lia. vm_compute. reflexivity.
  - apply Hlast. lia.
Defined.

(** ** Single fetch and admin listing *)

(** X4. [GET /api/problems/:id] answers 500 when the parameter is no
    ObjectId (the cast of [findById] fails and the [catch] of the handler
    answers), 404 when it is one that no problem has, and 200 with the
    stored document, references resolved, when the actor is an admin or the
    problem is of the actor's own ward; it never writes. *)
Theorem single_fetch_found_or_missing (user : User) (id : IdParam) (w : World) :
  (get_problem user id w).2 = w
  ∧ match id with
    | NotAnId =>
        (get_problem user id w).1
        = mkResponse 500 (Message "Server error while fetching problem")
    | IdOf i =>
        (findById i (problems (store w)) = None →
         (get_problem user id w).1 = mkResponse 404 (Message "Problem not found"))
        ∧ (∀ problem,
             findById i (problems (store w)) = Some problem →
             is_admin user = true ∨ wardNumber problem = user_wardNumber user →
             (get_problem user id w).1
             = mkResponse 200
                 (OneProblem (populate true true (users (store w)) problem)))
    end.
Proof.
  unfold get_problem. destruct id as [i|]; [|done]. run_handler.
  destruct (findById i (problems (store w))) as [problem|] eqn:Hf; simpl.
  - destruct (negb (is_admin user)
              && negb (wardNumber problem =? user_wardNumber user)) eqn:Hd; simpl.
    + split; [done|]. split; [done|]. intros ? [= <-] [Ha|Hw].
      * by rewrite Ha in Hd.
      * rewrite Hw, Z.eqb_refl, andb_false_r in Hd. done.
    + split; [done|]. split; [done|]. by intros ? [= <-] _.
  - split; [done|]. split; [done|]. done.
Qed.

Lemma single_fetch_found_or_missing_witness :
  (get_problem admin1 2 sample_world).1
  = mkResponse 200 (OneProblem (populate true true (users sample_store) problem_b))
  ∧ (get_problem resident3 7 sample_world).1
    = mkResponse 404 (Message "Problem not found")
  ∧ (get_problem resident3 NotAnId sample_world).1
    = mkResponse 500 (Message "Server error while fetching problem").
Proof.
  split; [|split].
  - apply (proj2 (single_fetch_found_or_missing admin1 2%N sample_world));
      [reflexivity | by left].
  - apply (proj2 (single_fetch_found_or_missing resident3 7%N sample_world)).
    reflexivity.
  - apply (proj2 (single_fetch_found_or_missing resident3 NotAnId sample_world)).
Defined.

Lemma get_problems_admin_all user q w :
  is_admin user = true → Js.truthy (lq_wardNumber q) = false →
  get_problems user q w
  = try_catch (list_page (mkQuery None (if_truthy (lq_status q))
                            (if_truthy (lq_category q)))
                 (default 1 (lq_page q)) (default 10 (lq_limit q)))
      "Server error while fetching problems" w.
Proof.
  intros Ha Ht. unfold get_problems, try_catch, bind. rewrite Ha, Ht. done.
Qed.

Lemma get_problems_admin_ward user q n w :
  is_admin user = true → Js.truthy (lq_wardNumber q) = true →
  Js.parseInt (default "" (lq_wardNumber q)) = Some n →
  get_problems user q w
  = try_catch (list_page (mkQuery (Some n) (if_truthy (lq_status q))
                            (if_truthy (lq_category q)))
                 (default 1 (lq_page q)) (default 10 (lq_limit q)))
      "Server error while fetching problems" w.
Proof.
  intros Ha Ht Hp. unfold get_problems, try_catch, bind. rewrite Ha, Ht, Hp. done.
Qed.

(** X5. For an admin, [GET /api/problems] is scoped by the query alone: with
    no [wardNumber] (or an empty one) it selects over all wards, with one
    that [parseInt] reads as [n] it discloses records of ward [n] only, and
    with one that [parseInt] cannot read it answers 500; it never writes. *)
Theorem admin_listing_scope (user : User) (q : ListQuery) (w : World) :
  is_admin user = true →
  (get_problems user q w).2 = w
  ∧ (Js.truthy (lq_wardNumber q) = false →
     0 ≤ (default 1 (lq_page q) - 1) * default 10 (lq_limit q) →
     ∃ found,
       cursor ((default 1 (lq_page q) - 1) * default 10 (lq_limit q))
         (default 10 (lq_limit q) * 1)
         (sort_newest
            (filter (λ p, matches (mkQuery None (if_truthy (lq_status q))
                                     (if_truthy (lq_category q))) p = true)
               (problems (store w)))) = Some found
       ∧ disclosed (get_problems user q w).1 = found
       ∧ code (get_problems user q w).1 = 200)
  ∧ (∀ n, Js.truthy (lq_wardNumber q) = true →
          Js.parseInt (default "" (lq_wardNumber q)) = Some n →
          ∀ p, p ∈ disclosed (get_problems user q w).1 → wardNumber p = n)
  ∧ (Js.truthy (lq_wardNumber q) = true →
     Js.parseInt (default "" (lq_wardNumber q)) = None →
     (get_problems user q w).1
     = mkResponse 500 (Message "Server error while fetching problems")).
Proof.
  intros Ha.
  destruct (Js.truthy (lq_wardNumber q)) eqn:Ht.
  - destruct (Js.parseInt (default "" (lq_wardNumber q))) as [n|] eqn:Hp.
    + rewrite (get_problems_admin_ward user q n w) by done.
      destruct (ward_scoped_listing n (if_truthy (lq_status q))
                  (if_truthy (lq_category q)) (default 1 (lq_page q))
                  (default 10 (lq_limit q))
                  "Server error while fetching problems" w)
        as (Hw & _ & Hd & _).
      split; [exact Hw|]. split; [done|]. split; [|done].
      intros n' _ [= <-] p Hin. by apply Hd.
    + assert (get_problems user q w
              = (mkResponse 500 (Message "Server error while fetching problems"), w))
        as ->.
      { unfold get_problems, try_catch, bind. rewrite Ha, Ht, Hp. done. }
      split; [done|]. split; [done|]. split; [done|]. done.
  - rewrite (get_problems_admin_all user q w) by done. unfold try_catch.
    pose proof (list_page_spec (mkQuery None (if_truthy (lq_status q))
                                  (if_truthy (lq_category q)))
                  (default 1 (lq_page q)) (default 10 (lq_limit q)) w) as Hspec.
    destruct (cursor _ _ _) as [found|] eqn:Hc; rewrite Hspec; simpl.
    + split; [done|]. split; [|done]. intros _ _. exists found.
      split; [done|]. split; [|done]. unfold disclosed. simpl. apply doc_populate.
    + split; [done|]. split; [|done]. intros _ Hs.
      destruct (cursor_is_Some ((default 1 (lq_page q) - 1) * default 10 (lq_limit q))
                  (default 10 (lq_limit q) * 1)
                  (sort_newest
                     (filter (λ p, matches (mkQuery None (if_truthy (lq_status q))
                                              (if_truthy (lq_category q))) p = true)
                        (problems (store w)))) Hs) as [x Hx].
      congruence.
Qed.

Lemma admin_listing_scope_witness :
  disclosed (get_problems admin1 no_query sample_world).1 = [problem_b; problem_a]
  ∧ (get_problems admin1 (mkListQuery None None (Some "ward") None None)
       sample_world).1
    = mkResponse 500 (Message "Server error while fetching problems").
Proof.
  split.
  - destruct (admin_listing_scope admin1 no_query sample_world eq_refl)
      as (_ & Hall & _).
    destruct Hall as (found & Hc & Hd & _); [reflexivity|vm_compute; discriminate|].
    rewrite Hd. vm_compute in Hc. by injection Hc as <-.
  - apply (admin_listing_scope admin1 (mkListQuery None None (Some "ward") None None)
             sample_world eq_refl); reflexivity.
Defined.

(** ** What the routes on problems do to the collection *)

Lemma findById_replace_ne id p ps :
  _id p ≠ id → findById id (replace_problem p ps) = findById id ps.
Proof.
  intros Hne. unfold findById, replace_problem.
  induction ps as [|q ps IH]; simpl; [done|].
  destruct (N.eqb_spec (_id q) (_id p)) as [E|E]; simpl.
  - destruct (N.eqb_spec (_id p) id); [done|].
    destruct (N.eqb_spec (_id q) id); [congruence|]. apply IH.
  - destruct (_id q =? id)%N; [done|apply IH].
Qed.

Lemma ids_replace_problem p ps : _id <$> replace_problem p ps = _id <$> ps.
Proof.
  unfold replace_problem. rewrite <- list_fmap_compose.
  apply list_fmap_ext. intros i q _. simpl.
  destruct (N.eqb_spec (_id q) (_id p)); done.
Qed.

Lemma findById_app_old id ps p x :
  findById id ps = Some p → findById id (ps ++ [x]) = Some p.
Proof.
  unfold findById. induction ps as [|q ps IH]; simpl; [done|].
  destruct (_id q =? id)%N; [done|apply IH].
Qed.

Lemma findById_None_fresh w :
  ids_ok w → findById (next_id w) (problems (store w)) = None.
Proof.
  intros [_ Hlt]. destruct (findById _ _) as [p|] eqn:E; [|done].
  apply findById_id in E as Hid. apply findById_elem, Hlt in E. lia.
Qed.

Lemma validate_problem_ward p :
  validate_problem p = true → 1 ≤ wardNumber p ≤ 50.
Proof.
  unfold validate_problem. intros H.
  repeat match goal with H : _ && _ = true |- _ => apply andb_prop in H as [H ?] end.
  lia.
Qed.

Lemma validate_problem_status p :
  validate_problem p = true → isIn (status p) statuses = true.
Proof.
  unfold validate_problem. intros H.
  repeat match goal with H : _ && _ = true |- _ => apply andb_prop in H as [H ?] end.
  done.
Qed.

Lemma save_loaded_valid p p' w w' :
  save false p w = (Val p', w') → validate_problem p' = true.
Proof.
  unfold save. run_handler.
  destruct (validate_problem p) eqn:Hv; simpl; [|done].
  destruct (findById (_id p) (problems (store w))) as [old|]; simpl; [|done].
  intros [= <- _]. by case_bool_decide.
Qed.

(** One invocation of [POST /api/problems] on the store. *)
Lemma post_problem_world user b w r w' :
  post_problem user b w = (r, w') →
  wards (store w') = wards (store w)
  ∧ users (store w') = users (store w)
  ∧ (next_id w ≤ next_id w')%N
  ∧ (problems (store w') = problems (store w)
     ∨ ∃ p, problems (store w') = problems (store w) ++ [p]
            ∧ _id p = next_id w
            ∧ next_id w' = N.succ (next_id w)
            ∧ validate_problem p = true
            ∧ findById (next_id w) (problems (store w)) = None).
Proof.
  unfold post_problem.
  destruct (is_nil (validate_post_problem b)) eqn:Hv; run_handler.
  2:{ intros [= <- <-]. repeat split; try done. by left. }
  unfold new_Problem, save. run_handler.
  match goal with |- context [validate_problem ?d] =>
    destruct (validate_problem d) eqn:Hs end; simpl.
  2:{ intros [= <- <-]. simpl. repeat split; try done; [lia|by left]. }
  destruct (findById (next_id w) (problems (store w))) eqn:Hf; simpl.
  { intros [= <- <-]. simpl. repeat split; try done; [lia|by left]. }
  intros [= <- <-]. simpl. repeat split; try done; [lia|].
  right. eexists. split; [reflexivity|]. simpl. repeat split; try done.
Qed.

Lemma kept_by_update_refl p : kept_by_update p p.
Proof. by repeat split. Qed.

Lemma kept_by_update_trans p q r :
  kept_by_update p q → kept_by_update q r → kept_by_update p r.
Proof. unfold kept_by_update. intros H1 H2. intuition congruence. Qed.

Lemma kept_by_updateStatus_assign st notes d p :
  kept_by_update p (updateStatus_assign st notes d p).
Proof.
  unfold updateStatus_assign, kept_by_update.
  destruct (Js.truthy notes), (String.eqb st "Resolved" || String.eqb st "Closed");
    done.
Qed.

Lemma replace_replace p q ps :
  _id q = _id p →
  replace_problem q (replace_problem p ps) = replace_problem q ps.
Proof.
  intros Hid. unfold replace_problem. rewrite <- list_fmap_compose.
  apply list_fmap_ext. intros i x _. simpl.
  destruct (N.eqb_spec (_id x) (_id p)) as [E|E].
  - rewrite E, Hid, N.eqb_refl. done.
  - done.
Qed.

(** One invocation of [PUT /api/problems/:id/status] on the store: nothing
    but the problem with the id is ever written, and what is written went
    through the schema. *)
Lemma put_problem_status_world (id : IdParam) sb w r w' :
  put_problem_status id sb w = (r, w') →
  wards (store w') = wards (store w)
  ∧ users (store w') = users (store w)
  ∧ next_id w' = next_id w
  ∧ (problems (store w') = problems (store w)
     ∨ ∃ i problem p',
         id = IdOf i
         ∧ findById i (problems (store w)) = Some problem
         ∧ kept_by_update problem p'
         ∧ validate_problem p' = true
         ∧ problems (store w') = replace_problem p' (problems (store w))).
Proof.
  unfold put_problem_status, try_catch.
  destruct (is_nil (validate_put_status sb)); simpl.
  2:{ intros [= <- <-]. repeat split; try done. by left. }
  destruct id as [i|].
  2:{ intros [= <- <-]. repeat split; try done. by left. }
  unfold bind at 1. unfold Problem_findById, bind at 1, get_world at 1, ret at 1.
  destruct (findById i (problems (store w))) as [problem|] eqn:Hf.
  2:{ intros [= <- <-]. repeat split; try done. by left. }
  unfold bind at 1. unfold updateStatus at 1. unfold bind at 1, get_world at 1.
  set (p0 := updateStatus_assign (sb_status sb) (sb_adminNotes sb) (now w) problem).
  destruct (save_loaded_cases p0 w) as [E1|(p1 & old & Hold & Hp1 & E1)]; rewrite E1.
  { intros [= <- <-]. repeat split; try done. by left. }
  pose proof (save_loaded_valid _ _ _ _ E1) as Hv1.
  assert (kept_by_update problem p1) as Hk1.
  { eapply kept_by_update_trans; [apply kept_by_updateStatus_assign|].
    fold p0. subst p1. case_bool_decide; [apply kept_by_update_refl|done]. }
  set (w1 := mkWorld _ _ _ _ _) in *.
  destruct (sb_assignedTo sb) as [[a|]|].
  - unfold bind at 1.
    destruct (save_loaded_cases (set_assignedTo (Some a) p1) w1)
      as [E2|(p2 & old2 & Hold2 & Hp2 & E2)]; rewrite E2.
    { intros [= <- <-]. simpl. repeat split; try done.
      right. by exists i, problem, p1. }
    pose proof (save_loaded_valid _ _ _ _ E2) as Hv2.
    assert (kept_by_update p1 p2) as Hk2.
    { subst p2. case_bool_decide; done. }
    unfold bind, get_world, emit, modify, ret. simpl.
    intros [= <- <-]. simpl. repeat split; try done.
    right. exists i, problem, p2. split; [done|]. split; [done|].
    split; [by eapply kept_by_update_trans|]. split; [done|].
    apply replace_replace. by destruct Hk2.
  - unfold bind at 1, throw at 1.
    intros [= <- <-]. simpl. repeat split; try done.
    right. by exists i, problem, p1.
  - unfold bind, get_world, emit, modify, ret. simpl.
    intros [= <- <-]. simpl. repeat split; try done.
    right. by exists i, problem, p1.
Qed.

(** ** Invariants of the Problem collection *)

Lemma bind_rel {A B} (R : World → World → Prop) (m : M A) (k : A → M B) w r w' :
  (∀ x y z, R x y → R y z → R x z) →
  (∀ r1 w1, m w = (r1, w1) → R w w1) →
  (∀ a w1 r2 w2, k a w1 = (r2, w2) → R w1 w2) →
  bind m k w = (r, w') → R w w'.
Proof.
  intros Htrans Hm Hk. unfold bind.
  destruct (m w) as [[a|r1|] w1] eqn:E; pose proof (Hm _ _ eq_refl) as H1.
  - intros E'. apply Hk in E'. by eapply Htrans.
  - by intros [= <- <-].
  - by intros [= <- <-].
Qed.

Lemma post_ward_next_id b w r w' :
  post_ward b w = (r, w') → next_id w' = next_id w.
Proof.
  unfold post_ward, try_catch.
  destruct (is_nil (validate_post_ward b)); simpl; [|by intros [= <- <-]].
  unfold bind at 1. destruct (wb_wardNumber b) as [n|]; simpl;
    [|by intros [= <- <-]].
  unfold bind at 1, get_world at 1.
  destruct (find_ward n (wards (store w))); [by intros [= <- <-]|].
  unfold bind at 1, insert_ward, bind at 1, get_world at 1.
  destruct (validate_ward _); simpl; [|by intros [= <- <-]].
  destruct (find_ward _ _); by intros [= <- <-].
Qed.

Lemma put_ward_next_id param patch w r w' :
  put_ward param patch w = (r, w') → next_id w' = next_id w.
Proof.
  unfold put_ward, try_catch.
  destruct (is_nil (validate_put_ward patch)); simpl; [|by intros [= <- <-]].
  unfold bind at 1. destruct (Js.parseInt param) as [n|]; simpl;
    [|by intros [= <- <-]].
  unfold bind at 1, findOneAndUpdate, bind at 1, get_world at 1.
  destruct (validate_patch patch); simpl; [|by intros [= <- <-]].
  destruct (find_ward n (wards (store w))) as [old|]; [|by intros [= <- <-]].
  destruct (negb _ && _); by intros [= <- <-].
Qed.

Lemma insertMany_next_id docs w r w' :
  insertMany docs w = (r, w') → next_id w' = next_id w.
Proof.
  unfold insertMany.
  destruct (forallb validate_ward docs); simpl; [|by intros [= <- <-]].
  revert w r w'. induction docs as [|d docs IH]; intros w r w'; simpl.
  - by intros [= <- <-].
  - apply (bind_rel (λ x y, next_id y = next_id x)).
    + intros x y z. congruence.
    + intros r1 w1. unfold insert_ward. run_handler.
      destruct (validate_ward d); simpl; [|by intros [= <- <-]].
      destruct (find_ward _ _); by intros [= <- <-].
    + intros _ w1 r2 w2. apply IH.
Qed.

Lemma initializeDefaultData_next_id rnd hash w :
  (next_id w ≤ next_id (initializeDefaultData rnd hash w))%N.
Proof.
  unfold initializeDefaultData.
  match goal with |- context [snd (?c w)] => destruct (c w) as [r w'] eqn:E end.
  simpl. revert E.
  apply (bind_rel (λ x y, (next_id x ≤ next_id y)%N)).
  { intros x y z. lia. }
  { by intros r1 w1 [= <- <-]. }
  intros w0 w1 r2 w2.
  apply (bind_rel (λ x y, (next_id x ≤ next_id y)%N)).
  { intros x y z. lia. }
  { intros r1 w3. destruct (_ =? 0).
    - intros E. apply insertMany_next_id in E. lia.
    - by intros [= <- <-]. }
  intros _ w3 r3 w4.
  apply (bind_rel (λ x y, (next_id x ≤ next_id y)%N)).
  { intros x y z. lia. }
  { by intros r1 w5 [= <- <-]. }
  intros w5 w6 r4 w7.
  destruct (List.find _ _); [by intros [= <- <-]|].
  unfold save_user. run_handler. intros [= <- <-]. simpl. lia.
Qed.

(** What a step does to the problems: nothing, one appended under a fresh
    id, or the one with a given id written over. *)
Lemma step_problems w w' :
  step w w' →
  (next_id w ≤ next_id w')%N
  ∧ (problems (store w') = problems (store w)
     ∨ (∃ p, problems (store w') = problems (store w) ++ [p]
             ∧ _id p = next_id w
             ∧ next_id w' = N.succ (next_id w)
             ∧ validate_problem p = true
             ∧ findById (next_id w) (problems (store w)) = None)
     ∨ (∃ id problem p',
          findById id (problems (store w)) = Some problem
          ∧ kept_by_update problem p'
          ∧ validate_problem p' = true
          ∧ problems (store w') = replace_problem p' (problems (store w)))).
Proof.
  destruct 1.
  - split; [done|]. by left.
  - destruct (post_problem user b w) as [r w'] eqn:E.
    apply post_problem_world in E as (_ & _ & Hn & [Hp|Hp]); simpl.
    + split; [done|]. by left.
    + split; [done|]. right. by left.
  - destruct (put_problem_status id sb w) as [r w'] eqn:E.
    apply put_problem_status_world in E
      as (_ & _ & Hn & [Hp|(i & pr & p' & _ & Hp)]); simpl.
    + split; [lia|]. by left.
    + split; [lia|]. right. right. by exists i, pr, p'.
  - destruct (post_ward b w) as [r w'] eqn:E.
    apply post_ward_next_id in E as Hn. apply post_ward_problems in E as [Hp _].
    simpl. split; [lia|]. by left.
  - destruct (put_ward param patch w) as [r w'] eqn:E.
    apply put_ward_next_id in E as Hn. apply put_ward_problems in E as [Hp _].
    simpl. split; [lia|]. by left.
  - split; [done|]. by left.
  - split; [done|]. by left.
  - split; [apply initializeDefaultData_next_id|].
    left. apply initializeDefaultData_problems.
Qed.

(** X6. No step of the server removes a problem or changes its [wardNumber],
    [reportedBy], creation time, title, description, category, priority,
    location or images: a problem found under an id before the step is found
    under it afterwards with these fields as they were. *)
Theorem problems_keep_ward_and_reporter (w w' : World) (id : ObjectId)
    (p : Problem) :
  step w w' →
  findById id (problems (store w)) = Some p →
  ∃ p', findById id (problems (store w')) = Some p' ∧ kept_by_update p p'.
Proof.
  intros Hstep Hf.
  apply step_problems in Hstep
    as (_ & [Hp|[(x & Hp & _)|(id0 & pr & p' & Hpr & Hk & _ & Hp)]]);
    rewrite Hp.
  - exists p. split; [done|apply kept_by_update_refl].
  - exists p. split; [by apply findById_app_old|apply kept_by_update_refl].
  - assert (_id p' = id0) as Hid.
    { destruct Hk as [Hid _]. rewrite Hid. by apply findById_id in Hpr. }
    destruct (decide (id = id0)) as [->|Hne].
    + exists p'. rewrite Hpr in Hf. injection Hf as <-. split; [|done].
      rewrite <- Hid. apply findById_replace. rewrite Hid. by eexists.
    + exists p. split; [|apply kept_by_update_refl].
      rewrite findById_replace_ne; [done|congruence].
Qed.

Lemma problems_keep_ward_and_reporter_witness :
  ∃ p', findById 1 (problems (store (put_problem_status 1
                        (mkStatusBody "Closed" None (Some (IdOf 100)))
                        sample_world).2))
        = Some p'
        ∧ wardNumber p' = 3 ∧ reportedBy p' = 101%N.
Proof.
  destruct (problems_keep_ward_and_reporter sample_world _ 1 problem_a
              (step_put_problem_status sample_world (IdOf 1)
                 (mkStatusBody "Closed" None (Some (IdOf 100)))) eq_refl)
    as (p' & Hf & Hk).
  exists p'. split; [exact Hf|].
  destruct Hk as (_&_&_&_&_&Hr&Hw&_). split; [exact Hw|exact Hr].
Defined.

Lemma ids_ok_step w w' : step w w' → ids_ok w → ids_ok w'.
Proof.
  intros Hstep [Hnd Hlt].
  apply step_problems in Hstep
    as (Hn & [Hp|[(x & Hp & Hx & Hn' & _)|(id0 & pr & p' & Hpr & Hk & _ & Hp)]]);
    unfold ids_ok; rewrite Hp.
  - split; [done|]. intros p Hin. apply Hlt in Hin. lia.
  - split.
    + rewrite fmap_app. apply NoDup_app. split; [done|]. split.
      * intros i Hi Hi'. apply list_elem_of_singleton in Hi'. subst i.
        apply list_elem_of_fmap in Hi as (q & Hq & Hin). apply Hlt in Hin. simpl in Hq. lia.
      * apply NoDup_singleton.
    + intros p Hin. apply elem_of_app in Hin as [Hin|Hin].
      * apply Hlt in Hin. lia.
      * apply list_elem_of_singleton in Hin as ->. lia.
  - split; [by rewrite ids_replace_problem|].
    intros p Hin. apply elem_of_replace_problem in Hin as [->|Hin].
    + destruct Hk as [Hid _]. rewrite Hid.
      apply findById_elem, Hlt in Hpr. lia.
    + apply Hlt in Hin. lia.
Qed.

Lemma stored_valid_step w w' : step w w' → stored_valid w → stored_valid w'.
Proof.
  intros Hstep Hv.
  apply step_problems in Hstep
    as (_ & [Hp|[(x & Hp & _ & _ & Hx & _)|(id0 & pr & p' & _ & _ & Hv' & Hp)]]);
    unfold stored_valid; rewrite Hp.
  - done.
  - intros p Hin. apply elem_of_app in Hin as [Hin|Hin]; [by apply Hv|].
    by apply list_elem_of_singleton in Hin as ->.
  - intros p Hin. apply elem_of_replace_problem in Hin as [->|Hin];
      [done|by apply Hv].
Qed.

(** X7. In every world the server reaches from a store without problems,
    the stored problems have pairwise distinct ids, all below the id
    counter, and each passes the schema (required fields, lengths, enums,
    ward number within 1..50). *)
Theorem reachable_ids_distinct_and_valid (w : World) :
  reachable w → ids_ok w ∧ stored_valid w.
Proof.
  induction 1 as [w Hempty|w w' _ [IHi IHv] Hstep].
  - unfold ids_ok, stored_valid. rewrite Hempty. split; [split|].
    + constructor.
    + intros p Hp. by apply elem_of_nil in Hp.
    + intros p Hp. by apply elem_of_nil in Hp.
  - split; [by apply (ids_ok_step w)|by apply (stored_valid_step w)].
Qed.

Lemma reachable_ids_distinct_and_valid_witness :
  ids_ok (post_problem resident3 sample_body
            (mkWorld empty_store (mkBus ∅ []) 0 0 [])).2.
Proof.
  apply reachable_ids_distinct_and_valid.
  eapply reachable_step; [|apply step_post_problem].
  by apply reachable_start.
Defined.

(** ** [updateStatus] on a stored problem *)

Lemma reachable_stored_valid w : reachable w → stored_valid w.
Proof.
  induction 1 as [w Hempty|w w' _ IH Hstep].
  - intros p Hp. rewrite Hempty in Hp. by apply elem_of_nil in Hp.
  - by apply (stored_valid_step w).
Qed.

(** C5, as the code has it.  For a problem stored in a world the server
    reaches and a status of the enumeration: with notes that, trimmed, are
    longer than the 500 of the schema, the [save] of [updateStatus] rejects
    and nothing is written.  Otherwise [updateStatus] completes and writes
    the document back; with [Resolved] or [Closed] its [resolvedAt] becomes
    the current time, which is not before its creation; with [Open] or [In
    Progress] its [resolvedAt] stays as it was, set or not; and every field
    other than [status], [adminNotes], [resolvedAt] and the store-managed
    [updatedAt] is unchanged, [updatedAt] being renewed when a field was
    modified. *)
Theorem updateStatus_resolvedAt (newStatus : string) (notes : option string)
    (this : Problem) (w : World) :
  reachable w →
  findById (_id this) (problems (store w)) = Some this →
  isIn newStatus statuses = true →
  if notes_fit notes then
    ∃ q w',
      updateStatus newStatus notes this w = (Val q, w')
      ∧ findById (_id this) (problems (store w')) = Some q
      ∧ status q = newStatus
      ∧ adminNotes q = (if Js.truthy notes then Js.trim <$> notes else adminNotes this)
      ∧ (newStatus = "Resolved" ∨ newStatus = "Closed" →
         resolvedAt q = Some (now w) ∧ createdAt q ≤ now w)
      ∧ (newStatus = "Open" ∨ newStatus = "In Progress" →
         resolvedAt q = resolvedAt this)
      ∧ same_but_update_fields this q
      ∧ updatedAt q
        = (if bool_decide (updateStatus_assign newStatus notes (now w) this = this)
           then updatedAt this else now w)
  else updateStatus newStatus notes this w = (Thrown, w).
Proof.
  intros Hreach Hf Hs.
  pose proof (reachable_clock_ahead w Hreach) as Hclock.
  pose proof (reachable_stored_valid w Hreach this (findById_elem _ _ _ Hf)) as Hv.
  pose proof (updateStatus_assign_valid newStatus notes (now w) this Hv Hs) as Hv'.
  pose proof (updateStatus_assign_fields newStatus notes (now w) this)
    as (Hst & Hnotes & Hres & Hsame & Hupd).
  set (p0 := updateStatus_assign newStatus notes (now w) this) in *.
  assert (_id p0 = _id this) as Hid by apply id_updateStatus_assign.
  destruct (notes_fit notes).
  2:{ unfold updateStatus, save. run_handler. fold p0. by rewrite Hv'. }
  destruct (save_loaded_cases p0 w) as [E|(q & old & Hold & Hq & E)].
  { exfalso. revert E. unfold save. run_handler. rewrite Hv', Hid, Hf. done. }
  rewrite Hid, Hf in Hold. injection Hold as <-.
  exists q. eexists. split; [exact E|].
  pose proof (save_loaded_stored _ _ _ _ E) as (Hstored & Hidq & _).
  split; [by rewrite <- Hid, <- Hidq|].
  assert (createdAt q = createdAt this) as Hc.
  { subst q. destruct Hsame as (_&_&_&_&_&_&_&_&_&_&_&_&Hc).
    case_bool_decide; problem_fields; congruence. }
  assert (status q = newStatus ∧ adminNotes q = adminNotes p0
          ∧ resolvedAt q = resolvedAt p0 ∧ same_but_update_fields this q)
    as (Hst' & Hn' & Hr' & Hsame').
  { subst q. case_bool_decide; [done|].
    unfold same_but_update_fields in *. problem_fields. done. }
  split; [done|]. split; [congruence|]. split.
  { intros Hrc. rewrite Hr', Hres.
    assert (String.eqb newStatus "Resolved" || String.eqb newStatus "Closed" = true)
      as -> by (destruct Hrc as [-> | ->]; done).
    split; [done|]. rewrite Hc. by apply Hclock, (findById_elem (_id this)). }
  split.
  { intros Ho. rewrite Hr', Hres. by destruct Ho as [-> | ->]. }
  split; [done|].
  subst q. case_bool_decide as Heq; [by rewrite Heq|done].
Qed.

Lemma updateStatus_resolvedAt_witness :
  ∃ q w',
    updateStatus "Resolved" (Some " fixed ") reported_sample world_with_report
    = (Val q, w')
    ∧ resolvedAt q = Some 7
    ∧ adminNotes q = Some "fixed"
    ∧ wardNumber q = 3.
Proof.
  pose proof (updateStatus_resolvedAt "Resolved" (Some " fixed ") reported_sample
                world_with_report) as H.
  change (notes_fit (Some " fixed ")) with true in H. cbv iota in H.
  destruct H as (q & w' & E & _ & _ & Hn & Hr & _ & Hsame & _).
  - eapply reachable_step; [|apply step_tick].
    eapply reachable_step; [|apply step_post_problem].
    by apply reachable_start.
  - vm_compute. reflexivity.
  - reflexivity.
  - exists q, w'. split; [exact E|]. split; [apply Hr; by left|].
    split; [exact Hn|].
    destruct Hsame as (_&_&_&_&_&_&Hw&_). symmetry. exact Hw.
Defined.

(** C5 as the specification words it fails.  A change of status renews
    [updatedAt], which is none of the three fields named; and with notes of
    501 characters the [save] rejects, so that [updateStatus] to [Resolved]
    leaves the stored [resolvedAt] unset. *)
Lemma updateStatus_renews_updatedAt :
  (∃ q w',
     updateStatus "In Progress" None problem_a sample_world = (Val q, w')
     ∧ findById 1 (problems (store w')) = Some q
     ∧ updatedAt problem_a = 1000 ∧ updatedAt q = 5000
     ∧ ¬ same_but_status_notes_resolvedAt problem_a q)
  ∧ updateStatus "Resolved" (Some long_notes) problem_a sample_world
    = (Thrown, sample_world)
  ∧ (resolvedAt <$> findById 1 (problems (store sample_world))) = Some None.
Proof.
  split; [|split; vm_compute; reflexivity].
  eexists. eexists. split; [vm_compute; reflexivity|].
  split; [reflexivity|]. split; [reflexivity|]. split; [reflexivity|].
  intros [_ H]. vm_compute in H. discriminate.
Qed.

(** ** Outcomes of the two writing routes on problems *)

Lemma validate_nonempty_errors {A} (l : list A) : l ≠ [] → is_nil l = false.
Proof. by destruct l. Qed.

Lemma post_problem_ok user b w :
  findById (next_id w) (problems (store w)) = None →
  validate_post_problem b = [] →
  within_problem_schema user b = true →
  ∃ w',
    post_problem user b w
    = (mkResponse 201
         (MessageProblem "Problem reported successfully"
            (populate true false (users (store w)) (reported_problem user b w))),
       w')
    ∧ problems (store w') = problems (store w) ++ [reported_problem user b w]
    ∧ users (store w') = users (store w).
Proof.
  intros Hf Hv Hw. unfold post_problem. rewrite Hv. run_handler.
  unfold new_Problem, save. run_handler.
  rewrite valid_body_valid_document, Hw by done. simpl.
  rewrite Hf. simpl.
  unfold reported_problem. rewrite !trim_idem.
  assert ((if Js.truthy (pb_priority b) then default "" (pb_priority b)
           else "Medium") = default "Medium" (pb_priority b)) as ->.
  { unfold validate_post_problem in Hv.
    repeat (apply app_nil in Hv as [_ Hv]). apply check_nil in Hv.
    destruct (pb_priority b) as [pr|]; simpl; [|done].
    by rewrite (isIn_nonempty pr priorities). }
  eexists. split; [reflexivity|]. done.
Qed.

(** A request answered 201 passed the chain and the schema, and found its
    id free. *)
Lemma post_problem_201 user b w :
  code (post_problem user b w).1 = 201 →
  validate_post_problem b = []
  ∧ within_problem_schema user b = true
  ∧ findById (next_id w) (problems (store w)) = None.
Proof.
  unfold post_problem.
  destruct (validate_post_problem b) as [|e es] eqn:Hv; run_handler; [|done].
  unfold new_Problem, save. run_handler.
  rewrite valid_body_valid_document by done.
  destruct (within_problem_schema user b); simpl; [|done].
  destruct (findById (next_id w) (problems (store w))); simpl; done.
Qed.

(** X8. [POST /api/problems], the ids of the stored problems being below the
    id counter: a body that fails the validation chain is answered 400 with
    the message of every failing field and nothing changes; a body that
    passes it and is refused by the schema, for the ward of the actor is
    outside 1..50 or the title or the description has more code units than
    the schema allows, is answered 500 and nothing is stored or published; a
    body that passes both is answered 201 and exactly the described
    document is appended to the collection. *)
Theorem report_problem_outcomes (user : User) (b : ProblemBody) (w : World) :
  ids_ok w →
  (validate_post_problem b ≠ [] →
   post_problem user b w = (mkResponse 400 (Errors (validate_post_problem b)), w))
  ∧ (validate_post_problem b = [] →
     within_problem_schema user b = false →
     (post_problem user b w).1
     = mkResponse 500 (Message "Server error while reporting problem")
     ∧ store (post_problem user b w).2 = store w
     ∧ bus (post_problem user b w).2 = bus w)
  ∧ (validate_post_problem b = [] →
     within_problem_schema user b = true →
     (post_problem user b w).1
     = mkResponse 201
         (MessageProblem "Problem reported successfully"
            (populate true false (users (store w)) (reported_problem user b w)))
     ∧ problems (store (post_problem user b w).2)
       = problems (store w) ++ [reported_problem user b w]).
Proof.
  intros Hids. split; [|split].
  - intros Hv. unfold post_problem. rewrite (validate_nonempty_errors _ Hv).
    run_handler. done.
  - intros Hv Hw. unfold post_problem. rewrite Hv. run_handler.
    unfold new_Problem, save. run_handler.
    rewrite valid_body_valid_document, Hw by done. done.
  - intros Hv Hw.
    destruct (post_problem_ok user b w (findById_None_fresh w Hids) Hv Hw)
      as (w' & -> & Hp & _).
    done.
Qed.

Lemma report_problem_outcomes_witness :
  (post_problem out_of_range_user sample_body sample_world).1
  = mkResponse 500 (Message "Server error while reporting problem")
  ∧ (post_problem resident3 faces_body sample_world).1
    = mkResponse 500 (Message "Server error while reporting problem")
  ∧ problems (store (post_problem resident3 sample_body sample_world).2)
    = problems sample_store ++ [reported_problem resident3 sample_body sample_world].
Proof.
  assert (ids_ok sample_world) as Hids.
  { split; [apply (bool_decide_unpack _); vm_compute; exact I|].
    intros p Hp. apply list_elem_of_In in Hp. simpl in Hp.
    destruct Hp as [<-|[<-|[]]]; vm_compute; reflexivity. }
  split; [|split].
  - apply (report_problem_outcomes out_of_range_user sample_body sample_world Hids);
      vm_compute; reflexivity.
  - apply (report_problem_outcomes resident3 faces_body sample_world Hids);
      vm_compute; reflexivity.
  - apply (report_problem_outcomes resident3 sample_body sample_world Hids);
      vm_compute; reflexivity.
Defined.

Lemma save_loaded_ok p old w :
  validate_problem p = true →
  findById (_id p) (problems (store w)) = Some old →
  save false p w
  = (Val (if bool_decide (p = old) then p else set_updatedAt (now w) p),
     mkWorld
       (with_problems
          (replace_problem (if bool_decide (p = old) then p
                            else set_updatedAt (now w) p)
             (problems (store w))) (store w))
       (bus w) (now w) (next_id w)
       (trace w ++ [(EffSave (if bool_decide (p = old) then p
                              else set_updatedAt (now w) p),
                     problems (store w))])).
Proof.
  intros Hv Hf. unfold save. run_handler. rewrite Hv, Hf. done.
Qed.

Lemma validate_problem_touch d p :
  validate_problem (set_updatedAt d p) = validate_problem p.
Proof. done. Qed.

Lemma validate_problem_assign a p :
  validate_problem (set_assignedTo a p) = validate_problem p.
Proof. done. Qed.

Lemma validate_put_status_ok sb :
  validate_put_status sb = [] → isIn (sb_status sb) statuses = true.
Proof.
  unfold validate_put_status. intros Hv.
  by apply app_nil in Hv as [H1%check_nil _].
Qed.

Lemma status_saved_fields sb d problem :
  _id (status_saved sb d problem) = _id problem
  ∧ status (status_saved sb d problem) = sb_status sb
  ∧ assignedTo (status_saved sb d problem) = assignedTo problem
  ∧ adminNotes (status_saved sb d problem)
    = (if Js.truthy (sb_adminNotes sb) then Js.trim <$> sb_adminNotes sb
       else adminNotes problem)
  ∧ resolvedAt (status_saved sb d problem)
    = (if String.eqb (sb_status sb) "Resolved" || String.eqb (sb_status sb) "Closed"
       then Some d else resolvedAt problem)
  ∧ kept_by_update problem (status_saved sb d problem)
  ∧ validate_problem (status_saved sb d problem)
    = validate_problem
        (updateStatus_assign (sb_status sb) (sb_adminNotes sb) d problem).
Proof.
  pose proof (updateStatus_assign_fields (sb_status sb) (sb_adminNotes sb) d problem)
    as (Hs0 & Hn0 & Hr0 & Hsame0).
  pose proof (kept_by_updateStatus_assign (sb_status sb) (sb_adminNotes sb) d problem)
    as Hk0.
  assert (assignedTo (updateStatus_assign (sb_status sb) (sb_adminNotes sb) d problem)
          = assignedTo problem) as Ha0.
  { by destruct Hsame0 as [(_&_&_&_&_&_&_&_&_&Ha&_) _]. }
  unfold status_saved. cbv zeta.
  case_bool_decide as E.
  - rewrite id_updateStatus_assign. done.
  - problem_fields. rewrite id_updateStatus_assign.
    repeat split; try done; apply Hk0.
Qed.

Lemma assignee_saved_fields a d p1 :
  _id (assignee_saved a d p1) = _id p1
  ∧ status (assignee_saved a d p1) = status p1
  ∧ assignedTo (assignee_saved a d p1) = Some a
  ∧ adminNotes (assignee_saved a d p1) = adminNotes p1
  ∧ resolvedAt (assignee_saved a d p1) = resolvedAt p1
  ∧ kept_by_update p1 (assignee_saved a d p1)
  ∧ validate_problem (assignee_saved a d p1) = validate_problem p1.
Proof.
  unfold assignee_saved. case_bool_decide; repeat split; done.
Qed.

Lemma findById_saved p w :
  is_Some (findById (_id p) (problems (store w))) →
  findById (_id p) (problems (store (saved p w))) = Some p.
Proof. intros H. simpl. by apply findById_replace. Qed.

Lemma put_problem_status_invalid (id : IdParam) sb w :
  validate_put_status sb ≠ [] →
  put_problem_status id sb w
  = (mkResponse 400 (Errors (validate_put_status sb)), w).
Proof.
  intros Hv. unfold put_problem_status.
  rewrite (validate_nonempty_errors _ Hv). run_handler. done.
Qed.

Lemma put_problem_status_not_an_id sb w :
  validate_put_status sb = [] →
  put_problem_status NotAnId sb w
  = (mkResponse 500 (Message "Server error while updating problem"), w).
Proof. intros Hv. unfold put_problem_status. rewrite Hv. done. Qed.

Lemma put_problem_status_missing (i : ObjectId) sb w :
  validate_put_status sb = [] →
  findById i (problems (store w)) = None →
  put_problem_status i sb w = (mkResponse 404 (Message "Problem not found"), w).
Proof.
  intros Hv Hf. unfold put_problem_status. rewrite Hv. run_handler.
  by rewrite Hf.
Qed.

(** [PUT /api/problems/:id/status] with a body that passes the chain, on a
    stored problem: the outcome by the schema check of the first [save] and
    by the assignee of the body. *)
Lemma put_problem_status_found (i : ObjectId) sb w problem :
  validate_put_status sb = [] →
  findById i (problems (store w)) = Some problem →
  put_problem_status i sb w
  = if validate_problem
         (updateStatus_assign (sb_status sb) (sb_adminNotes sb) (now w) problem)
    then
      match sb_assignedTo sb with
      | None =>
          (mkResponse 200
             (MessageProblem "Problem status updated successfully"
                (populate true true (users (store w))
                   (status_saved sb (now w) problem))),
           published (ward_room (wardNumber (status_saved sb (now w) problem)))
             (problem_updated_event (status_saved sb (now w) problem))
             (saved (status_saved sb (now w) problem) w))
      | Some NotAnId =>
          (mkResponse 500 (Message "Server error while updating problem"),
           saved (status_saved sb (now w) problem) w)
      | Some (IdOf a) =>
          (mkResponse 200
             (MessageProblem "Problem status updated successfully"
                (populate true true (users (store w))
                   (assignee_saved a (now w) (status_saved sb (now w) problem)))),
           published
             (ward_room (wardNumber
                (assignee_saved a (now w) (status_saved sb (now w) problem))))
             (problem_updated_event
                (assignee_saved a (now w) (status_saved sb (now w) problem)))
             (saved (assignee_saved a (now w) (status_saved sb (now w) problem))
                (saved (status_saved sb (now w) problem) w)))
      end
    else (mkResponse 500 (Message "Server error while updating problem"), w).
Proof.
  intros Hv Hf. pose proof (findById_id _ _ _ Hf) as Hid.
  pose proof (status_saved_fields sb (now w) problem)
    as (Hid1 & _ & _ & _ & _ & _ & Hv1).
  unfold status_saved in *. cbv zeta in *.
  set (p0 := updateStatus_assign (sb_status sb) (sb_adminNotes sb) (now w) problem)
    in *.
  assert (findById (_id p0) (problems (store w)) = Some problem) as Hf0.
  { unfold p0. by rewrite id_updateStatus_assign, Hid. }
  unfold put_problem_status. rewrite Hv.
  unfold try_catch. simpl.
  unfold bind at 1, Problem_findById, bind at 1, get_world at 1, ret at 1.
  rewrite Hf.
  unfold bind at 1, updateStatus at 1, bind at 1, get_world at 1. fold p0.
  destruct (validate_problem p0) eqn:Hv0.
  2:{ unfold save. run_handler. by rewrite Hv0. }
  rewrite (save_loaded_ok p0 problem w Hv0 Hf0).
  set (p1 := if bool_decide (p0 = problem) then p0 else set_updatedAt (now w) p0)
    in *.
  fold (saved p1 w).
  assert (findById (_id p1) (problems (store (saved p1 w))) = Some p1) as Hf1.
  { apply findById_saved. rewrite Hid1, Hid, Hf. by eexists. }
  destruct (sb_assignedTo sb) as [[a|]|].
  - unfold bind at 1.
    rewrite (save_loaded_ok (set_assignedTo (Some a) p1) p1 (saved p1 w));
      [|by rewrite validate_problem_assign, Hv1|done].
    reflexivity.
  - reflexivity.
  - reflexivity.
Qed.

(** What an answer 200 of [PUT /api/problems/:id/status] means. *)
Lemma put_problem_status_200 (id : IdParam) sb w :
  code (put_problem_status id sb w).1 = 200 →
  ∃ i problem p',
    id = IdOf i
    ∧ findById i (problems (store w)) = Some problem
    ∧ (put_problem_status id sb w).1
      = mkResponse 200
          (MessageProblem "Problem status updated successfully"
             (populate true true (users (store w)) p'))
    ∧ findById i (problems (store (put_problem_status id sb w).2)) = Some p'
    ∧ status p' = sb_status sb
    ∧ assignedTo p' = match sb_assignedTo sb with
                      | Some (IdOf a) => Some a
                      | _ => assignedTo problem
                      end
    ∧ adminNotes p' = (if Js.truthy (sb_adminNotes sb)
                       then Js.trim <$> sb_adminNotes sb
                       else adminNotes problem)
    ∧ resolvedAt p'
      = (if String.eqb (sb_status sb) "Resolved"
            || String.eqb (sb_status sb) "Closed"
         then Some (now w) else resolvedAt problem)
    ∧ kept_by_update problem p'
    ∧ bus (put_problem_status id sb w).2
      = io_to_emit (ward_room (wardNumber p')) (problem_updated_event p') (bus w).
Proof.
  destruct (decide (validate_put_status sb = [])) as [Hv|Hv].
  2:{ by rewrite put_problem_status_invalid. }
  destruct id as [i|]; [|by rewrite put_problem_status_not_an_id].
  destruct (findById i (problems (store w))) as [problem|] eqn:Hf.
  2:{ by rewrite put_problem_status_missing. }
  rewrite (put_problem_status_found i sb w problem Hv Hf).
  pose proof (findById_id _ _ _ Hf) as Hid.
  pose proof (status_saved_fields sb (now w) problem)
    as (Hid1 & Hs1 & Ha1 & Hn1 & Hr1 & Hk1 & _).
  set (p1 := status_saved sb (now w) problem) in *.
  assert (findById i (problems (store (saved p1 w))) = Some p1) as Hf1.
  { rewrite <- Hid, <- Hid1. apply findById_saved. rewrite Hid1, Hid, Hf. by eexists. }
  destruct (validate_problem _); [|done].
  destruct (sb_assignedTo sb) as [[a|]|]; [| done |].
  - intros _.
    pose proof (assignee_saved_fields a (now w) p1)
      as (Hid2 & Hs2 & Ha2 & Hn2 & Hr2 & Hk2 & _).
    set (p2 := assignee_saved a (now w) p1) in *.
    exists i, problem, p2. split; [done|]. split; [done|]. split; [done|].
    split.
    { cbn [snd published store with_bus log].
      rewrite <- Hid, <- Hid1, <- Hid2. apply findById_saved.
      rewrite Hid2, Hid1, Hid, Hf1. by eexists. }
    split; [congruence|]. split; [done|]. split; [congruence|].
    split; [congruence|]. split; [by eapply kept_by_update_trans|]. done.
  - intros _. exists i, problem, p1. split; [done|]. split; [done|].
    split; [done|]. split; [exact Hf1|]. repeat split; try done; apply Hk1.
Qed.

(** X9. [PUT /api/problems/:id/status], every stored problem passing the
    schema.  A body that fails the validation chain is answered 400 and
    nothing changes.  For a body that passes it: a parameter that is no
    ObjectId is answered 500 and one that no problem has 404, and nothing
    changes; on a stored problem, notes that once trimmed have more than
    the 500 code units of the schema are answered 500 and nothing changes;
    otherwise the status is written whatever the problem's current status
    (no order of transitions is imposed), and then an [assignedTo] that is
    no ObjectId is answered 500 with nothing published, while any other
    body is answered 200, and the stored problem has the requested status,
    the given assignee or, none being given, the one it had, the given
    notes trimmed or, none being given, the ones it had, [resolvedAt] set
    to now for [Resolved] or [Closed] and kept otherwise, and every other
    field but [updatedAt] as before. *)
Theorem status_update_outcomes (id : IdParam) (sb : StatusBody) (w : World) :
  stored_valid w →
  (validate_put_status sb ≠ [] →
   put_problem_status id sb w
   = (mkResponse 400 (Errors (validate_put_status sb)), w))
  ∧ (validate_put_status sb = [] →
     match id with
     | NotAnId =>
         put_problem_status id sb w
         = (mkResponse 500 (Message "Server error while updating problem"), w)
     | IdOf i =>
         (findById i (problems (store w)) = None →
          put_problem_status id sb w
          = (mkResponse 404 (Message "Problem not found"), w))
         ∧ ∀ problem,
             findById i (problems (store w)) = Some problem →
             (notes_fit (sb_adminNotes sb) = false →
              put_problem_status id sb w
              = (mkResponse 500 (Message "Server error while updating problem"), w))
             ∧ (notes_fit (sb_adminNotes sb) = true →
                sb_assignedTo sb = Some NotAnId →
                (put_problem_status id sb w).1
                = mkResponse 500 (Message "Server error while updating problem")
                ∧ bus (put_problem_status id sb w).2 = bus w
                ∧ ∃ p',
                    findById i (problems (store (put_problem_status id sb w).2))
                    = Some p'
                    ∧ status p' = sb_status sb
                    ∧ assignedTo p' = assignedTo problem)
             ∧ (notes_fit (sb_adminNotes sb) = true →
                sb_assignedTo sb ≠ Some NotAnId →
                ∃ p',
                  (put_problem_status id sb w).1
                  = mkResponse 200
                      (MessageProblem "Problem status updated successfully"
                         (populate true true (users (store w)) p'))
                  ∧ findById i (problems (store (put_problem_status id sb w).2))
                    = Some p'
                  ∧ status p' = sb_status sb
                  ∧ assignedTo p' = match sb_assignedTo sb with
                                    | Some (IdOf a) => Some a
                                    | _ => assignedTo problem
                                    end
                  ∧ adminNotes p' = (if Js.truthy (sb_adminNotes sb)
                                     then Js.trim <$> sb_adminNotes sb
                                     else adminNotes problem)
                  ∧ resolvedAt p'
                    = (if String.eqb (sb_status sb) "Resolved"
                          || String.eqb (sb_status sb) "Closed"
                       then Some (now w) else resolvedAt problem)
                  ∧ kept_by_update problem p')
     end).
Proof.
  intros Hvalid. split; [apply put_problem_status_invalid|].
  intros Hv. destruct id as [i|]; [|by apply put_problem_status_not_an_id].
  split; [by apply put_problem_status_missing|].
  intros problem Hf.
  pose proof (updateStatus_assign_valid (sb_status sb) (sb_adminNotes sb) (now w)
                problem (Hvalid problem (findById_elem _ _ _ Hf))
                (validate_put_status_ok sb Hv)) as Hv0.
  pose proof (put_problem_status_found i sb w problem Hv Hf) as E.
  rewrite Hv0 in E.
  pose proof (findById_id _ _ _ Hf) as Hid.
  pose proof (status_saved_fields sb (now w) problem)
    as (Hid1 & Hs1 & Ha1 & Hn1 & Hr1 & Hk1 & _).
  assert (findById i (problems (store (saved (status_saved sb (now w) problem) w)))
          = Some (status_saved sb (now w) problem)) as Hf1.
  { rewrite <- Hid, <- Hid1. apply findById_saved. rewrite Hid1, Hid, Hf. by eexists. }
  split; [|split].
  - intros Hn. by rewrite Hn in E.
  - intros Hn Ha. rewrite Hn, Ha in E. rewrite E. simpl.
    split; [done|]. split; [done|].
    exists (status_saved sb (now w) problem). split; [exact Hf1|done].
  - intros Hn Ha.
    assert (code (put_problem_status i sb w).1 = 200) as H200.
    { rewrite E, Hn. by destruct (sb_assignedTo sb) as [[a|]|]. }
    destruct (put_problem_status_200 i sb w H200)
      as (i' & problem' & p' & [= <-] & Hf' & Hr & Hfp & H).
    rewrite Hf in Hf'. injection Hf' as <-.
    exists p'. split; [done|]. split; [done|].
    destruct H as (? & ? & ? & ? & ? & _). done.
Qed.

Lemma status_update_outcomes_witness :
  (∃ p',
     findById 2 (problems (store (put_problem_status 2
                    (mkStatusBody "Open" None None) sample_world).2)) = Some p'
     ∧ status p' = "Open"
     ∧ resolvedAt p' = Some 3000
     ∧ adminNotes p' = Some "cleared")
  ∧ put_problem_status NotAnId reopen_body sample_world
    = (mkResponse 500 (Message "Server error while updating problem"),
       sample_world).
Proof.
  assert (stored_valid sample_world) as Hvalid.
  { intros p Hp. apply list_elem_of_In in Hp. simpl in Hp.
    destruct Hp as [<-|[<-|[]]]; vm_compute; reflexivity. }
  split.
  - destruct (status_update_outcomes 2%N (mkStatusBody "Open" None None)
                sample_world Hvalid) as (_ & Hok).
    destruct (Hok eq_refl) as [_ Hfound].
    destruct (Hfound problem_b eq_refl) as (_ & _ & H200).
    destruct (H200 eq_refl) as (p' & _ & Hf & Hs & _ & Hn & Hr & _);
      [discriminate|].
    exists p'. split; [exact Hf|]. split; [exact Hs|]. split; [exact Hr|exact Hn].
  - apply (proj2 (status_update_outcomes NotAnId reopen_body sample_world Hvalid)).
    reflexivity.
Defined.

(** X10. A resolution date outlives a reopening: after a status update to
    [Resolved] or [Closed] and, any time later, one to [Open] or [In
    Progress], both answered 200, the stored problem has the later status
    and still the [resolvedAt] of the first update. *)
Theorem resolvedAt_outlives_reopening (id : ObjectId) (sb1 sb2 : StatusBody)
    (d : Z) (w : World) :
  sb_status sb1 = "Resolved" ∨ sb_status sb1 = "Closed" →
  sb_status sb2 = "Open" ∨ sb_status sb2 = "In Progress" →
  let w1 := (put_problem_status id sb1 w).2 in
  let w2 := (put_problem_status id sb2 (tick d w1)).2 in
  code (put_problem_status id sb1 w).1 = 200 →
  code (put_problem_status id sb2 (tick d w1)).1 = 200 →
  ∃ p2, findById id (problems (store w2)) = Some p2
        ∧ status p2 = sb_status sb2
        ∧ resolvedAt p2 = Some (now w).
Proof.
  intros Hs1 Hs2 w1 w2 H1 H2.
  destruct (put_problem_status_200 id sb1 w H1)
    as (i1 & problem & p1 & [= <-] & Hf & _ & Hf1 & _ & _ & _ & Hr1 & _).
  destruct (put_problem_status_200 id sb2 (tick d w1) H2)
    as (i2 & p1' & p2 & [= <-] & Hf1' & _ & Hf2 & Hst2 & _ & _ & Hr2 & _).
  fold w1 in Hf1. change (problems (store (tick d w1))) with (problems (store w1)) in Hf1'.
  rewrite Hf1 in Hf1'. injection Hf1' as <-.
  exists p2. split; [exact Hf2|]. split; [done|].
  rewrite Hr2, Hr1.
  assert (String.eqb (sb_status sb1) "Resolved" || String.eqb (sb_status sb1) "Closed"
          = true) as -> by (destruct Hs1 as [-> | ->]; done).
  by destruct Hs2 as [-> | ->].
Qed.

Lemma resolvedAt_outlives_reopening_witness :
  ∃ p2,
    findById 1 (problems (store (put_problem_status 1 reopen_body
                    (tick 60000 (put_problem_status 1 resolve_body sample_world).2)).2))
    = Some p2
    ∧ status p2 = "Open" ∧ resolvedAt p2 = Some 5000.
Proof.
  apply (resolvedAt_outlives_reopening 1 resolve_body reopen_body 60000
           sample_world); [by left|by left| |]; vm_compute; reflexivity.
Defined.

(** ** Wards *)

Lemma find_ward_None n ws :
  find_ward n ws = None ↔ n ∉ ward_wardNumber <$> ws.
Proof.
  unfold find_ward. induction ws as [|x ws IH]; simpl.
  - split; [intros _; apply not_elem_of_nil|done].
  - destruct (Z.eqb_spec (ward_wardNumber x) n) as [E|E].
    + split; [done|]. intros H. exfalso. apply H. subst. apply list_elem_of_here.
    + rewrite IH. rewrite not_elem_of_cons. split; [by split|by intros [_ ?]].
Qed.

Lemma find_active_ward_app_new n ws ward :
  find_ward n ws = None → ward_wardNumber ward = n → ward_isActive ward = true →
  find_active_ward n (ws ++ [ward]) = Some ward.
Proof.
  unfold find_ward, find_active_ward. intros Hn Hw Ha.
  induction ws as [|x ws IH]; simpl in *.
  - by rewrite Hw, Z.eqb_refl, Ha.
  - destruct (ward_wardNumber x =? n); [done|]. simpl. by apply IH.
Qed.

(** Of a body that passes the validation chain of [POST /api/wards], the
    schema can only reject the description, of which it counts the code
    units. *)
Lemma valid_body_valid_ward b n date :
  validate_post_ward b = [] → wb_wardNumber b = Some n →
  validate_ward (new_Ward n (Js.trim (wb_name b)) (Js.trim <$> wb_description b)
                   (wb_population b) (wb_area b) (wb_representative b) date)
  = description_fits (wb_description b).
Proof.
  unfold validate_post_ward. intros Hv Hn. rewrite Hn in Hv.
  repeat (apply app_nil in Hv as [?%check_nil Hv]). apply check_nil in Hv.
  unfold validate_ward, new_Ward, description_fits.
  cbn [ward_wardNumber ward_name ward_description].
  rewrite trim_idem.
  rewrite (isLength_nonempty 2 None) by (lia || done).
  match goal with H : _ && _ = true |- _ => rewrite H end.
  destruct (wb_description b) as [d|]; [|done].
  cbn [fmap option_fmap option_map default]. by rewrite trim_idem.
Qed.

(** X11. [POST /api/wards] with a body that passes the validation chain and
    a number no ward document has: when the description, trimmed, is within
    the 500 code units of the schema (or is absent), the answer is 201; the
    ward is stored after the others, active, with trimmed texts and a
    population of 0 when none is given; and [GET /api/wards/:n] then finds
    it, for any actor.  With a longer description the answer is 500 and
    nothing is stored. *)
Theorem create_ward_then_read (user : User) (b : WardBody) (n : Z)
    (param : string) (w : World) :
  validate_post_ward b = [] →
  wb_wardNumber b = Some n →
  find_ward n (wards (store w)) = None →
  Js.parseInt param = Some n →
  let ward := mkWard n (Js.trim (wb_name b)) (Js.trim <$> wb_description b)
                (default 0 (wb_population b)) (Js.trim <$> wb_area b)
                (trim_representative
                   (default (mkRepresentative None None) (wb_representative b)))
                true (now w) (now w) in
  if description_fits (wb_description b) then
    post_ward b w
    = (mkResponse 201 (MessageWard "Ward created successfully" ward),
       with_store (with_wards (wards (store w) ++ [ward]) (store w)) w)
    ∧ ∃ recent stats,
        (get_ward user param (post_ward b w).2).1
        = mkResponse 200 (WardDetail ward recent stats)
  else
    post_ward b w
    = (mkResponse 500 (Message "Server error while creating ward"), w).
Proof.
  intros Hv Hn Hnone Hp ward.
  pose proof (valid_body_valid_ward b n (now w) Hv Hn) as Hvw.
  assert (new_Ward n (Js.trim (wb_name b)) (Js.trim <$> wb_description b)
            (wb_population b) (wb_area b) (wb_representative b) (now w) = ward)
    as Hward.
  { unfold new_Ward, ward. rewrite trim_idem. f_equal.
    destruct (wb_description b); simpl; [by rewrite trim_idem|done]. }
  destruct (description_fits (wb_description b)).
  2:{ unfold post_ward. rewrite Hv, Hn. run_handler. rewrite Hnone.
      unfold insert_ward. run_handler. by rewrite Hvw. }
  assert (post_ward b w
          = (mkResponse 201 (MessageWard "Ward created successfully" ward),
             with_store (with_wards (wards (store w) ++ [ward]) (store w)) w)) as E.
  { unfold post_ward. rewrite Hv, Hn. run_handler. rewrite Hnone.
    unfold insert_ward. run_handler. rewrite Hvw. simpl.
    rewrite Hward. simpl. rewrite Hnone. done. }
  split; [exact E|]. rewrite E. simpl.
  unfold get_ward. rewrite Hp. run_handler.
  rewrite (find_active_ward_app_new n (wards (store w)) ward Hnone eq_refl eq_refl).
  unfold find_page. run_handler. unfold cursor. simpl. by do 2 eexists.
Qed.

Lemma create_ward_then_read_witness :
  ∃ recent stats,
    (get_ward resident3 "7" (post_ward ward_body_7 sample_world).2).1
    = mkResponse 200
        (WardDetail (mkWard 7 "Hill side" None 0 (Some "7 sq km")
                       (mkRepresentative None None) true 5000 5000)
           recent stats).
Proof.
  apply (create_ward_then_read resident3 ward_body_7 7 "7" sample_world);
    reflexivity.
Defined.

Lemma insert_ward_unique d w r w' :
  insert_ward d w = (r, w') → wards_unique w → wards_unique w'.
Proof.
  unfold insert_ward, wards_unique. run_handler.
  destruct (validate_ward d); simpl; [|by intros [= <- <-]].
  destruct (find_ward _ _) eqn:Hf; intros [= <- <-]; [done|]. simpl.
  intros Hnd. rewrite fmap_app. apply NoDup_app. split; [done|]. split.
  - intros i Hi Hi'. apply list_elem_of_singleton in Hi'. subst i.
    by apply find_ward_None in Hf.
  - apply NoDup_singleton.
Qed.

Lemma insertMany_unique docs w r w' :
  insertMany docs w = (r, w') → wards_unique w → wards_unique w'.
Proof.
  unfold insertMany.
  destruct (forallb validate_ward docs); simpl; [|by intros [= <- <-]].
  revert w r w'. induction docs as [|d docs IH]; intros w r w'; simpl.
  - by intros [= <- <-].
  - apply (bind_rel (λ x y, wards_unique x → wards_unique y)).
    + intros x y z Hxy Hyz Hx. by apply Hyz, Hxy.
    + intros r1 w1. apply insert_ward_unique.
    + intros _ w1 r2 w2. apply IH.
Qed.

Lemma replace_first_ward_numbers n x ws :
  NoDup (ward_wardNumber <$> ws) →
  ward_wardNumber x = n ∨ ward_wardNumber x ∉ ward_wardNumber <$> ws →
  NoDup (ward_wardNumber <$> replace_first_ward n x ws).
Proof.
  induction ws as [|y ws IH]; simpl; [done|].
  intros Hnd Hx. apply NoDup_cons in Hnd as [Hy Hnd].
  destruct (Z.eqb_spec (ward_wardNumber y) n) as [E|E]; simpl.
  - apply NoDup_cons. split; [|done].
    destruct Hx as [Hx|Hx]; [congruence|]. rewrite not_elem_of_cons in Hx. tauto.
  - apply NoDup_cons. split.
    + intros Hin. apply list_elem_of_fmap in Hin as (z & Hz & Hin).
      assert (z = x ∨ z ∈ ws) as [->|Hzin].
      { clear -Hin. induction ws as [|a ws IH]; simpl in Hin; [by apply elem_of_nil in Hin|].
        destruct (ward_wardNumber a =? n).
        - apply elem_of_cons in Hin as [->|Hin]; [by left|].
          right. by apply list_elem_of_further.
        - apply elem_of_cons in Hin as [->|Hin]; [right; apply list_elem_of_here|].
          destruct (IH Hin) as [?|?]; [by left|right; by apply list_elem_of_further]. }
      * destruct Hx as [Hx|Hx]; [congruence|].
        apply Hx. rewrite <- Hz. apply list_elem_of_here.
      * apply Hy. rewrite Hz. by apply list_elem_of_fmap_2.
    + apply IH; [done|]. destruct Hx as [Hx|Hx]; [by left|].
      right. rewrite not_elem_of_cons in Hx. tauto.
Qed.

Lemma post_ward_unique b w r w' :
  post_ward b w = (r, w') → wards_unique w → wards_unique w'.
Proof.
  unfold post_ward, try_catch.
  destruct (is_nil (validate_post_ward b)); simpl; [|by intros [= <- <-]].
  unfold bind at 1. destruct (wb_wardNumber b) as [n|]; simpl;
    [|by intros [= <- <-]].
  unfold bind at 1, get_world at 1.
  destruct (find_ward n (wards (store w))); [by intros [= <- <-]|].
  unfold bind at 1.
  destruct (insert_ward _ w) as [[[]|r1|] w1] eqn:E1;
    pose proof (insert_ward_unique _ _ _ _ E1) as H1; by intros [= <- <-].
Qed.

Lemma put_ward_unique param patch w r w' :
  put_ward param patch w = (r, w') → wards_unique w → wards_unique w'.
Proof.
  unfold put_ward, try_catch, wards_unique.
  destruct (is_nil (validate_put_ward patch)); simpl; [|by intros [= <- <-]].
  unfold bind at 1. destruct (Js.parseInt param) as [n|]; simpl;
    [|by intros [= <- <-]].
  unfold bind at 1, findOneAndUpdate, bind at 1, get_world at 1.
  destruct (validate_patch patch); simpl; [|by intros [= <- <-]].
  destruct (find_ward n (wards (store w))) as [old|]; [|by intros [= <- <-]].
  destruct (negb _ && _) eqn:Hd; [by intros [= <- <-]|].
  run_handler. intros [= <- <-] Hnd. simpl.
  apply replace_first_ward_numbers; [done|].
  apply andb_false_iff in Hd as [Hd|Hd].
  - left. apply negb_false_iff in Hd. simpl. lia.
  - right. apply bool_decide_eq_false in Hd. apply find_ward_None.
    by apply eq_None_not_Some.
Qed.

Lemma initializeDefaultData_unique rnd hash w :
  wards_unique w → wards_unique (initializeDefaultData rnd hash w).
Proof.
  unfold initializeDefaultData.
  match goal with |- context [snd (?c w)] => destruct (c w) as [r w'] eqn:E end.
  simpl. revert E.
  apply (bind_rel (λ x y, wards_unique x → wards_unique y)).
  { intros x y z Hxy Hyz Hx. by apply Hyz, Hxy. }
  { by intros r1 w1 [= <- <-]. }
  intros w0 w1 r2 w2.
  apply (bind_rel (λ x y, wards_unique x → wards_unique y)).
  { intros x y z Hxy Hyz Hx. by apply Hyz, Hxy. }
  { intros r1 w3. destruct (_ =? 0); [apply insertMany_unique|].
    by intros [= <- <-]. }
  intros _ w3 r3 w4.
  apply (bind_rel (λ x y, wards_unique x → wards_unique y)).
  { intros x y z Hxy Hyz Hx. by apply Hyz, Hxy. }
  { by intros r1 w5 [= <- <-]. }
  intros w5 w6 r4 w7.
  destruct (List.find _ _); [by intros [= <- <-]|].
  unfold save_user. run_handler. by intros [= <- <-].
Qed.

(** X12. No step of the server makes two ward documents share a number:
    creation refuses a number that is taken, an update that renumbers a ward
    onto a taken number is refused, and the seeding inserts one by one. *)
Theorem ward_numbers_stay_unique (w w' : World) :
  step w w' → wards_unique w → wards_unique w'.
Proof.
  destruct 1; intros Hu.
  - done.
  - destruct (post_problem user b w) as [r w'] eqn:E.
    apply post_problem_world in E as (Hw & _). unfold wards_unique. simpl.
    by rewrite Hw.
  - destruct (put_problem_status id sb w) as [r w'] eqn:E.
    apply put_problem_status_world in E as (Hw & _). unfold wards_unique. simpl.
    by rewrite Hw.
  - destruct (post_ward b w) as [r w'] eqn:E. simpl. by eapply post_ward_unique.
  - destruct (put_ward param patch w) as [r w'] eqn:E. simpl.
    by eapply put_ward_unique.
  - done.
  - done.
  - by apply initializeDefaultData_unique.
Qed.

Lemma ward_numbers_stay_unique_witness :
  wards_unique (put_ward "5" (mkWardPatch (Some 9) None None None None None None)
                  sample_world).2.
Proof.
  apply (ward_numbers_stay_unique sample_world); [apply step_put_ward|].
  apply (bool_decide_unpack _). vm_compute. exact I.
Defined.

Lemma apply_patch_twice patch d old :
  apply_patch patch d (apply_patch patch d old) = apply_patch patch d old.
Proof.
  unfold apply_patch. simpl.
  destruct (wp_wardNumber patch), (wp_name patch), (wp_description patch),
    (wp_population patch), (wp_area patch), (wp_representative patch),
    (wp_isActive patch); done.
Qed.

Lemma replace_first_ward_twice n x ws :
  ward_wardNumber x = n →
  replace_first_ward n x (replace_first_ward n x ws) = replace_first_ward n x ws.
Proof.
  intros Hx. induction ws as [|y ws IH]; simpl; [done|].
  destruct (Z.eqb_spec (ward_wardNumber y) n) as [E|E]; simpl.
  - by rewrite Hx, Z.eqb_refl.
  - destruct (Z.eqb_spec (ward_wardNumber y) n); [done|]. by rewrite IH.
Qed.

Lemma find_ward_replace_first_ne k n x ws :
  k ≠ n → ward_wardNumber x = n →
  find_ward k (replace_first_ward n x ws) = find_ward k ws.
Proof.
  intros Hk Hx. unfold find_ward. induction ws as [|y ws IH]; simpl; [done|].
  destruct (Z.eqb_spec (ward_wardNumber y) n) as [E|E]; simpl.
  - destruct (Z.eqb_spec (ward_wardNumber x) k); [lia|].
    destruct (Z.eqb_spec (ward_wardNumber y) k); [lia|]. done.
  - destruct (ward_wardNumber y =? k); [done|apply IH].
Qed.

(** X13. [PUT /api/wards/:n] on an existing ward, with a parameter that
    gives the number and a patch that passes the validation chain and the
    validators of the schema: a patch that moves the ward onto the number of
    a stored ward document is answered 500 and changes nothing; any other is
    answered 200 and writes the patched document in the place of the old
    one; and one that keeps the number, naming none or the ward's own,
    leaves every ward with another number as it was and, sent a second time
    at the same moment, changes nothing more. *)
Theorem update_ward_outcomes (param : string) (n : Z) (patch : WardPatch)
    (old : Ward) (w : World) :
  Js.parseInt param = Some n →
  validate_put_ward patch = [] →
  validate_patch patch = true →
  find_ward n (wards (store w)) = Some old →
  (renumbers_onto_taken n patch (wards (store w)) = true →
   put_ward param patch w
   = (mkResponse 500 (Message "Server error while updating ward"), w))
  ∧ (renumbers_onto_taken n patch (wards (store w)) = false →
     put_ward param patch w
     = (mkResponse 200 (MessageWard "Ward updated successfully"
                          (apply_patch patch (now w) old)),
        with_store (with_wards (replace_first_ward n (apply_patch patch (now w) old)
                                  (wards (store w))) (store w)) w))
  ∧ (wp_wardNumber patch = None ∨ wp_wardNumber patch = Some n →
     code (put_ward param patch w).1 = 200
     ∧ (∀ k, k ≠ n →
             find_ward k (wards (store (put_ward param patch w).2))
             = find_ward k (wards (store w)))
     ∧ put_ward param patch (put_ward param patch w).2 = put_ward param patch w).
Proof.
  intros Hp Hv Hv' Hold.
  pose proof (find_ward_number _ _ _ Hold) as Hwn.
  pose proof (put_ward_found param n patch old w Hp Hv Hv' Hold) as E.
  split; [|split].
  - intros Hr. by rewrite Hr in E.
  - intros Hr. by rewrite Hr in E.
  - intros Hkeep.
    assert (∀ ws, renumbers_onto_taken n patch ws = false) as Hr.
    { intros ws. unfold renumbers_onto_taken.
      destruct Hkeep as [-> | ->]; [done|]. by rewrite Z.eqb_refl. }
    assert (ward_wardNumber (apply_patch patch (now w) old) = n) as Hn'.
    { unfold apply_patch. simpl. destruct Hkeep as [-> | ->]; done. }
    rewrite Hr in E. rewrite E. simpl. split; [done|]. split.
    + intros k Hk. by apply find_ward_replace_first_ne.
    + rewrite (put_ward_found param n patch (apply_patch patch (now w) old) _
                 Hp Hv Hv').
      * rewrite Hr. simpl.
        rewrite apply_patch_twice, replace_first_ward_twice by done. done.
      * simpl. apply find_ward_replace_first; [by eexists|done].
Qed.

Lemma update_ward_outcomes_witness :
  put_ward "5" renumber_patch sample_world
  = (mkResponse 500 (Message "Server error while updating ward"), sample_world)
  ∧ find_ward 3 (wards (store (put_ward "5" rename_patch sample_world).2))
    = Some ward_3
  ∧ code (put_ward "5" own_number_patch sample_world).1 = 200.
Proof.
  destruct (update_ward_outcomes "5" 5 renumber_patch ward_5 sample_world)
    as (Hclash & _); try reflexivity.
  destruct (update_ward_outcomes "5" 5 rename_patch ward_5 sample_world)
    as (_ & _ & Hok); try reflexivity.
  destruct (update_ward_outcomes "5" 5 own_number_patch ward_5 sample_world)
    as (_ & _ & Hown); try reflexivity.
  split; [|split].
  - apply Hclash. vm_compute. reflexivity.
  - destruct (Hok (or_introl eq_refl)) as (_ & Hframe & _).
    rewrite Hframe by lia. reflexivity.
  - apply Hown. by right.
Defined.

(** ** [GET /api/wards] *)

Global Instance by_wardNumber_total : Total by_wardNumber.
Proof. intros a b. unfold by_wardNumber. lia. Qed.

Global Instance by_wardNumber_trans : Transitive by_wardNumber.
Proof. intros a b c. unfold by_wardNumber. lia. Qed.

Lemma filter_and_length {A} (P Q : A → Prop) `{∀ x, Decision (P x)}
    `{∀ x, Decision (Q x)} (l : list A) :
  (List.length (filter (λ x, P x ∧ Q x) l) ≤ List.length (filter P l))%nat.
Proof.
  induction l as [|x l IH]; [done|]. rewrite !filter_cons.
  destruct (decide (P x)), (decide (Q x)); repeat case_decide; simpl; tauto || lia.
Qed.

Lemma ws_ward_stats (f g : Ward → Z) (l : list Ward) :
  ws_ward <$> ((λ ward, mkWardWithStats ward (f ward) (g ward)) <$> l) = l.
Proof.
  rewrite <- list_fmap_compose. rewrite <- (list_fmap_id l) at 2.
  by apply list_fmap_ext.
Qed.

(** X14. [GET /api/wards] answers 200 with the active wards and no others,
    each once, in ascending order of ward number; for each, [totalProblems]
    is the number of stored problems with that ward number and
    [activeProblems], those among them that are [Open] or [In Progress], is
    never more; nothing is written. *)
Theorem ward_listing_sorted_counted (user : User) (w : World) :
  get_wards user w
  = (mkResponse 200 (WardList (listed_stats (get_wards user w).1)), w)
  ∧ listed_wards (get_wards user w).1
    ≡ₚ filter (λ x, ward_isActive x = true) (wards (store w))
  ∧ StronglySorted by_wardNumber (listed_wards (get_wards user w).1)
  ∧ (∀ e, e ∈ listed_stats (get_wards user w).1 →
          totalProblems e
          = Z.of_nat (List.length
               (filter (λ p, wardNumber p = ward_wardNumber (ws_ward e))
                  (problems (store w))))
          ∧ 0 ≤ activeProblems e ≤ totalProblems e).
Proof.
  unfold get_wards, listed_wards, listed_stats. run_handler.
  split; [done|]. rewrite ws_ward_stats.
  split; [apply merge_sort_Permutation|].
  split; [apply StronglySorted_merge_sort; apply _|].
  intros e He. apply list_elem_of_fmap in He as (x & -> & _). simpl.
  split; [done|]. split; [lia|].
  apply inj_le. apply (filter_and_length (λ p, wardNumber p = ward_wardNumber x)).
Qed.

(** ** Aggregates *)

Lemma sumZ_app l1 l2 : sumZ (l1 ++ l2) = sumZ l1 + sumZ l2.
Proof. unfold sumZ. induction l1 as [|x l1 IH]; simpl; lia. Qed.

Lemma sumZ_cons x l : sumZ (x :: l) = x + sumZ l.
Proof. done. Qed.

Lemma sumZ_perm l1 l2 : l1 ≡ₚ l2 → sumZ l1 = sumZ l2.
Proof. unfold sumZ. induction 1; simpl; lia. Qed.

Global Instance sumZ_proper : Proper ((≡ₚ) ==> (=)) sumZ.
Proof. intros l1 l2. apply sumZ_perm. Qed.

Lemma sumZ_indicator {K} `{EqDecision K} (k0 : K) (ks : list K) :
  NoDup ks →
  sumZ ((λ k, if decide (k0 = k) then 1 else 0) <$> ks)
  = if decide (k0 ∈ ks) then 1 else 0.
Proof.
  induction 1 as [|k ks Hk Hnd IH]; [done|].
  rewrite fmap_cons, sumZ_cons, IH. destruct (decide (k0 = k)) as [->|Hne].
  - rewrite (decide_False (P := k ∈ ks)) by done.
    rewrite decide_True by apply list_elem_of_here. done.
  - destruct (decide (k0 ∈ ks)).
    + rewrite decide_True by (by apply list_elem_of_further). done.
    + rewrite decide_False; [done|]. rewrite not_elem_of_cons. done.
Qed.

Lemma sumZ_plus {K} (f g : K → Z) (ks : list K) :
  sumZ ((λ k, f k + g k) <$> ks) = sumZ (f <$> ks) + sumZ (g <$> ks).
Proof.
  induction ks as [|k ks IH]; [done|]. rewrite !fmap_cons, !sumZ_cons, IH. lia.
Qed.

(** The sizes of the groups of a list add up to its length, over any
    duplicate-free list of keys that has the key of every element. *)
Lemma group_sizes_sum {K} `{EqDecision K} (key : Problem → K) (ks : list K)
    (ps : list Problem) :
  NoDup ks →
  (∀ p, p ∈ ps → key p ∈ ks) →
  sumZ ((λ k, Z.of_nat (List.length (filter (λ p, key p = k) ps))) <$> ks)
  = Z.of_nat (List.length ps).
Proof.
  intros Hnd. induction ps as [|p ps IH]; intros Hin.
  - unfold sumZ. clear. induction ks; simpl; [done|]. done.
  - rewrite (list_fmap_ext _
      (λ k, (if decide (key p = k) then 1 else 0)
            + Z.of_nat (List.length (filter (λ p, key p = k) ps)))).
    + rewrite sumZ_plus, IH, sumZ_indicator by
        (done || (intros q Hq; apply Hin; by apply list_elem_of_further)).
      rewrite decide_True by (apply Hin, list_elem_of_here). simpl. lia.
    + intros i k _. rewrite filter_cons. destruct (decide (key p = k)); simpl; lia.
Qed.

Lemma group_sizes_sum_dups {K} `{EqDecision K} (key : Problem → K)
    (ps : list Problem) :
  sumZ ((λ k, Z.of_nat (List.length (filter (λ p, key p = k) ps)))
          <$> remove_dups (key <$> ps))
  = Z.of_nat (List.length ps).
Proof.
  apply group_sizes_sum; [apply NoDup_remove_dups|].
  intros p Hp. apply elem_of_remove_dups. by apply list_elem_of_fmap_2.
Qed.

Lemma three_statuses_bound (g : list Problem) :
  count_status "Open" g + count_status "In Progress" g + count_status "Resolved" g
  ≤ Z.of_nat (List.length g).
Proof.
  unfold count_status. induction g as [|p g IH]; [done|].
  rewrite !filter_cons.
  destruct (decide (status p = "Open")) as [E1|E1],
           (decide (status p = "In Progress")) as [E2|E2],
           (decide (status p = "Resolved")) as [E3|E3];
    try (rewrite E1 in E2; discriminate);
    try (rewrite E1 in E3; discriminate);
    try (rewrite E2 in E3; discriminate);
    simpl; lia.
Qed.

Global Instance more_first_total : Total more_first.
Proof. intros a b. unfold more_first. lia. Qed.
Global Instance more_first_trans : Transitive more_first.
Proof. intros a b c. unfold more_first. lia. Qed.
Global Instance by_id_total : Total by_id.
Proof. intros a b. unfold by_id. lia. Qed.
Global Instance by_id_trans : Transitive by_id.
Proof. intros a b c. unfold by_id. lia. Qed.

(** X15. [GET /api/problems/stats/summary] always answers with the three
    aggregates and writes nothing.  They are taken over all problems for an
    admin and over the problems of the actor's ward otherwise.  In each
    aggregate the counts add up to the number of those problems; the
    categories come with the larger count first and the wards in ascending
    order; a ward's [open], [inProgress] and [resolved] together never
    exceed its [count] (the closed ones make the difference), and every ward
    listed has a problem. *)
Theorem stats_summary_adds_up (user : User) (w : World) :
  ∃ s,
    get_stats_summary user w = (StatsOk s, w)
    ∧ sumZ (snd <$> statusStats s) = Z.of_nat (List.length (stats_scope user w))
    ∧ sumZ (snd <$> categoryStats s) = Z.of_nat (List.length (stats_scope user w))
    ∧ sumZ (wst_count <$> wardStats s) = Z.of_nat (List.length (stats_scope user w))
    ∧ StronglySorted more_first (categoryStats s)
    ∧ StronglySorted by_id (wardStats s)
    ∧ (∀ g, g ∈ wardStats s →
            wst_open g + wst_inProgress g + wst_resolved g ≤ wst_count g
            ∧ 1 ≤ wst_count g
            ∧ ∃ p, p ∈ stats_scope user w ∧ wardNumber p = wst_id g).
Proof.
  eexists. split; [reflexivity|]. simpl. fold (stats_scope user w).
  split.
  { unfold group_by_status. rewrite <- list_fmap_compose.
    apply (group_sizes_sum_dups status). }
  split.
  { rewrite merge_sort_Permutation. unfold group_by_category.
    rewrite <- list_fmap_compose. apply (group_sizes_sum_dups category). }
  split.
  { rewrite merge_sort_Permutation. unfold group_by_ward.
    rewrite <- list_fmap_compose. apply (group_sizes_sum_dups wardNumber). }
  split; [apply StronglySorted_merge_sort; apply _|].
  split; [apply StronglySorted_merge_sort; apply _|].
  intros g Hg. rewrite merge_sort_Permutation in Hg.
  unfold group_by_ward in Hg. apply list_elem_of_fmap in Hg as (n & -> & Hn).
  simpl. split; [apply three_statuses_bound|].
  apply elem_of_remove_dups, list_elem_of_fmap in Hn as (p & -> & Hp).
  assert (p ∈ filter (λ q, wardNumber q = wardNumber p) (stats_scope user w)) as Hin.
  { by apply list_elem_of_filter. }
  split; [|by exists p].
  destruct (filter _ _); [by apply elem_of_nil in Hin|]. simpl. lia.
Qed.

(** X16. For an actor that is not an admin the ward aggregate of the
    statistics has no group of another ward, and at most one group. *)
Theorem stats_summary_own_ward (user : User) (w : World) :
  is_admin user = false →
  ∃ s,
    get_stats_summary user w = (StatsOk s, w)
    ∧ (∀ g, g ∈ wardStats s → wst_id g = user_wardNumber user)
    ∧ (List.length (wardStats s) ≤ 1)%nat.
Proof.
  intros Ha. eexists. split; [reflexivity|]. simpl.
  set (scope := filter _ _).
  assert (∀ n, n ∈ remove_dups (wardNumber <$> scope) → n = user_wardNumber user)
    as Hkeys.
  { intros n Hn. apply elem_of_remove_dups, list_elem_of_fmap in Hn as (p & -> & Hp).
    unfold scope in Hp. apply list_elem_of_filter in Hp as [Hm _].
    rewrite Ha in Hm. simpl in Hm. by eapply matches_ward. }
  split.
  - intros g Hg. rewrite merge_sort_Permutation in Hg.
    apply list_elem_of_fmap in Hg as (n & -> & Hn). simpl. by apply Hkeys.
  - rewrite merge_sort_Permutation. unfold group_by_ward. rewrite length_fmap.
    pose proof (NoDup_remove_dups (wardNumber <$> scope)) as Hnd.
    destruct (remove_dups (wardNumber <$> scope)) as [|a [|b l]]; simpl; [lia|lia|].
    exfalso. apply NoDup_cons in Hnd as [Hab _]. apply Hab.
    rewrite (Hkeys a), (Hkeys b).
    + apply list_elem_of_here.
    + apply list_elem_of_further, list_elem_of_here.
    + apply list_elem_of_here.
Qed.

Lemma stats_summary_own_ward_witness :
  ∃ s, get_stats_summary resident3 sample_world = (StatsOk s, sample_world)
       ∧ (wst_id <$> wardStats s) = [3]
       ∧ statusStats s = [("Open", 1)].
Proof.
  destruct (stats_summary_own_ward resident3 sample_world eq_refl)
    as (s & E & _ & _).
  exists s. split; [exact E|].
  assert (fst (get_stats_summary resident3 sample_world) = StatsOk s) as Hs
    by (by rewrite E).
  vm_compute in Hs. injection Hs as <-. split; reflexivity.
Defined.

Lemma fst_group {K} (f : K → Z) (l : list K) :
  fst <$> ((λ k, (k, f k)) <$> l) = l.
Proof.
  rewrite <- list_fmap_compose. rewrite <- (list_fmap_id l) at 2.
  by apply list_fmap_ext.
Qed.

(** X17. In the answer of [GET /api/wards/:n] for an active ward, the counts
    per status add up to the number of stored problems of ward [n], each
    status is listed once and with a count of at least 1, while the recent
    problems are at most five. *)
Theorem ward_detail_stats_add_up (user : User) (param : string) (n : Z)
    (ward : Ward) (w : World) :
  Js.parseInt param = Some n →
  find_active_ward n (wards (store w)) = Some ward →
  ∃ recent stats,
    get_ward user param w = (mkResponse 200 (WardDetail ward recent stats), w)
    ∧ sumZ (snd <$> stats)
      = Z.of_nat (List.length (filter (λ p, wardNumber p = n) (problems (store w))))
    ∧ NoDup (fst <$> stats)
    ∧ (∀ g, g ∈ stats → 1 ≤ g.2)
    ∧ (List.length recent ≤ 5)%nat.
Proof.
  intros Hp Hw. do 2 eexists. split.
  { unfold get_ward. rewrite Hp. run_handler. rewrite Hw.
    unfold find_page. run_handler. unfold cursor. simpl. reflexivity. }
  set (of_ward := filter (λ p, wardNumber p = n) (problems (store w))).
  split.
  { unfold group_by_status. rewrite <- list_fmap_compose.
    apply (group_sizes_sum_dups status). }
  split.
  { unfold group_by_status. rewrite fst_group. apply NoDup_remove_dups. }
  split.
  { intros g Hg. unfold group_by_status in Hg.
    apply list_elem_of_fmap in Hg as (s & -> & Hs). simpl.
    apply elem_of_remove_dups, list_elem_of_fmap in Hs as (p & -> & Hin).
    assert (p ∈ filter (λ q, status q = status p) of_ward) as Hin'
      by (by apply list_elem_of_filter).
    destruct (filter _ of_ward); [by apply elem_of_nil in Hin'|]. simpl. lia. }
  rewrite length_fmap, length_take. lia.
Qed.

Lemma ward_detail_stats_add_up_witness :
  ∃ recent,
    get_ward resident3 "4" sample_world
    = (mkResponse 200 (WardDetail ward_4 recent [("Resolved", 1)]), sample_world).
Proof.
  destruct (ward_detail_stats_add_up resident3 "4" 4 ward_4 sample_world
              eq_refl eq_refl) as (recent & stats & E & _).
  exists recent. rewrite E.
  assert (stats = [("Resolved", 1)]) as ->; [|reflexivity].
  assert ((get_ward resident3 "4" sample_world).1
          = mkResponse 200 (WardDetail ward_4 recent stats)) as H by (by rewrite E).
  vm_compute in H. by injection H as _ <-.
Defined.

(** ** Start-up seeding, one guard at a time *)

Lemma insert_all_fresh docs w :
  Forall (λ d, validate_ward d = true) docs →
  NoDup (ward_wardNumber <$> docs) →
  (∀ d, d ∈ docs → ward_wardNumber d ∉ ward_wardNumber <$> wards (store w)) →
  foldr (λ d k, do_ insert_ward d; k) (ret tt) docs w
  = (Val tt, with_store (with_wards (wards (store w) ++ docs) (store w)) w).
Proof.
  revert w. induction docs as [|d docs IH]; intros w Hv Hnd Hfresh.
  - simpl. unfold ret. destruct w as [[ps ws us] b t i tr]. simpl.
    by rewrite app_nil_r.
  - apply Forall_cons in Hv as [Hd Hv]. rewrite fmap_cons in Hnd.
    apply NoDup_cons in Hnd as [Hdn Hnd].
    simpl. unfold bind at 1, insert_ward at 1, bind at 1, get_world at 1.
    rewrite Hd. simpl.
    assert (find_ward (ward_wardNumber d) (wards (store w)) = None) as ->.
    { apply find_ward_None, Hfresh, list_elem_of_here. }
    unfold modify. rewrite IH; [| done | done |].
    + simpl. by rewrite <- app_assoc.
    + intros d' Hd'. simpl. rewrite fmap_app. rewrite not_elem_of_app. split.
      * apply Hfresh. by apply list_elem_of_further.
      * simpl. rewrite list_elem_of_singleton. intros E. apply Hdn. rewrite <- E.
        by apply list_elem_of_fmap_2.
Qed.

Lemma default_wards_valid rnd date :
  Forall (λ d, validate_ward d = true) (default_ward rnd date <$> seqZ 1 10).
Proof.
  apply Forall_fmap, Forall_forall. intros i Hi.
  apply list_elem_of_In in Hi. simpl in Hi.
  repeat (destruct Hi as [<-|Hi]; [vm_compute; reflexivity|]). destruct Hi.
Qed.

Lemma default_wards_numbers rnd date :
  ward_wardNumber <$> (default_ward rnd date <$> seqZ 1 10) = seqZ 1 10.
Proof.
  rewrite <- list_fmap_compose. rewrite <- (list_fmap_id (seqZ 1 10)) at 2.
  by apply list_fmap_ext.
Qed.

Lemma seed_wards_when_none rnd w :
  wards (store w) = [] →
  insertMany (default_ward rnd (now w) <$> seqZ 1 10) w
  = (Val tt,
     with_store (with_wards (default_ward rnd (now w) <$> seqZ 1 10) (store w)) w).
Proof.
  intros He. unfold insertMany.
  rewrite (proj2 (forallb_forall _ _)).
  2:{ intros x Hx. apply list_elem_of_In in Hx.
      by apply (proj1 (Forall_forall _ _) (default_wards_valid rnd (now w))). }
  cbn [negb]. rewrite insert_all_fresh.
  - by rewrite He.
  - apply default_wards_valid.
  - rewrite default_wards_numbers. apply NoDup_seqZ.
  - intros d _. rewrite He. apply not_elem_of_nil.
Qed.

Lemma find_admin_None us :
  filter (λ u, user_role u = "admin") us = [] →
  List.find (λ u, String.eqb (user_role u) "admin") us = None.
Proof.
  induction us as [|u us IH]; [done|]. rewrite filter_cons. simpl.
  destruct (String.eqb_spec (user_role u) "admin") as [E|E].
  - by rewrite decide_True.
  - rewrite decide_False by done. apply IH.
Qed.

Lemma initializeDefaultData_phases rnd hash w :
  initializeDefaultData rnd hash w = seed_admin hash (seed_wards rnd w).
Proof.
  unfold initializeDefaultData, seed_wards.
  unfold bind at 1, get_world at 1. cbv beta iota. unfold bind at 1.
  destruct (wards (store w)) as [|x ws] eqn:He.
  - change (Z.of_nat (List.length (@nil Ward)) =? 0) with true. cbv iota.
    rewrite (seed_wards_when_none rnd w He).
    unfold bind, get_world, seed_admin. cbv beta iota.
    destruct (List.find _ _); reflexivity.
  - change (Z.of_nat (List.length (x :: ws)) =? 0) with false. cbv iota.
    unfold ret at 1. unfold bind, get_world, seed_admin. cbv beta iota.
    destruct (List.find _ _); reflexivity.
Qed.

(** X18. The two guards of the start-up routine work apart.  Wards are
    written only when there is none: then exactly the ten wards numbered 1
    to 10, all active, each passing the schema, with a population from 500
    to 1499; otherwise the wards are left as they are.  A user is written
    only when no user has the role [admin]: then exactly one, with that
    role, after the others; otherwise the users are left as they are.  The
    problems are never touched. *)
Theorem seeding_guards_independent (rnd : nat → Z) (hash : string → string)
    (w : World) :
  let w' := initializeDefaultData rnd hash w in
  (wards (store w) ≠ [] → wards (store w') = wards (store w))
  ∧ (wards (store w) = [] →
     ward_wardNumber <$> wards (store w') = seqZ 1 10
     ∧ Forall (λ x, ward_isActive x = true ∧ validate_ward x = true
                    ∧ 500 ≤ ward_population x < 1500) (wards (store w')))
  ∧ (admins (store w) ≠ [] → users (store w') = users (store w))
  ∧ (admins (store w) = [] →
     ∃ u, users (store w') = users (store w) ++ [u]
          ∧ user_role u = "admin"
          ∧ user_email u = "admin@swatchvillage.com"
          ∧ user_password u = hash "admin123")
  ∧ problems (store w') = problems (store w).
Proof.
  intros w'. unfold w'. rewrite initializeDefaultData_phases.
  assert (users (store (seed_wards rnd w)) = users (store w)) as Hu.
  { unfold seed_wards. by destruct (wards (store w)). }
  assert (problems (store (seed_wards rnd w)) = problems (store w)) as Hp.
  { unfold seed_wards. by destruct (wards (store w)). }
  assert (∀ w1, wards (store (seed_admin hash w1)) = wards (store w1)
                ∧ problems (store (seed_admin hash w1)) = problems (store w1))
    as Hadm.
  { intros w1. unfold seed_admin. by destruct (List.find _ _). }
  destruct (Hadm (seed_wards rnd w)) as [Hw1 Hp1].
  split; [|split; [|split; [|split]]].
  - intros Hne. rewrite Hw1. unfold seed_wards.
    destruct (wards (store w)) eqn:E; [done|exact E].
  - intros He. rewrite Hw1. unfold seed_wards. rewrite He.
    cbn [wards store with_store with_wards].
    split; [apply default_wards_numbers|].
    apply Forall_fmap, Forall_forall. intros i Hi. simpl.
    split; [done|]. split.
    + by apply (proj1 (Forall_forall _ _) (default_wards_valid rnd (now w))),
        list_elem_of_fmap_2.
    + unfold random_below.
      match goal with
      | |- context [rnd ?k `mod` 1000] =>
          pose proof (Z.mod_pos_bound (rnd k) 1000 ltac:(lia))
      end.
      lia.
  - intros Ha. unfold seed_admin. rewrite Hu.
    destruct (find_admin_is_Some _ Ha) as [a ->]. exact Hu.
  - intros Ha. unfold seed_admin. rewrite Hu.
    rewrite (find_admin_None _ Ha). eexists.
    cbn [users store with_users]. by repeat split.
  - congruence.
Qed.

Lemma seeding_guards_independent_witness :
  (user_role <$> users (store (initializeDefaultData (λ k, 7) id
      (with_store (with_users [resident3] sample_store) sample_world))))
  = ["resident"; "admin"]
  ∧ wards (store (initializeDefaultData (λ k, 7) id sample_world))
    = wards sample_store.
Proof.
  split.
  - destruct (seeding_guards_independent (λ k, 7) id
                (with_store (with_users [resident3] sample_store) sample_world))
      as (_ & _ & _ & Hadd & _).
    destruct Hadd as (u & -> & Hr & _); [reflexivity|].
    simpl. by rewrite Hr.
  - apply (seeding_guards_independent (λ k, 7) id sample_world). discriminate.
Defined.

(** ** Reads *)

Lemma list_page_world query page limit msg w :
  (try_catch (list_page query page limit) msg w).2 = w.
Proof.
  pose proof (list_page_spec query page limit w) as H. unfold try_catch.
  destruct (cursor _ _ _); by rewrite H.
Qed.

(** X19. The six reading routes never write: whatever the actor and the
    parameters, and whether they answer with data or with an error, they
    leave the store, the room membership, the deliveries, the clock and the
    trace as they were. *)
Theorem reads_never_write (user : User) (q : ListQuery) (id : ObjectId)
    (param : string) (w : World) :
  (get_problems user q w).2 = w
  ∧ (get_problem user id w).2 = w
  ∧ (get_stats_summary user w).2 = w
  ∧ (get_wards user w).2 = w
  ∧ (get_ward user param w).2 = w
  ∧ (get_ward_problems user param q w).2 = w.
Proof.
  split; [|split; [|split; [|split; [|split]]]].
  - destruct (is_admin user) eqn:Ha.
    + destruct (Js.truthy (lq_wardNumber q)) eqn:Ht.
      * destruct (Js.parseInt (default "" (lq_wardNumber q))) as [n|] eqn:Hp.
        -- rewrite (get_problems_admin_ward user q n w) by done.
           apply list_page_world.
        -- unfold get_problems, try_catch, bind. by rewrite Ha, Ht, Hp.
      * rewrite (get_problems_admin_all user q w) by done. apply list_page_world.
    + rewrite get_problems_resident by done. apply list_page_world.
  - unfold get_problem. run_handler.
    destruct (findById id (problems (store w))); simpl; [|done].
    by destruct (negb (is_admin user) && negb _).
  - done.
  - done.
  - unfold get_ward. run_handler.
    destruct (Js.parseInt param) as [n|]; simpl; [|done].
    destruct (find_active_ward n (wards (store w))); simpl; [|done].
    unfold find_page. run_handler. unfold cursor. simpl. done.
  - unfold get_ward_problems.
    destruct (negb (is_admin user) && negb _) eqn:Hd; [done|].
    destruct (Js.parseInt param) as [n|] eqn:Hp.
    + unfold try_catch at 1. unfold bind at 1. unfold cast_number, ret at 1.
      apply list_page_world.
    + done.
Qed.

(** X20. [GET /api/wards/:n/problems] never consults the Ward collection:
    its answer is the same whatever ward documents are stored, so that it
    answers for a number no ward has, or an inactive one's, just as for an
    active ward; for an admin a parameter [parseInt] cannot read is answered
    500. *)
Theorem ward_problems_ignores_wards (user : User) (param : string)
    (q : ListQuery) (ws : list Ward) (w : World) :
  (get_ward_problems user param q (with_store (with_wards ws (store w)) w)).1
  = (get_ward_problems user param q w).1
  ∧ (is_admin user = true → Js.parseInt param = None →
     (get_ward_problems user param q w).1
     = mkResponse 500 (Message "Server error while fetching ward problems")).
Proof.
  split.
  - unfold get_ward_problems.
    destruct (negb (is_admin user) && negb _); [done|].
    destruct (Js.parseInt param) as [n|]; [|done].
    unfold try_catch, bind, cast_number, ret at 1, ret at 1.
    pose proof (list_page_spec
                  (mkQuery (Some n) (if_truthy (lq_status q)) (if_truthy (lq_category q)))
                  (default 1 (lq_page q)) (default 10 (lq_limit q)) w) as H1.
    pose proof (list_page_spec
                  (mkQuery (Some n) (if_truthy (lq_status q)) (if_truthy (lq_category q)))
                  (default 1 (lq_page q)) (default 10 (lq_limit q))
                  (with_store (with_wards ws (store w)) w)) as H2.
    simpl in H2. destruct (cursor _ _ _); by rewrite H1, H2.
  - intros Ha Hp. unfold get_ward_problems. rewrite Ha, Hp. done.
Qed.

Lemma ward_problems_ignores_wards_witness :
  disclosed (get_ward_problems admin1 "9" no_query sample_world).1 = []
  ∧ code (get_ward_problems admin1 "9" no_query sample_world).1 = 200
  ∧ (get_ward_problems admin1 "nine" no_query sample_world).1
    = mkResponse 500 (Message "Server error while fetching ward problems").
Proof.
  split; [vm_compute; reflexivity|]. split; [vm_compute; reflexivity|].
  apply (ward_problems_ignores_wards admin1 "nine" no_query [] sample_world);
    reflexivity.
Defined.

(** ** Round trips *)

(** X21. A problem just reported can be fetched: after a [POST
    /api/problems] that was answered 201, [GET /api/problems/:id] with the
    new id gives the reporter the stored document, and gives an actor of
    another ward who is not an admin 403. *)
Theorem report_then_fetch (user other : User) (b : ProblemBody) (w : World) :
  code (post_problem user b w).1 = 201 →
  let w' := (post_problem user b w).2 in
  let p := reported_problem user b w in
  (get_problem user (next_id w) w').1
  = mkResponse 200 (OneProblem (populate true true (users (store w)) p))
  ∧ (is_admin other = false → user_wardNumber other ≠ user_wardNumber user →
     (get_problem other (next_id w) w').1
     = mkResponse 403 (Message "Access denied")).
Proof.
  intros H201 w' p.
  destruct (post_problem_201 user b w H201) as (Hv & Hw & Hfree).
  assert (problems (store w') = problems (store w) ++ [p]
          ∧ users (store w') = users (store w)) as [Hp Hu].
  { unfold w'. destruct (post_problem_ok user b w Hfree Hv Hw) as (w1 & -> & H).
    exact H. }
  assert (findById (next_id w) (problems (store w')) = Some p) as Hf.
  { rewrite Hp. by apply (findById_app_new p). }
  split.
  - unfold get_problem. run_handler. rewrite Hf, Hu. simpl.
    rewrite Z.eqb_refl, andb_false_r. done.
  - intros Ha Hne. unfold get_problem. run_handler. rewrite Hf, Ha. simpl.
    destruct (Z.eqb_spec (user_wardNumber user) (user_wardNumber other)); [lia|done].
Qed.

Lemma report_then_fetch_witness :
  (get_problem resident3 10 (post_problem resident3 sample_body sample_world).2).1
  = mkResponse 200
      (OneProblem (populate true true (users sample_store)
                     (reported_problem resident3 sample_body sample_world)))
  ∧ (get_problem resident4 10 (post_problem resident3 sample_body sample_world).2).1
    = mkResponse 403 (Message "Access denied").
Proof.
  destruct (report_then_fetch resident3 resident4 sample_body sample_world)
    as [Hown Hother]; [vm_compute; reflexivity|].
  split; [exact Hown|]. apply Hother; [reflexivity|simpl; lia].
Defined.

(** X22. A status update that is answered 200 publishes one
    [problem-updated] event to the room of the ward of the problem (not of
    the admin who sent it), carrying the problem's id, its title, the
    requested status and its ward; so each session in that room receives
    exactly this event, and the other sessions nothing. *)
Theorem status_update_published (id : ObjectId) (sb : StatusBody)
    (problem : Problem) (sid : SessionId) (w : World) :
  code (put_problem_status id sb w).1 = 200 →
  findById id (problems (store w)) = Some problem →
  let ev := mkEvent "problem-updated"
              (ProblemUpdated id (title problem) (sb_status sb)
                 (wardNumber problem)) in
  bus (put_problem_status id sb w).2
  = io_to_emit (ward_room (wardNumber problem)) ev (bus w)
  ∧ inbox (bus (put_problem_status id sb w).2) sid
    = inbox (bus w) sid
      ++ (if bool_decide (sid ∈ members (bus w) (ward_room (wardNumber problem)))
          then [ev] else []).
Proof.
  intros H200 Hf ev.
  destruct (put_problem_status_200 id sb w H200)
    as (i & problem' & p' & [= <-] & Hf' & _ & _ & Hst & _ & _ & _ & Hk & Hbus).
  rewrite Hf in Hf'. injection Hf' as <-.
  assert (problem_updated_event p' = ev) as Hev.
  { unfold problem_updated_event, ev.
    destruct Hk as (Hi & Ht & _ & _ & _ & _ & Hw & _).
    rewrite Hi, Ht, Hst, Hw. by rewrite (findById_id _ _ _ Hf). }
  assert (wardNumber p' = wardNumber problem) as Hw
    by (by destruct Hk as (_&_&_&_&_&_&Hw&_)).
  rewrite Hbus, Hev, Hw. split; [done|]. apply inbox_io_to_emit.
Qed.

Lemma status_update_published_witness :
  inbox (bus (put_problem_status 1 resolve_body
                (with_bus sample_bus sample_world)).2) 1%nat
  = [mkEvent "problem-updated" (ProblemUpdated 1 "Broken street light" "Resolved" 3)]
  ∧ inbox (bus (put_problem_status 1 resolve_body
                  (with_bus sample_bus sample_world)).2) 2%nat = [].
Proof.
  split.
  - destruct (status_update_published 1 resolve_body problem_a 1%nat
                (with_bus sample_bus sample_world)) as [_ ->];
      [vm_compute; reflexivity|reflexivity|].
    vm_compute. reflexivity.
  - destruct (status_update_published 1 resolve_body problem_a 2%nat
                (with_bus sample_bus sample_world)) as [_ ->];
      [vm_compute; reflexivity|reflexivity|].
    vm_compute. reflexivity.
Defined.
